(** * Hitbox generation: the decomposition job of [HitboxGeneration3D.py]

    A shallow embedding of [AdvancedVoxelGenerator]: the precision table,
    [get_bounding_box], [generate_hitboxes] (k-means fit, the three snap
    rounds, the final [predict], one box per cluster), [process_model],
    the progress bar, the Cancel button and [export_json].

    Modelling choices.
    - Coordinates are exact rationals ([Q]): NumPy's float64 arithmetic is
      idealised, so rounding, NaN and infinities are outside the model.
    - [KMeans(...).fit] and [trimesh.load] are library code; they are
      variables of the sections, and every statement holds for all of
      them.  [pairwise_distances_argmin_min] and [KMeans.predict] are
      modelled by what they compute: the index of the smallest Euclidean
      distance, the lowest index winning a tie.  The squared distance is
      compared, which orders points the same way.
    - [self] is a record; every method threads it.  Exceptions, early
      [return] and [try/except/finally] are explicit outcomes.
    - Everything observable (progress bar writes, console lines, sleeps,
      library calls, the value read at each cancellation checkpoint) is
      appended to an event log kept in the record.
    - A job runs on a worker thread.  Clicks on Cancel that arrive while
      it runs are delivered at its checkpoints; two jobs are not
      interleaved (all a job writes to the flag is [False]).
    - [json.dump(data, f, indent=2)] and [json.load] are modelled down to
      the written characters, except for the text of a float, which is a
      variable together with its reader. *)

From Stdlib Require Import List String Ascii ZArith QArith Qminmax Lia Lqa
  Bool Arith Permutation DecimalString.
Import ListNotations.

Set Implicit Arguments.

(** ** Points, boxes and NumPy reductions *)

Definition point : Type := (Q * Q * Q)%type.
Definition px (p : point) : Q := fst (fst p).
Definition py (p : point) : Q := snd (fst p).
Definition pz (p : point) : Q := snd p.

(** A hitbox is [np.array([lo, hi])]: row 0 the min corner, row 1 the max. *)
Definition box : Type := (point * point)%type.

Definition pmin (p q : point) : point :=
  (Qmin (px p) (px q), Qmin (py p) (py q), Qmin (pz p) (pz q)).
Definition pmax (p q : point) : point :=
  (Qmax (px p) (px q), Qmax (py p) (py q), Qmax (pz p) (pz q)).

(** [np.min(points, axis=0)] and [np.max(points, axis=0)]; [None] is the
    [ValueError] NumPy raises for a zero-size array. *)
Definition np_min_axis0 (points : list point) : option point :=
  match points with
  | [] => None
  | p :: rest => Some (fold_left pmin rest p)
  end.

Definition np_max_axis0 (points : list point) : option point :=
  match points with
  | [] => None
  | p :: rest => Some (fold_left pmax rest p)
  end.

(** [get_bounding_box(self, points)] *)
Definition get_bounding_box (points : list point) : option box :=
  match np_min_axis0 points, np_max_axis0 points with
  | Some lo, Some hi => Some (lo, hi)
  | _, _ => None
  end.

(** ** Nearest-neighbour primitives of scikit-learn *)

Definition sqdist (p q : point) : Q :=
  (px p - px q) * (px p - px q) + (py p - py q) * (py p - py q)
  + (pz p - pz q) * (pz p - pz q).

Definition Qltb (x y : Q) : bool :=
  match x ?= y with Lt => true | _ => false end.

(** Index of the first minimum: a later entry replaces the best one only
    when it is strictly smaller. *)
Fixpoint argmin_from (best : Q) (besti i : nat) (ds : list Q) : nat :=
  match ds with
  | [] => besti
  | d :: rest =>
      if Qltb d best then argmin_from d i (S i) rest
      else argmin_from best besti (S i) rest
  end.

Definition argmin (ds : list Q) : option nat :=
  match ds with
  | [] => None
  | d :: rest => Some (argmin_from d 0%nat 1%nat rest)
  end.

(** Index in [Y] of the point nearest to [x]. *)
Definition nearest (Y : list point) (x : point) : option nat :=
  argmin (map (sqdist x) Y).

Fixpoint mapM {A B : Type} (f : A -> option B) (l : list A) : option (list B) :=
  match l with
  | [] => Some []
  | a :: rest =>
      match f a, mapM f rest with
      | Some b, Some bs => Some (b :: bs)
      | _, _ => None
      end
  end.

(** [pairwise_distances_argmin_min(X, Y)[0]]: for each row of [X] the index
    of its nearest row of [Y].  An empty [X] or [Y] is rejected. *)
Definition pairwise_distances_argmin (X Y : list point) : option (list nat) :=
  match X with
  | [] => None
  | _ => mapM (nearest Y) X
  end.

(** [vertices[closest]]: integer-array indexing, [None] for an index out of
    range. *)
Definition take_rows (vertices : list point) (idx : list nat)
  : option (list point) :=
  mapM (nth_error vertices) idx.

(** [kmeans.predict(vertices)] with the given [cluster_centers_]. *)
Definition predict (centers vertices : list point) : option (list nat) :=
  match vertices with
  | [] => None
  | _ => mapM (nearest centers) vertices
  end.

(** [vertices[labels == i]]: boolean-mask selection. *)
Definition mask_select (vertices : list point) (labels : list nat) (i : nat)
  : list point :=
  map fst (filter (fun vl => Nat.eqb (snd vl) i) (combine vertices labels)).

(** One medoid-snap round without its bookkeeping:
    [closest, _ = pairwise_distances_argmin_min(centers, vertices)] and
    [kmeans.cluster_centers_ = vertices[closest]]. *)
Definition snap (vertices centers : list point) : option (list point) :=
  match pairwise_distances_argmin centers vertices with
  | Some closest => take_rows vertices closest
  | None => None
  end.

(** [[get_bounding_box(vertices[labels == i]) for i in range(n_clusters)]] *)
Definition cluster_boxes (vertices : list point) (labels : list nat)
  (n_clusters : nat) : option (list box) :=
  mapM (fun i => get_bounding_box (mask_select vertices labels i))
       (seq 0 n_clusters).

(** Vertex indices that carry label [i]. *)
Definition cluster_indices (labels : list nat) (i : nat) : list nat :=
  filter (fun j => match nth_error labels j with
                   | Some l => Nat.eqb l i
                   | None => false
                   end)
         (seq 0 (List.length labels)).

(** ** The application object *)

Record Mesh := { vertices : list point; faces : list (nat * nat * nat) }.

(** [self.precision_levels]: an insertion-ordered dict. *)
Record params := { clusters : nat; iterations : nat }.

Definition precision_levels : list (string * params) :=
  [ ("super low", {| clusters := 50; iterations := 5 |});
    ("low", {| clusters := 150; iterations := 10 |});
    ("medium", {| clusters := 300; iterations := 15 |});
    ("high", {| clusters := 600; iterations := 20 |});
    ("ultra", {| clusters := 1200; iterations := 25 |}) ]%string.

Fixpoint dict_get {V : Type} (d : list (string * V)) (key : string) : option V :=
  match d with
  | [] => None
  | (k, v) :: rest => if String.eqb k key then Some v else dict_get rest key
  end.

Inductive exn :=
| KeyError (key : string)          (* precision_levels[precision_level] *)
| AttributeError                   (* self.mesh is None *)
| ValueError_zero_size             (* np.min / np.max of an empty array *)
| ValueError_no_samples            (* scikit-learn input validation *)
| IndexError
| FitError                         (* KMeans(...).fit raised *)
| LoadError.                       (* trimesh.load raised *)

Inductive message :=
| Msg_cancelled                                     (* "Operation cancelled" *)
| Msg_generated (count : nat) (level : string)      (* "Generated .. hitboxes" *)
| Msg_processing_error (e : exn)                    (* "Processing Error: .." *)
| Msg_model_loaded (n_faces : nat)                  (* "Model loaded: .. faces" *)
| Msg_error (e : exn).                              (* "Error: .." *)

Inductive libcall := Call_fit | Call_argmin_min | Call_predict.

Inductive event :=
| Progress (value : Z)       (* update_progress(value) *)
| Log (m : message)          (* self.log(..) *)
| Sleep                      (* time.sleep(0.1) *)
| Schedule_viewport          (* self.master.after(0, self.update_viewport) *)
| Lib (c : libcall)
| Checkpoint (flag : bool).  (* truth value read by [if self.cancel_processing] *)

(** What the name [cancel_processing] can denote on the instance: the bool
    stored in the instance dict, or the method of the class. *)
Inductive pyval := PyBool (b : bool) | PyBoundMethod_cancel_processing.

Record App := {
  mesh : option Mesh;
  current_hitboxes : list box;
  progress_running : bool;
  (* instance-dict entry [cancel_processing]; [None] while it is absent *)
  cancel_processing : option bool;
  (* the [command=] option the Cancel button was created with *)
  cancel_btn_command : option pyval;
  progress_bar_value : Z;
  events : list event
}.

Definition set_mesh (m : option Mesh) (a : App) : App :=
  {| mesh := m; current_hitboxes := current_hitboxes a;
     progress_running := progress_running a;
     cancel_processing := cancel_processing a;
     cancel_btn_command := cancel_btn_command a;
     progress_bar_value := progress_bar_value a; events := events a |}.

Definition set_current_hitboxes (h : list box) (a : App) : App :=
  {| mesh := mesh a; current_hitboxes := h;
     progress_running := progress_running a;
     cancel_processing := cancel_processing a;
     cancel_btn_command := cancel_btn_command a;
     progress_bar_value := progress_bar_value a; events := events a |}.

Definition set_progress_running (b : bool) (a : App) : App :=
  {| mesh := mesh a; current_hitboxes := current_hitboxes a;
     progress_running := b;
     cancel_processing := cancel_processing a;
     cancel_btn_command := cancel_btn_command a;
     progress_bar_value := progress_bar_value a; events := events a |}.

Definition set_cancel_processing (b : bool) (a : App) : App :=
  {| mesh := mesh a; current_hitboxes := current_hitboxes a;
     progress_running := progress_running a;
     cancel_processing := Some b;
     cancel_btn_command := cancel_btn_command a;
     progress_bar_value := progress_bar_value a; events := events a |}.

Definition set_cancel_btn_command (c : pyval) (a : App) : App :=
  {| mesh := mesh a; current_hitboxes := current_hitboxes a;
     progress_running := progress_running a;
     cancel_processing := cancel_processing a;
     cancel_btn_command := Some c;
     progress_bar_value := progress_bar_value a; events := events a |}.

Definition set_progress_bar_value (v : Z) (a : App) : App :=
  {| mesh := mesh a; current_hitboxes := current_hitboxes a;
     progress_running := progress_running a;
     cancel_processing := cancel_processing a;
     cancel_btn_command := cancel_btn_command a;
     progress_bar_value := v; events := events a |}.

Definition emit (e : event) (a : App) : App :=
  {| mesh := mesh a; current_hitboxes := current_hitboxes a;
     progress_running := progress_running a;
     cancel_processing := cancel_processing a;
     cancel_btn_command := cancel_btn_command a;
     progress_bar_value := progress_bar_value a;
     events := events a ++ [e] |}.

(** Attribute lookup [self.cancel_processing]: the instance dict comes
    before the (non-data descriptor) function found on the class. *)
Definition getattr_cancel_processing (a : App) : pyval :=
  match cancel_processing a with
  | Some b => PyBool b
  | None => PyBoundMethod_cancel_processing
  end.

Definition truthy (v : pyval) : bool :=
  match v with
  | PyBool b => b
  | PyBoundMethod_cancel_processing => true
  end.

Definition callable (v : pyval) : bool :=
  match v with
  | PyBool _ => false
  | PyBoundMethod_cancel_processing => true
  end.

(** [update_progress(self, value)] *)
Definition update_progress (v : Z) (a : App) : App :=
  emit (Progress v) (set_progress_bar_value v a).

(** [log(self, message)] *)
Definition log (m : message) (a : App) : App := emit (Log m) a.

(** The method [cancel_processing(self)] defined on the class. *)
Definition cancel_processing_method (a : App) : App :=
  log Msg_cancelled (set_cancel_processing true a).

(** Clicking the Cancel button: Tk invokes the button's command.  A command
    that is not callable was handed to Tcl as a plain string; invoking it
    is a Tcl background error and no Python code runs. *)
Definition click_cancel (a : App) : App :=
  match cancel_btn_command a with
  | Some PyBoundMethod_cancel_processing => cancel_processing_method a
  | _ => a
  end.

(** The part of [__init__] and [setup_ui] that the job and the Cancel
    button depend on, in source order: the attribute is assigned [False]
    first, then the button is created with
    [command=self.cancel_processing]. *)
Definition before_init : App :=
  {| mesh := None; current_hitboxes := []; progress_running := false;
     cancel_processing := None; cancel_btn_command := None;
     progress_bar_value := 0; events := [] |}.

Definition init_attributes (a : App) : App :=
  set_cancel_processing false
    (set_progress_running false (set_current_hitboxes [] (set_mesh None a))).

Definition setup_ui (a : App) : App :=
  set_cancel_btn_command (getattr_cancel_processing a) a.

Definition init : App := setup_ui (init_attributes before_init).

(** ** Control flow: exceptions, early return, try/except/finally *)

Inductive outcome (A : Type) :=
| Normal (a : A)
| Returned            (* a [return] statement was executed *)
| Raised (e : exn).
Arguments Normal {A} a.
Arguments Returned {A}.
Arguments Raised {A} e.

Definition M (A : Type) : Type := App -> outcome A * App.

Definition ret {A} (x : A) : M A := fun a => (Normal x, a).
Definition bind {A B} (m : M A) (k : A -> M B) : M B :=
  fun a =>
    match m a with
    | (Normal x, a') => k x a'
    | (Returned, a') => (Returned, a')
    | (Raised e, a') => (Raised e, a')
    end.
Definition do_ (f : App -> App) : M unit := fun a => (Normal tt, f a).
Definition return_ {A} : M A := fun a => (Returned, a).
Definition raise {A} (e : exn) : M A := fun a => (Raised e, a).
Definition read_attr {A} (f : App -> A) : M A := fun a => (Normal (f a), a).
Definition or_raise {A} (e : exn) (o : option A) : M A :=
  match o with
  | Some x => ret x
  | None => raise e
  end.

Notation "x <- c ;; k" := (bind c (fun x => k))
  (at level 61, c at next level, right associativity).
Notation "c ;;; k" := (bind c (fun _ => k))
  (at level 61, right associativity).

(** [try: body  except Exception as e: handler(e)  finally: final] as the
    whole body of a method: the method itself always returns normally. *)
Definition try_except_finally (body : M unit) (handler : exn -> App -> App)
  (final : App -> App) : App -> App :=
  fun a =>
    match body a with
    | (Raised e, a') => final (handler e a')
    | (_, a') => final a'
    end.

(** ** The decomposition job *)

(** The [finally] clause shared by both jobs. *)
Definition finally_reset (a : App) : App :=
  update_progress 0 (set_progress_running false a).

Section Engine.

(** [KMeans(n_clusters, init='k-means++', n_init=1, max_iter,
    random_state=42).fit(vertices).cluster_centers_]; [None] when [fit]
    raises.  The fixed seed makes it a function of its arguments. *)
Variable kmeans_fit : nat -> nat -> list point -> option (list point).

(** [trimesh.load(path, force='mesh')], a scene already concatenated into
    one mesh; [None] when it raises. *)
Variable trimesh_load : string -> option Mesh.

(** The job runs on a worker thread while the Tk main loop keeps serving
    clicks.  [cancels i] is the number of clicks on Cancel that arrive
    before the read of the flag in round [i]. *)
Variable cancels : nat -> nat.

(** [if self.cancel_processing: return] *)
Definition checkpoint (i : nat) : M unit :=
  fun a =>
    let a1 := Nat.iter (cancels i) click_cancel a in
    let flag := truthy (getattr_cancel_processing a1) in
    let a2 := emit (Checkpoint flag) a1 in
    if flag then (Returned, a2) else (Normal tt, a2).

(** Body of [for i in range(3)], lines 213-217. *)
Definition refinement_round (vs : list point) (i : nat)
  (centers : list point) : M (list point) :=
  checkpoint i ;;;
  do_ (emit (Lib Call_argmin_min)) ;;;
  closest <- or_raise ValueError_no_samples
               (pairwise_distances_argmin centers vs) ;;
  centers' <- or_raise IndexError (take_rows vs closest) ;;
  do_ (update_progress (50 + Z.of_nat i * 10)) ;;;
  do_ (emit Sleep) ;;;
  ret centers'.

Fixpoint for_rounds (vs : list point) (range : list nat)
  (centers : list point) : M (list point) :=
  match range with
  | [] => ret centers
  | i :: rest =>
      centers' <- refinement_round vs i centers ;;
      for_rounds vs rest centers'
  end.

(** The [try] block of [generate_hitboxes], lines 189-224. *)
Definition generate_hitboxes_body (precision_level : string) : M unit :=
  do_ (set_progress_running true) ;;;
  do_ (set_cancel_processing false) ;;;
  do_ (update_progress 10) ;;;
  p <- or_raise (KeyError precision_level)
         (dict_get precision_levels precision_level) ;;
  m <- read_attr mesh ;;
  vs <- or_raise AttributeError (option_map vertices m) ;;
  if String.eqb precision_level "super low" then
    b <- or_raise ValueError_zero_size (get_bounding_box vs) ;;
    do_ (set_current_hitboxes [b]) ;;;
    return_
  else
    let n_clusters := Nat.min (clusters p) (List.length vs) in
    do_ (emit (Lib Call_fit)) ;;;
    centers <- or_raise FitError (kmeans_fit n_clusters (iterations p) vs) ;;
    do_ (update_progress 50) ;;;
    centers' <- for_rounds vs (seq 0 3) centers ;;
    do_ (emit (Lib Call_predict)) ;;;
    labels <- or_raise ValueError_no_samples (predict centers' vs) ;;
    hs <- or_raise ValueError_zero_size (cluster_boxes vs labels n_clusters) ;;
    do_ (set_current_hitboxes hs) ;;;
    do_ (update_progress 80) ;;;
    do_ (emit Schedule_viewport) ;;;
    do_ (log (Msg_generated (List.length hs) precision_level)).

(** [generate_hitboxes(self, precision_level)] *)
Definition generate_hitboxes (precision_level : string) : App -> App :=
  try_except_finally
    (generate_hitboxes_body precision_level)
    (fun e => log (Msg_processing_error e))
    finally_reset.

(** The [try] block of [process_model], lines 147-160. *)
Definition process_model_body (path : string) : M unit :=
  do_ (set_progress_running true) ;;;
  do_ (set_cancel_processing false) ;;;
  do_ (update_progress 10) ;;;
  m <- or_raise LoadError (trimesh_load path) ;;
  do_ (set_mesh (Some m)) ;;;
  do_ (update_progress 30) ;;;
  do_ (generate_hitboxes "high") ;;;
  do_ (update_progress 90) ;;;
  do_ (emit Schedule_viewport) ;;;
  do_ (log (Msg_model_loaded (List.length (faces m)))).

(** [process_model(self, path)] *)
Definition process_model (path : string) : App -> App :=
  try_except_finally
    (process_model_body path)
    (fun e => log (Msg_error e))
    finally_reset.

(** [set_precision(self, level)]: nothing happens without a mesh. *)
Definition set_precision (level : string) (a : App) : App :=
  match mesh a with
  | None => a
  | Some _ => generate_hitboxes level a
  end.

End Engine.

(** ** Reading the event log *)

Fixpoint progress_values (es : list event) : list Z :=
  match es with
  | [] => []
  | Progress v :: rest => v :: progress_values rest
  | _ :: rest => progress_values rest
  end.

Fixpoint library_calls (es : list event) : list libcall :=
  match es with
  | [] => []
  | Lib c :: rest => c :: library_calls rest
  | _ :: rest => library_calls rest
  end.

Fixpoint checkpoint_flags (es : list event) : list bool :=
  match es with
  | [] => []
  | Checkpoint b :: rest => b :: checkpoint_flags rest
  | _ :: rest => checkpoint_flags rest
  end.

(** ** User actions and reachable states *)

Inductive ui_event :=
| Click_cancel
| Click_load (path : string) (cancels : nat -> nat)
| Select_precision (level : string) (cancels : nat -> nat).

Section Reach.
Variable kmeans_fit : nat -> nat -> list point -> option (list point).
Variable trimesh_load : string -> option Mesh.

Definition ui_step (a : App) (e : ui_event) : App :=
  match e with
  | Click_cancel => click_cancel a
  | Click_load path cancels =>
      process_model kmeans_fit trimesh_load cancels path a
  | Select_precision level cancels =>
      set_precision kmeans_fit cancels level a
  end.

Definition run_ui (es : list ui_event) : App := fold_left ui_step es init.

End Reach.

Section Reachable.
Variable kmeans_fit : nat -> nat -> list point -> option (list point).
Variable trimesh_load : string -> option Mesh.

(** States the running program can be in: [__init__] followed by any
    sequence of user actions. *)
Definition reachable (a : App) : Prop :=
  exists es, a = run_ui kmeans_fit trimesh_load es.

End Reachable.

(** Events of a run: what [f] appended to the log of [a]. *)
Definition run_trace (f : App -> App) (a : App) : list event :=
  skipn (List.length (events a)) (events (f a)).

(** ** The clustering pipeline as a function *)

(** The three snap rounds as a function of the fitted centres. *)
Definition refine3 (vs cs : list point) : option (list point) :=
  match snap vs cs with
  | Some c1 =>
      match snap vs c1 with
      | Some c2 => snap vs c2
      | None => None
      end
  | None => None
  end.

(** The refinement as the specification words it: every round snaps the
    centres and then recomputes the assignment of every vertex. *)
Definition spec_round (vs : list point) (st : list point * list nat)
  : option (list point * list nat) :=
  match snap vs (fst st) with
  | Some cs' =>
      match predict cs' vs with
      | Some labels => Some (cs', labels)
      | None => None
      end
  | None => None
  end.

Definition spec_refinement (vs : list point) (st : list point * list nat)
  : option (list point * list nat) :=
  match spec_round vs st with
  | Some s1 =>
      match spec_round vs s1 with
      | Some s2 => spec_round vs s2
      | None => None
      end
  | None => None
  end.

(** Library calls the specification's wording prescribes for one run. *)
Definition spec_library_calls : list libcall :=
  [Call_fit; Call_argmin_min; Call_predict; Call_argmin_min; Call_predict;
   Call_argmin_min; Call_predict].

(** The boxes of a non-bypass run as a function of the mesh: fit, three
    snap rounds, final assignment, one box per cluster. *)
Definition clustered_boxes
  (kmeans_fit : nat -> nat -> list point -> option (list point))
  (p : params) (vs : list point) : option (list box) :=
  let n_clusters := Nat.min (clusters p) (List.length vs) in
  match kmeans_fit n_clusters (iterations p) vs with
  | Some cs =>
      match refine3 vs cs with
      | Some c3 =>
          match predict c3 vs with
          | Some labels => cluster_boxes vs labels n_clusters
          | None => None
          end
      | None => None
      end
  | None => None
  end.

(** Parameters of the tier [process_model] always asks for. *)
Definition high_params : params := {| clusters := 600; iterations := 20 |}.
Definition low_params : params := {| clusters := 150; iterations := 10 |}.

(** ** Intermediate states of a run *)

(** State after one completed refinement round [i]. *)
Definition after_round (i : nat) (a : App) : App :=
  emit Sleep (update_progress (50 + Z.of_nat i * 10)
                (emit (Lib Call_argmin_min) (emit (Checkpoint false) a))).

(** State after a successful [kmeans.fit] and [update_progress(50)]. *)
Definition job_started (a : App) : App :=
  update_progress 50 (emit (Lib Call_fit) (update_progress 10
    (set_cancel_processing false (set_progress_running true a)))).

(** State when [kmeans.predict] is called, after the three rounds. *)
Definition job_refined (a : App) : App :=
  emit (Lib Call_predict)
    (after_round 2 (after_round 1 (after_round 0 (job_started a)))).

(** State in which a refinement round is left when the nearest-vertex
    search raises. *)
Definition failed_round (a : App) : App :=
  emit (Lib Call_argmin_min) (emit (Checkpoint false) a).

(** ** Invariants of the flag and the button *)

(** The state in which [setup_ui] leaves the button and every job start
    leaves the flag. *)
Definition inert (a : App) : Prop :=
  cancel_btn_command a = Some (PyBool false) /\
  cancel_processing a = Some false.

(** Every flag value read at a checkpoint so far was [False]. *)
Definition flags_false (a : App) : Prop :=
  Forall (fun b => b = false) (checkpoint_flags (events a)).

(** A property of the state that a monadic computation keeps. *)
Definition keeps {A : Type} (P : App -> Prop) (m : M A) : Prop :=
  forall a, P a -> P (snd (m a)).

(** The invariant of the running program. *)
Definition flag_inv (a : App) : Prop := inert a /\ flags_false a.

(** ** Vocabulary of the statements *)

(** Two points at the same position (equal as rationals). *)
Definition same_position (p q : point) : Prop :=
  px p == px q /\ py p == py q /\ pz p == pz q.

Definition pairwise_distinct (vs : list point) : Prop :=
  forall i j p q,
    nth_error vs i = Some p -> nth_error vs j = Some q ->
    same_position p q -> i = j.

(** [x] is the least (greatest) value of coordinate [f] over [vs]. *)
Definition least_of (f : point -> Q) (vs : list point) (x : Q) : Prop :=
  In x (map f vs) /\ forall v, In v vs -> x <= f v.
Definition greatest_of (f : point -> Q) (vs : list point) (x : Q) : Prop :=
  In x (map f vs) /\ forall v, In v vs -> f v <= x.

(** The mesh's own bounds. *)
Definition mesh_bounds (vs : list point) (b : box) : Prop :=
  least_of px vs (px (fst b)) /\ least_of py vs (py (fst b)) /\
  least_of pz vs (pz (fst b)) /\ greatest_of px vs (px (snd b)) /\
  greatest_of py vs (py (snd b)) /\ greatest_of pz vs (pz (snd b)).

(** [i] is the index of the first minimum of [ds]. *)
Definition first_min (ds : list Q) (i : nat) : Prop :=
  exists d, nth_error ds i = Some d /\
    (forall j e, nth_error ds j = Some e -> d <= e) /\
    (forall j e, (j < i)%nat -> nth_error ds j = Some e -> d < e).

(** [c'] is the position of the real vertex nearest to [c], the lowest
    vertex index winning a tie. *)
Definition snapped (vs : list point) (c c' : point) : Prop :=
  exists i, nth_error vs i = Some c' /\ first_min (map (sqdist c) vs) i.

(** [l] is the index of the centre nearest to [v], the lowest centre index
    winning a tie. *)
Definition assigned (centers : list point) (v : point) (l : nat) : Prop :=
  first_min (map (sqdist v) centers) l.

(** Non-decreasing sequence of progress values. *)
Fixpoint non_decreasing (l : list Z) : Prop :=
  match l with
  | [] => True
  | x :: rest =>
      match rest with
      | [] => True
      | y :: _ => (x <= y)%Z /\ non_decreasing rest
      end
  end.

Definition percent (v : Z) : Prop := (0 <= v <= 100)%Z.

(** An assignment of [n] vertices to [k] clusters is a partition when every
    cluster holds vertex indices only and every vertex index lies in exactly
    one cluster. *)
Definition is_partition (n k : nat) (labels : list nat) : Prop :=
  (forall i j, In j (cluster_indices labels i) -> (j < n)%nat) /\
  (forall j, (j < n)%nat ->
     exists i, (i < k)%nat /\ In j (cluster_indices labels i) /\
       forall i', In j (cluster_indices labels i') -> i' = i).

(** Progress values a decomposition run reports before the final reset. *)
Definition milestones : list Z := [10; 50; 50; 60; 70; 80]%Z.

(** ** JSON export *)

(** The Python value handed to [json.dump]: floats, lists and dicts with
    string keys. *)
#[warnings="-register-all"]
Inductive json :=
| JNumber (q : Q)
| JArray (items : list json)
| JObject (members : list (string * json)).

(** [row.tolist()] for a row of three coordinates. *)
Definition tolist (p : point) : json :=
  JArray [JNumber (px p); JNumber (py p); JNumber (pz p)].

(** [data] of [export_json]:
    [{'hitboxes': [[h[0].tolist(), h[1].tolist()] for h in current_hitboxes]}] *)
Definition export_json_data (hitboxes : list box) : json :=
  JObject [("hitboxes"%string,
            JArray (map (fun h => JArray [tolist (fst h); tolist (snd h)])
                        hitboxes))].

(** The repository only writes this file.  The reader below accepts the
    documented format and nothing else: an object with the single key
    [hitboxes] holding an array of boxes, each box an array of exactly two
    arrays of exactly three numbers, min corner first. *)
Definition read_point (j : json) : option point :=
  match j with
  | JArray [JNumber x; JNumber y; JNumber z] => Some (x, y, z)
  | _ => None
  end.

Definition read_box (j : json) : option box :=
  match j with
  | JArray [lo; hi] =>
      match read_point lo, read_point hi with
      | Some l, Some h => Some (l, h)
      | _, _ => None
      end
  | _ => None
  end.

Definition read_hitboxes (j : json) : option (list box) :=
  match j with
  | JObject [(key, JArray items)] =>
      if String.eqb key "hitboxes" then mapM read_box items else None
  | _ => None
  end.

(** Shape of the export format, stated on the value. *)
Definition is_coordinate_array (j : json) : Prop :=
  exists x y z, j = JArray [JNumber x; JNumber y; JNumber z].
Definition is_box_entry (j : json) : Prop :=
  exists lo hi, j = JArray [lo; hi] /\
    is_coordinate_array lo /\ is_coordinate_array hi.

Definition point_coordinates (p : point) : list Q := [px p; py p; pz p].

(** Every coordinate stored in the hitbox list. *)
Definition coordinates (hs : list box) : list Q :=
  flat_map (fun h => point_coordinates (fst h) ++ point_coordinates (snd h))
           hs.

(** ** JSON text: [json.dump(data, f, indent=2)] and [json.load] *)

Definition text : Type := list ascii.

Definition chars (s : string) : text := list_ascii_of_string s.

(** The double-quote character. *)
Definition dquote : ascii := ascii_of_nat 34.
Definition newline : ascii := ascii_of_nat 10.
Definition space : ascii := ascii_of_nat 32.

Section JsonText.

(** [float.__repr__], the text [json] writes for a float, and [float()],
    which [json] applies to a number token. *)
Variable float_repr : Q -> text.
Variable float_of_text : text -> option Q.

(** Line break followed by the indentation of nesting level [lvl]. *)
Definition newline_indent (lvl : nat) : text :=
  newline :: repeat space (2 * lvl).

Fixpoint join (sep : text) (parts : list text) : text :=
  match parts with
  | [] => []
  | [p] => p
  | p :: rest => p ++ sep ++ join sep rest
  end.

(** A dict key; the keys written here need no escape sequence. *)
Definition quoted (k : string) : text := dquote :: chars k ++ [dquote].

(** The text of value [j] when it starts at nesting level [lvl]. *)
Fixpoint dumps (lvl : nat) (j : json) : text :=
  match j with
  | JNumber q => float_repr q
  | JArray [] => chars "[]"
  | JArray items =>
      chars "[" ++ newline_indent (S lvl)
      ++ join (chars "," ++ newline_indent (S lvl))
              (map (dumps (S lvl)) items)
      ++ newline_indent lvl ++ chars "]"
  | JObject [] => chars "{}"
  | JObject members =>
      chars "{" ++ newline_indent (S lvl)
      ++ join (chars "," ++ newline_indent (S lvl))
              (map (fun kv => quoted (fst kv) ++ chars ": "
                              ++ dumps (S lvl) (snd kv)) members)
      ++ newline_indent lvl ++ chars "}"
  end.

(** [json.dump(data, f, indent=2)]: the text written to the file. *)
Definition json_dump (data : json) : text := dumps 0 data.

Inductive token :=
| TLBrace | TRBrace | TLBracket | TRBracket | TComma | TColon
| TString (s : string)
| TNumber (digits : text).

Definition is_space (c : ascii) : bool :=
  existsb (Ascii.eqb c) [space; newline; ascii_of_nat 9; ascii_of_nat 13].

Definition is_number_char (c : ascii) : bool :=
  existsb (Ascii.eqb c) (chars "0123456789-+.eE").

Definition punctuation (c : ascii) : option token :=
  if Ascii.eqb c "{" then Some TLBrace
  else if Ascii.eqb c "}" then Some TRBrace
  else if Ascii.eqb c "[" then Some TLBracket
  else if Ascii.eqb c "]" then Some TRBracket
  else if Ascii.eqb c "," then Some TComma
  else if Ascii.eqb c ":" then Some TColon
  else None.

Inductive lex_state :=
| Idle
| In_number (acc : text)    (* characters of the number so far, reversed *)
| In_string (acc : text).   (* characters of the string so far, reversed *)

(** What a character does between tokens; [continue] lexes what follows. *)
Definition start (c : ascii) (continue : lex_state -> option (list token))
  : option (list token) :=
  if is_space c then continue Idle
  else if Ascii.eqb c dquote then continue (In_string [])
  else if is_number_char c then continue (In_number [c])
  else match punctuation c with
       | Some tok => option_map (cons tok) (continue Idle)
       | None => None
       end.

Fixpoint lex (st : lex_state) (t : text) : option (list token) :=
  match t with
  | [] =>
      match st with
      | Idle => Some []
      | In_number acc => Some [TNumber (rev acc)]
      | In_string _ => None
      end
  | c :: rest =>
      match st with
      | Idle => start c (fun st' => lex st' rest)
      | In_number acc =>
          if is_number_char c then lex (In_number (c :: acc)) rest
          else option_map (cons (TNumber (rev acc)))
                          (start c (fun st' => lex st' rest))
      | In_string acc =>
          if Ascii.eqb c dquote
          then option_map (cons (TString (string_of_list_ascii (rev acc))))
                          (lex Idle rest)
          else lex (In_string (c :: acc)) rest
      end
  end.

(** Elements of an array after its first one: [, value]* followed by the
    closing bracket. *)
Fixpoint parse_elements (value : list token -> option (json * list token))
  (fuel : nat) (ts : list token) : option (list json * list token) :=
  match fuel with
  | O => None
  | S fuel' =>
      match ts with
      | TRBracket :: rest => Some ([], rest)
      | TComma :: rest =>
          match value rest with
          | Some (v, rest1) =>
              match parse_elements value fuel' rest1 with
              | Some (vs, rest2) => Some (v :: vs, rest2)
              | None => None
              end
          | None => None
          end
      | _ => None
      end
  end.

(** Members of an object after its first one. *)
Fixpoint parse_members (value : list token -> option (json * list token))
  (fuel : nat) (ts : list token)
  : option (list (string * json) * list token) :=
  match fuel with
  | O => None
  | S fuel' =>
      match ts with
      | TRBrace :: rest => Some ([], rest)
      | TComma :: TString k :: TColon :: rest =>
          match value rest with
          | Some (v, rest1) =>
              match parse_members value fuel' rest1 with
              | Some (ms, rest2) => Some ((k, v) :: ms, rest2)
              | None => None
              end
          | None => None
          end
      | _ => None
      end
  end.

(** One JSON value at the head of the token list.  [fuel] bounds the
    nesting depth. *)
Fixpoint parse_value (fuel : nat) (ts : list token)
  : option (json * list token) :=
  match fuel with
  | O => None
  | S fuel' =>
      match ts with
      | TNumber digits :: rest =>
          match float_of_text digits with
          | Some q => Some (JNumber q, rest)
          | None => None
          end
      | TLBracket :: TRBracket :: rest => Some (JArray [], rest)
      | TLBracket :: rest =>
          match parse_value fuel' rest with
          | Some (v, rest1) =>
              match parse_elements (parse_value fuel')
                      (List.length rest1) rest1 with
              | Some (vs, rest2) => Some (JArray (v :: vs), rest2)
              | None => None
              end
          | None => None
          end
      | TLBrace :: TRBrace :: rest => Some (JObject [], rest)
      | TLBrace :: TString k :: TColon :: rest =>
          match parse_value fuel' rest with
          | Some (v, rest1) =>
              match parse_members (parse_value fuel')
                      (List.length rest1) rest1 with
              | Some (ms, rest2) => Some (JObject ((k, v) :: ms), rest2)
              | None => None
              end
          | None => None
          end
      | _ => None
      end
  end.

(** [json.load(f)] *)
Definition json_load (t : text) : option json :=
  match lex Idle t with
  | Some ts =>
      match parse_value (List.length ts) ts with
      | Some (v, []) => Some v
      | _ => None
      end
  | None => None
  end.

(** The text of a float is a number token that reads back as the float. *)
Definition round_trips (q : Q) : Prop :=
  float_repr q <> [] /\
  forallb is_number_char (float_repr q) = true /\
  float_of_text (float_repr q) = Some q.

End JsonText.

(** Tokens of the export format. *)
Definition point_tokens (float_repr : Q -> text) (p : point) : list token :=
  [TLBracket; TNumber (float_repr (px p)); TComma;
   TNumber (float_repr (py p)); TComma; TNumber (float_repr (pz p));
   TRBracket].

Definition box_tokens (float_repr : Q -> text) (h : box) : list token :=
  TLBracket :: point_tokens float_repr (fst h)
  ++ TComma :: point_tokens float_repr (snd h) ++ [TRBracket].

(** [[h[0].tolist(), h[1].tolist()]] *)
Definition box_json (h : box) : json := JArray [tolist (fst h); tolist (snd h)].

(** Tokens of the boxes after the first one, and of the whole file. *)
Definition more_boxes (float_repr : Q -> text) (hs : list box) : list token :=
  flat_map (fun h => TComma :: box_tokens float_repr h) hs.

Definition export_tokens (float_repr : Q -> text) (hs : list box)
  : list token :=
  [TLBrace; TString "hitboxes"; TColon] ++
  match hs with
  | [] => [TLBracket; TRBracket]
  | h :: rest =>
      TLBracket :: box_tokens float_repr h ++ more_boxes float_repr rest
      ++ [TRBracket]
  end ++ [TRBrace].

(** [export_json(self, path)]: the text written to the file at [path]. *)
Definition export_json (float_repr : Q -> text) (a : App) : text :=
  json_dump float_repr (export_json_data (current_hitboxes a)).

(** Reading an exported file back: [json.load], then the boxes. *)
Definition load_hitboxes (float_of_text : text -> option Q) (t : text)
  : option (list box) :=
  match json_load float_of_text t with
  | Some v => read_hitboxes v
  | None => None
  end.

(** ** Concrete meshes used in the examples *)

Definition pt (x y z : Z) : point := (inject_Z x, inject_Z y, inject_Z z).

Definition triangle : Mesh :=
  {| vertices := [pt 0 0 0; pt 1 0 0; pt 0 1 0]; faces := [(0, 1, 2)%nat] |}.

(** A stand-in for the library in the examples: k-means++ seeds the
    centres on data points, and with as many clusters as points Lloyd's
    iteration leaves them there; this one returns the first [k] vertices.
    Zero clusters are rejected, as scikit-learn rejects them. *)
Definition fit_first_rows (k _ : nat) (vs : list point) : option (list point) :=
  match k with
  | O => None
  | _ => Some (firstn k vs)
  end.

Definition load_triangle (_ : string) : option Mesh := Some triangle.
Definition no_cancels (_ : nat) : nat := 0%nat.

(** A reachable state with the triangle loaded. *)
Definition triangle_loaded : App :=
  run_ui fit_first_rows load_triangle [Click_load "triangle.obj" no_cancels].

(** A triangle with a seam: two of its vertices share a position (as when
    a vertex is stored once per texture coordinate). *)
Definition seam : Mesh :=
  {| vertices := [pt 0 0 0; pt 0 0 0; pt 1 0 0]; faces := [(0, 1, 2)%nat] |}.
Definition load_seam (_ : string) : option Mesh := Some seam.
Definition seam_loaded : App :=
  run_ui fit_first_rows load_seam [Click_load "seam.obj" no_cancels].

(** A degenerate mesh: every vertex at the same position. *)
Definition knot : Mesh :=
  {| vertices := [pt 1 2 3; pt 1 2 3; pt 1 2 3]; faces := [(0, 1, 2)%nat] |}.
Definition load_knot (_ : string) : option Mesh := Some knot.
Definition knot_loaded : App :=
  run_ui fit_first_rows load_knot [Click_load "knot.obj" no_cancels].

(** A strip of 150 distinct vertices, enough for the tier [low]. *)
Definition strip : Mesh :=
  {| vertices := map (fun i => pt (Z.of_nat i) 0 0) (seq 0 150);
     faces := map (fun i => (i, S i, S (S i))) (seq 0 148) |}.
Definition load_strip (_ : string) : option Mesh := Some strip.
Definition strip_loaded : App :=
  run_ui fit_first_rows load_strip [Click_load "strip.obj" no_cancels].

(** A stand-in for [float.__repr__] and [float()] on floats of integral
    value below 1e16, which Python writes as the integer followed by
    [.0]. *)
Definition repr_integral (q : Q) : text :=
  chars (NilZero.string_of_int (Z.to_int (Qnum q))) ++ chars ".0".

Definition float_of_integral_text (t : text) : option Q :=
  match rev t with
  | c0 :: cdot :: digits =>
      if (Ascii.eqb c0 "0" && Ascii.eqb cdot ".")%bool
      then option_map (fun i => inject_Z (Z.of_int i))
             (NilZero.int_of_string (string_of_list_ascii (rev digits)))
      else None
  | _ => None
  end.

(** * Further vocabulary for the jobs *)

(** [v] lies within the box [b], faces included. *)
Definition inside (v : point) (b : box) : Prop :=
  px (fst b) <= px v <= px (snd b) /\
  py (fst b) <= py v <= py (snd b) /\
  pz (fst b) <= pz v <= pz (snd b).

(** The min corner is at or below the max corner on every axis. *)
Definition ordered_box (b : box) : Prop :=
  px (fst b) <= px (snd b) /\ py (fst b) <= py (snd b) /\
  pz (fst b) <= pz (snd b).

(** Whether two points are at the same position, as a test. *)
Definition same_position_b (p q : point) : bool :=
  Qeq_bool (px p) (px q) && Qeq_bool (py p) (py q) && Qeq_bool (pz p) (pz q).

(** Vertex [k] is the first one of the list at its position. *)
Definition first_at_position (vs : list point) (k : nat) : bool :=
  match nth_error vs k with
  | Some v => forallb (fun u => negb (same_position_b u v)) (firstn k vs)
  | None => false
  end.

(** Indices of the vertices that are the first at their position, and the
    number of distinct positions of a vertex list. *)
Definition first_indices (vs : list point) : list nat :=
  filter (first_at_position vs) (seq 0 (List.length vs)).

Definition distinct_positions (vs : list point) : nat :=
  List.length (first_indices vs).

(** The list [generate_hitboxes] assigns to [current_hitboxes] as a
    function of the tier name and the mesh: the single bounding box at the
    tier [super low], the boxes of the clustering pipeline at the other
    tiers; [None] when an exception is raised before the assignment. *)
Definition published
  (kmeans_fit : nat -> nat -> list point -> option (list point))
  (level : string) (m : option Mesh) : option (list box) :=
  match dict_get precision_levels level, m with
  | Some p, Some m =>
      if String.eqb level "super low"
      then option_map (fun b => [b]) (get_bounding_box (vertices m))
      else clustered_boxes kmeans_fit p (vertices m)
  | _, _ => None
  end.

(** The exceptions the [except] clause of [generate_hitboxes] logged. *)
Fixpoint processing_errors (es : list event) : list exn :=
  match es with
  | [] => []
  | Log (Msg_processing_error e) :: rest => e :: processing_errors rest
  | _ :: rest => processing_errors rest
  end.

(** How often [self.master.after(0, self.update_viewport)] ran. *)
Fixpoint viewport_updates (es : list event) : nat :=
  match es with
  | [] => 0%nat
  | Schedule_viewport :: rest => S (viewport_updates rest)
  | _ :: rest => viewport_updates rest
  end.

(** The state between two jobs. *)
Definition idle (a : App) : Prop :=
  Forall ordered_box (current_hitboxes a) /\
  progress_running a = false /\ progress_bar_value a = 0%Z /\
  (mesh a = None -> current_hitboxes a = []).

(** A file without vertices, for the examples. *)
Definition empty_mesh : Mesh := {| vertices := []; faces := [] |}.
Definition load_empty (_ : string) : option Mesh := Some empty_mesh.
Definition empty_loaded : App :=
  run_ui fit_first_rows load_empty [Click_load "empty.obj" no_cancels].

(** * The rest of the window: viewport, camera, console

    The handlers below run on the Tk main loop and share [self] with the
    jobs.  The attributes only they use are kept in a second record,
    [Gui], around [App].
    - Screen coordinates, angles and distances are rationals, as mesh
      coordinates are; the literals [0.5] and [0.1] denote one half and
      one tenth.
    - [canvas.draw] and [canvas.draw_idle] change nothing that is
      modelled.
    - The console is the list of the messages passed to [log]; each is
      shown on a line of its own after [> ].
    - A character of a [string] stands for the code point of the same
      number (0 to 255).
    - What Trimesh and Matplotlib decide ([bool(mesh)], [mesh.bounds],
      whether [plot_trisurf] accepts the mesh) are variables.
    - A job is run to its end before the next event is handled, as in the
      job model; the viewport update it schedules is an event of its own.
    - [export_model] and the exporters write files through Trimesh and
      Blender; only the box primitive they build is modelled. *)

(** ** Wireframe of a hitbox *)

Definition segment : Type := (point * point)%type.

(** The array [edges] of [draw_voxel]: the eight corners. *)
Definition voxel_edges (minc maxc : point) : list point :=
  [ (px minc, py minc, pz minc);
    (px maxc, py minc, pz minc);
    (px maxc, py maxc, pz minc);
    (px minc, py maxc, pz minc);
    (px minc, py minc, pz maxc);
    (px maxc, py minc, pz maxc);
    (px maxc, py maxc, pz maxc);
    (px minc, py maxc, pz maxc) ].

(** The index pairs the comprehension of [draw_voxel] runs over. *)
Definition voxel_index_pairs : list (nat * nat) :=
  [ (0, 1); (1, 2); (2, 3); (3, 0);
    (4, 5); (5, 6); (6, 7); (7, 4);
    (0, 4); (1, 5); (2, 6); (3, 7) ]%nat.

(** [segments = [[edges[s], edges[e]] for s, e in ...]]; [None] is an
    [IndexError]. *)
Definition voxel_segments (minc maxc : point) : option (list segment) :=
  mapM (fun se =>
          match nth_error (voxel_edges minc maxc) (fst se),
                nth_error (voxel_edges minc maxc) (snd se) with
          | Some p, Some q => Some (p, q)
          | _, _ => None
          end)
       voxel_index_pairs.

(** [draw_voxel(self, minc, maxc)]: the segments of the
    [Line3DCollection] added to the axes. *)
Definition draw_voxel (minc maxc : point) : option (list segment) :=
  voxel_segments minc maxc.

(** Vocabulary: the corner of the box that takes the max coordinate on the
    axes whose flag is set, and the edge along one axis. *)
Definition corner (minc maxc : point) (bx by_ bz : bool) : point :=
  (if bx then px maxc else px minc,
   if by_ then py maxc else py minc,
   if bz then pz maxc else pz minc).

Inductive axis := X_axis | Y_axis | Z_axis.

(** The edge parallel to [d] whose other two coordinates are chosen by
    [b1] and [b2], from its min end to its max end. *)
Definition box_edge (minc maxc : point) (d : axis) (b1 b2 : bool) : segment :=
  match d with
  | X_axis => (corner minc maxc false b1 b2, corner minc maxc true b1 b2)
  | Y_axis => (corner minc maxc b1 false b2, corner minc maxc b1 true b2)
  | Z_axis => (corner minc maxc b1 b2 false, corner minc maxc b1 b2 true)
  end.

Definition reversed (s : segment) : segment := (snd s, fst s).

(** ** The box primitives handed to the exporters *)

Definition psub (p q : point) : point :=
  (px p - px q, py p - py q, pz p - pz q).
Definition padd (p q : point) : point :=
  (px p + px q, py p + py q, pz p + pz q).
(** [p / 2] *)
Definition phalf (p : point) : point := (px p / 2, py p / 2, pz p / 2).

(** [trimesh.primitives.Box(extents=..)] moved by a translation: a box
    with the given edge lengths whose centre is the translation. *)
Record Box_primitive := { extents : point; translation : point }.

(** The primitive [export_stl], [export_obj], [export_gltf] and
    [export_blend] build for a hitbox:
    [Box(extents=maxc - minc)] translated by [(maxc + minc) / 2]. *)
Definition hitbox_primitive (h : box) : Box_primitive :=
  {| extents := psub (snd h) (fst h);
     translation := phalf (padd (snd h) (fst h)) |}.

(** Min and max corner of a primitive. *)
Definition primitive_bounds (b : Box_primitive) : box :=
  (psub (translation b) (phalf (extents b)),
   padd (translation b) (phalf (extents b))).

Definition nonnegative (p : point) : Prop :=
  0 <= px p /\ 0 <= py p /\ 0 <= pz p.

(** ** [str.strip] and [str.lower] *)

(** [c.isspace()] *)
Definition isspace (c : ascii) : bool :=
  let n := nat_of_ascii c in
  ((9 <=? n) && (n <=? 13) || (28 <=? n) && (n <=? 32)
   || (n =? 133) || (n =? 160))%nat.

(** [c.lower()]: the letters A-Z and the capital letters of Latin-1. *)
Definition lower_char (c : ascii) : ascii :=
  let n := nat_of_ascii c in
  if ((65 <=? n) && (n <=? 90)
      || (192 <=? n) && (n <=? 222) && negb (n =? 215))%nat
  then ascii_of_nat (n + 32)
  else c.

Fixpoint lstrip (t : text) : text :=
  match t with
  | [] => []
  | c :: rest => if isspace c then lstrip rest else t
  end.

Definition strip_text (t : text) : text := rev (lstrip (rev (lstrip t))).

Definition str_strip (s : string) : string :=
  string_of_list_ascii (strip_text (chars s)).
Definition str_lower (s : string) : string :=
  string_of_list_ascii (map lower_char (chars s)).

(** ** The state of the window *)

(** [self.camera_state], a dict with these five keys. *)
Record camera := {
  elev : Q;
  azim : Q;
  distance : Q;
  x_center : Q;
  y_center : Q
}.

(** The dict literal of [__init__] and of [reset_camera]. *)
Definition default_camera : camera :=
  {| elev := 30; azim := 45; distance := 5; x_center := 0; y_center := 0 |}.

(** What [update_camera] sets on the axes: [view_init(elev, azim)],
    [ax.dist], [set_xlim3d] and [set_ylim3d]. *)
Record axes_view := {
  view_elev : Q;
  view_azim : Q;
  view_dist : Q;
  xlim3d : Q * Q;
  ylim3d : Q * Q
}.

(** [self.ax]: the view ([None] while [update_camera] has not run since the
    axes were created or cleared), the surface and the wireframes drawn. *)
Record axes := {
  view : option axes_view;
  surface : option Mesh;
  wireframes : list (list segment)
}.

(** The axes as [add_subplot] creates them and as [ax.clear()] leaves
    them. *)
Definition cleared_axes : axes :=
  {| view := None; surface := None; wireframes := [] |}.

(** [event.button] of a Matplotlib mouse event: a button number, the
    scroll direction, or [None]. *)
Inductive mouse_button :=
| Button_number (n : Z)
| Button_name (s : string)
| Button_none.

Record mouse_event := {
  event_button : mouse_button;
  event_x : Q;
  event_y : Q
}.

(** A line of the console. *)
Inductive line :=
| Line_job (m : message)                (* written by a job *)
| Line_unknown_command (cmd : string)   (* "Unknown command: .." *)
| Line_camera_reset                     (* "Camera reset" *)
| Line_help                             (* the help text *)
| Line_info (n_vertices n_faces n_hitboxes : nat) (bounds : option box)
| Line_no_model                         (* "No model loaded" *)
| Line_export (s : string).             (* written by the export functions *)

Record Gui := {
  core : App;
  camera_state : camera;
  (* [None] while the attribute does not exist *)
  last_mouse_pos : option (Q * Q);
  ax : axes;
  console : list line;
  cmd_entry : string
}.

Definition set_core (a : App) (g : Gui) : Gui :=
  {| core := a; camera_state := camera_state g;
     last_mouse_pos := last_mouse_pos g; ax := ax g; console := console g;
     cmd_entry := cmd_entry g |}.

Definition set_camera_state (c : camera) (g : Gui) : Gui :=
  {| core := core g; camera_state := c;
     last_mouse_pos := last_mouse_pos g; ax := ax g; console := console g;
     cmd_entry := cmd_entry g |}.

Definition set_last_mouse_pos (p : Q * Q) (g : Gui) : Gui :=
  {| core := core g; camera_state := camera_state g;
     last_mouse_pos := Some p; ax := ax g; console := console g;
     cmd_entry := cmd_entry g |}.

Definition set_ax (x : axes) (g : Gui) : Gui :=
  {| core := core g; camera_state := camera_state g;
     last_mouse_pos := last_mouse_pos g; ax := x; console := console g;
     cmd_entry := cmd_entry g |}.

Definition set_console (c : list line) (g : Gui) : Gui :=
  {| core := core g; camera_state := camera_state g;
     last_mouse_pos := last_mouse_pos g; ax := ax g; console := c;
     cmd_entry := cmd_entry g |}.

Definition set_cmd_entry (s : string) (g : Gui) : Gui :=
  {| core := core g; camera_state := camera_state g;
     last_mouse_pos := last_mouse_pos g; ax := ax g; console := console g;
     cmd_entry := s |}.

(** The window when [__init__] returns: [last_mouse_pos] is not assigned
    there. *)
Definition gui_init : Gui :=
  {| core := init; camera_state := default_camera; last_mouse_pos := None;
     ax := cleared_axes; console := []; cmd_entry := "" |}.

(** [log(self, message)] on the console widget. *)
Definition gui_log (l : line) (g : Gui) : Gui :=
  set_console (console g ++ [l]) g.

(** ** Camera *)

(** The view [update_camera] computes from a camera state. *)
Definition view_of (c : camera) : axes_view :=
  {| view_elev := elev c; view_azim := azim c; view_dist := distance c;
     xlim3d := (x_center c - distance c, x_center c + distance c);
     ylim3d := (y_center c - distance c, y_center c + distance c) |}.

(** [update_camera(self)] *)
Definition update_camera (g : Gui) : Gui :=
  set_ax {| view := Some (view_of (camera_state g));
            surface := surface (ax g); wireframes := wireframes (ax g) |} g.

(** [reset_camera(self)] *)
Definition reset_camera (g : Gui) : Gui :=
  gui_log Line_camera_reset (update_camera (set_camera_state default_camera g)).

(** [on_mouse_press(self, event)] *)
Definition on_mouse_press (e : mouse_event) (g : Gui) : Gui :=
  set_last_mouse_pos (event_x e, event_y e) g.

Definition is_button_1 (b : mouse_button) : bool :=
  match b with
  | Button_number n => Z.eqb n 1
  | _ => false
  end.

(** [on_mouse_move(self, event)]; [None] is the [AttributeError] of
    reading [self.last_mouse_pos] before any press assigned it. *)
Definition on_mouse_move (e : mouse_event) (g : Gui) : option Gui :=
  if is_button_1 (event_button e) then
    match last_mouse_pos g with
    | None => None
    | Some last =>
        let dx := event_x e - fst last in
        let dy := event_y e - snd last in
        let c := camera_state g in
        let c1 := {| elev := elev c; azim := azim c - dx * 0.5;
                     distance := distance c; x_center := x_center c;
                     y_center := y_center c |} in
        let c2 := {| elev := elev c1 + dy * 0.5; azim := azim c1;
                     distance := distance c1; x_center := x_center c1;
                     y_center := y_center c1 |} in
        Some (set_last_mouse_pos (event_x e, event_y e)
                (update_camera (set_camera_state c2 g)))
    end
  else Some g.

(** Python's [max(a, b)]: [b] when it is greater, else [a]. *)
Definition py_max (a b : Q) : Q := if Qltb a b then b else a.

Definition is_up (b : mouse_button) : bool :=
  match b with
  | Button_name s => String.eqb s "up"
  | _ => false
  end.

(** [on_scroll(self, event)] *)
Definition on_scroll (e : mouse_event) (g : Gui) : Gui :=
  let zoom_factor := if is_up (event_button e) then 0.1 else - 0.1 in
  let c := camera_state g in
  update_camera
    (set_camera_state
       {| elev := elev c; azim := azim c;
          distance := py_max 0.5 (distance c - zoom_factor);
          x_center := x_center c; y_center := y_center c |} g).

(** [move_camera(self, direction)] *)
Definition move_camera (direction : string) (g : Gui) : Gui :=
  let c := camera_state g in
  let move_speed := 0.1 * distance c in
  let c' :=
    if String.eqb direction "left" then
      {| elev := elev c; azim := azim c; distance := distance c;
         x_center := x_center c + move_speed; y_center := y_center c |}
    else if String.eqb direction "right" then
      {| elev := elev c; azim := azim c; distance := distance c;
         x_center := x_center c - move_speed; y_center := y_center c |}
    else if String.eqb direction "up" then
      {| elev := elev c; azim := azim c; distance := distance c;
         x_center := x_center c; y_center := y_center c - move_speed |}
    else if String.eqb direction "down" then
      {| elev := elev c; azim := azim c; distance := distance c;
         x_center := x_center c; y_center := y_center c + move_speed |}
    else c in
  update_camera (set_camera_state c' g).

(** ** Console commands and the viewport *)

(** [clear_console(self)] *)
Definition clear_console (g : Gui) : Gui := set_console [] g.

(** [show_help(self)] *)
Definition show_help (g : Gui) : Gui := gui_log Line_help g.

Section Window.

Variable kmeans_fit : nat -> nat -> list point -> option (list point).
Variable trimesh_load : string -> option Mesh.
(** [bool(mesh)] for a loaded mesh, [mesh.bounds], and whether
    [ax.plot_trisurf] accepts the mesh. *)
Variable mesh_truthy : Mesh -> bool.
Variable trimesh_bounds : Mesh -> option box.
Variable plot_trisurf_ok : Mesh -> bool.

(** The test [if self.mesh:] *)
Definition mesh_is_true (g : Gui) : option Mesh :=
  match mesh (core g) with
  | Some m => if mesh_truthy m then Some m else None
  | None => None
  end.

(** [show_info(self)] *)
Definition show_info (g : Gui) : Gui :=
  match mesh_is_true g with
  | Some m =>
      gui_log (Line_info (List.length (vertices m)) (List.length (faces m))
                 (List.length (current_hitboxes (core g)))
                 (trimesh_bounds m)) g
  | None => gui_log Line_no_model g
  end.

(** The dict [commands] of [process_command]. *)
Definition commands : list (string * (Gui -> Gui)) :=
  [ ("clear", clear_console); ("reset", reset_camera);
    ("help", show_help); ("info", show_info) ]%string.

(** [process_command(self, event)] *)
Definition process_command (g : Gui) : Gui :=
  let cmd := str_lower (str_strip (cmd_entry g)) in
  let g1 := set_cmd_entry "" g in
  match dict_get commands cmd with
  | Some command => command g1
  | None => gui_log (Line_unknown_command cmd) g1
  end.

(** [update_viewport(self)].  When [plot_trisurf] raises, the axes stay
    cleared and the rest of the method does not run. *)
Definition update_viewport (g : Gui) : Gui :=
  let g1 := set_ax cleared_axes g in
  match mesh_is_true g with
  | Some m =>
      if plot_trisurf_ok m then
        match mapM (fun h => draw_voxel (fst h) (snd h))
                   (current_hitboxes (core g)) with
        | Some ws =>
            update_camera
              (set_ax {| view := None; surface := Some m; wireframes := ws |}
                 g1)
        | None => g1
        end
      else g1
  | None => update_camera g1
  end.

(** ** Events of the window *)

Inductive arrow_key := Key_left | Key_right | Key_up | Key_down.

(** The bindings of [setup_bindings]. *)
Definition key_direction (k : arrow_key) : string :=
  match k with
  | Key_left => "left"
  | Key_right => "right"
  | Key_up => "up"
  | Key_down => "down"
  end.

(** Console lines a job wrote, read off its events. *)
Fixpoint job_lines (es : list event) : list line :=
  match es with
  | [] => []
  | Log m :: rest => Line_job m :: job_lines rest
  | _ :: rest => job_lines rest
  end.

(** A job started from one of the buttons, run to its end: the job state
    changes as in the job model and the lines the job logged reach the
    console. *)
Definition run_job (e : ui_event) (g : Gui) : Gui :=
  let f := fun a => ui_step kmeans_fit trimesh_load a e in
  set_console (console g ++ job_lines (run_trace f (core g)))
    (set_core (f (core g)) g).

(** [load_model(self)]; [chosen] is what the file dialog returned, the
    empty string when it was dismissed. *)
Definition load_model (chosen : string) (cancels : nat -> nat) (g : Gui)
  : Gui :=
  if String.eqb chosen "" then g
  else run_job (Click_load chosen cancels) g.

(** What the main loop delivers.  [Precision_chosen] is an entry of the
    menu of [show_precision_menu]; without a mesh the menu is not shown
    and nothing happens, as in [set_precision].  A viewport update a job
    scheduled with [master.after(0, ..)] runs at some later point of the
    main loop; it is an event of its own. *)
Inductive gui_event :=
| Model_chosen (chosen : string) (cancels : nat -> nat)
| Precision_chosen (level : string) (cancels : nat -> nat)
| Cancel_clicked
| Viewport_update
| Button_press (e : mouse_event)
| Motion (e : mouse_event)
| Scroll (e : mouse_event)
| Key (k : arrow_key)
| Return_key (typed : string).   (* Return in the entry holding [typed] *)

(** The bindings of [setup_ui] and [setup_bindings].  A handler that
    raises leaves the state as it was; the toolkit reports the
    exception. *)
Definition gui_step (g : Gui) (e : gui_event) : Gui :=
  match e with
  | Model_chosen chosen cancels => load_model chosen cancels g
  | Precision_chosen level cancels => run_job (Select_precision level cancels) g
  | Cancel_clicked => run_job Click_cancel g
  | Viewport_update => update_viewport g
  | Button_press e => on_mouse_press e g
  | Motion e =>
      match on_mouse_move e g with
      | Some g' => g'
      | None => g
      end
  | Scroll e => on_scroll e g
  | Key k => move_camera (key_direction k) g
  | Return_key typed => process_command (set_cmd_entry typed g)
  end.

Definition gui_run (es : list gui_event) : Gui :=
  fold_left gui_step es gui_init.

End Window.

(** Two camera states with equal entries (equal as rationals). *)
Definition same_camera (c c' : camera) : Prop :=
  elev c == elev c' /\ azim c == azim c' /\ distance c == distance c' /\
  x_center c == x_center c' /\ y_center c == y_center c'.

(** The camera invariant: the distance never falls below the floor of
    [on_scroll], and a view set on the axes is the one of the camera
    state. *)
Definition camera_inv (g : Gui) : Prop :=
  0.5 <= distance (camera_state g) /\
  forall v, view (ax g) = Some v -> v = view_of (camera_state g).

(** The jobs among the events of the window. *)
Fixpoint jobs_of (es : list gui_event) : list ui_event :=
  match es with
  | [] => []
  | Model_chosen chosen cancels :: rest =>
      if String.eqb chosen "" then jobs_of rest
      else Click_load chosen cancels :: jobs_of rest
  | Precision_chosen level cancels :: rest =>
      Select_precision level cancels :: jobs_of rest
  | Cancel_clicked :: rest => Click_cancel :: jobs_of rest
  | _ :: rest => jobs_of rest
  end.

(** Whether a button press is among the events. *)
Definition is_press (e : gui_event) : bool :=
  match e with
  | Button_press _ => true
  | _ => false
  end.

Definition pressed (es : list gui_event) : bool := existsb is_press es.

(** A drag: the motion events, button 1 held, through the given screen
    positions.  [None] when a motion handler raised. *)
Fixpoint drag (positions : list (Q * Q)) (g : Gui) : option Gui :=
  match positions with
  | [] => Some g
  | p :: rest =>
      match on_mouse_move {| event_button := Button_number 1;
                             event_x := fst p; event_y := snd p |} g with
      | Some g' => drag rest g'
      | None => None
      end
  end.

(** ** A loader for the examples: two files *)

Definition load_by_name (path : string) : option Mesh :=
  if String.eqb path "seam.obj" then Some seam else Some triangle.

Definition accepts_all (_ : Mesh) : bool := true.
Definition no_bounds (_ : Mesh) : option box := None.

Definition scroll_event (direction : string) : mouse_event :=
  {| event_button := Button_name direction; event_x := 0; event_y := 0 |}.
(** * Proofs *)

(** ** The Cancel button and the flag *)



Lemma checkpoint_flags_app (e1 e2 : list event) :
  checkpoint_flags (e1 ++ e2) = checkpoint_flags e1 ++ checkpoint_flags e2.
Proof.
  induction e1 as [|e e1 IH]; simpl; [reflexivity|].
  destruct e; simpl; rewrite IH; reflexivity.
Qed.

Lemma progress_values_app (e1 e2 : list event) :
  progress_values (e1 ++ e2) = progress_values e1 ++ progress_values e2.
Proof.
  induction e1 as [|e e1 IH]; simpl; [reflexivity|].
  destruct e; simpl; rewrite IH; reflexivity.
Qed.

Lemma library_calls_app (e1 e2 : list event) :
  library_calls (e1 ++ e2) = library_calls e1 ++ library_calls e2.
Proof.
  induction e1 as [|e e1 IH]; simpl; [reflexivity|].
  destruct e; simpl; rewrite IH; reflexivity.
Qed.

Lemma init_inert : inert init.
Proof. split; reflexivity. Qed.

Lemma click_cancel_inert (a : App) :
  cancel_btn_command a = Some (PyBool false) -> click_cancel a = a.
Proof. unfold click_cancel. intros ->. reflexivity. Qed.

Lemma iter_click_cancel_inert (n : nat) (a : App) :
  cancel_btn_command a = Some (PyBool false) ->
  Nat.iter n click_cancel a = a.
Proof.
  intros H. induction n as [|n IH]; simpl; [reflexivity|].
  rewrite IH. apply click_cancel_inert, H.
Qed.


Lemma keeps_bind {A B} (P : App -> Prop) (m : M A) (k : A -> M B) :
  keeps P m -> (forall x, keeps P (k x)) -> keeps P (bind m k).
Proof.
  intros Hm Hk a Ha. unfold bind.
  specialize (Hm a Ha). destruct (m a) as [[x| |e] a']; simpl in *; auto.
  apply Hk, Hm.
Qed.

Lemma keeps_do (P : App -> Prop) (f : App -> App) :
  (forall a, P a -> P (f a)) -> keeps P (do_ f).
Proof. intros H a Ha. simpl. auto. Qed.

Lemma keeps_or_raise {A} (P : App -> Prop) (e : exn) (o : option A) :
  keeps P (or_raise e o).
Proof. intros a Ha. destruct o; simpl; exact Ha. Qed.

Lemma keeps_ret {A} (P : App -> Prop) (x : A) : keeps P (ret x).
Proof. intros a Ha. exact Ha. Qed.

Lemma keeps_get {A} (P : App -> Prop) (f : App -> A) : keeps P (read_attr f).
Proof. intros a Ha. exact Ha. Qed.

Lemma keeps_return {A} (P : App -> Prop) : keeps P (@return_ A).
Proof. intros a Ha. exact Ha. Qed.

Lemma keeps_try (P : App -> Prop) (body : M unit) handler final :
  keeps P body -> (forall e a, P a -> P (handler e a)) ->
  (forall a, P a -> P (final a)) ->
  forall a, P a -> P (try_except_finally body handler final a).
Proof.
  intros Hb Hh Hf a Ha. unfold try_except_finally.
  specialize (Hb a Ha). destruct (body a) as [[x| |e] a']; simpl in *; auto.
Qed.



Lemma flags_false_emit (e : event) (a : App) :
  e <> Checkpoint true -> flags_false a -> flags_false (emit e a).
Proof.
  unfold flags_false. intros He H. simpl. rewrite checkpoint_flags_app.
  apply Forall_app. split; [exact H|].
  destruct e as [| | | | |[|]]; simpl; auto. congruence.
Qed.

Lemma flag_inv_emit (e : event) (a : App) :
  e <> Checkpoint true -> flag_inv a -> flag_inv (emit e a).
Proof.
  intros He [[H1 H2] H3]. split; [split; assumption|].
  apply flags_false_emit; assumption.
Qed.

Lemma flag_inv_update_progress (v : Z) (a : App) :
  flag_inv a -> flag_inv (update_progress v a).
Proof.
  intros [[H1 H2] H3]. unfold update_progress.
  apply flag_inv_emit; [discriminate|]. split; [split|]; assumption.
Qed.

Lemma flag_inv_log (m : message) (a : App) : flag_inv a -> flag_inv (log m a).
Proof. apply flag_inv_emit. discriminate. Qed.

Lemma flag_inv_set_progress_running (b : bool) (a : App) :
  flag_inv a -> flag_inv (set_progress_running b a).
Proof. intros [[H1 H2] H3]. split; [split|]; assumption. Qed.

Lemma flag_inv_set_current_hitboxes (h : list box) (a : App) :
  flag_inv a -> flag_inv (set_current_hitboxes h a).
Proof. intros [[H1 H2] H3]. split; [split|]; assumption. Qed.

Lemma flag_inv_set_mesh (m : option Mesh) (a : App) :
  flag_inv a -> flag_inv (set_mesh m a).
Proof. intros [[H1 H2] H3]. split; [split|]; assumption. Qed.

Lemma flag_inv_set_cancel_processing (a : App) :
  flag_inv a -> flag_inv (set_cancel_processing false a).
Proof. intros [[H1 H2] H3]. split; [split|]; simpl; auto. Qed.

Lemma flag_inv_final (a : App) : flag_inv a -> flag_inv (finally_reset a).
Proof.
  intros H. apply flag_inv_update_progress, flag_inv_set_progress_running, H.
Qed.

Lemma keeps_emit (e : event) :
  e <> Checkpoint true -> keeps flag_inv (do_ (emit e)).
Proof. intros He. apply keeps_do. intros a. apply flag_inv_emit, He. Qed.

Create HintDb flag.
#[local] Hint Resolve keeps_do keeps_or_raise keeps_ret keeps_get keeps_return
  flag_inv_emit flag_inv_update_progress flag_inv_log
  flag_inv_set_progress_running flag_inv_set_current_hitboxes
  flag_inv_set_mesh flag_inv_set_cancel_processing flag_inv_final : flag.

Section FlagInvariant.
Variable kmeans_fit : nat -> nat -> list point -> option (list point).
Variable trimesh_load : string -> option Mesh.

Lemma checkpoint_keeps (cancels : nat -> nat) (i : nat) :
  keeps flag_inv (checkpoint cancels i).
Proof.
  intros a [[H1 H2] H3]. unfold checkpoint.
  rewrite (iter_click_cancel_inert _ _ H1).
  unfold getattr_cancel_processing. rewrite H2. simpl.
  split; [split; assumption|].
  apply flags_false_emit; [discriminate | exact H3].
Qed.

Lemma refinement_round_keeps cancels vs i cs :
  keeps flag_inv (refinement_round cancels vs i cs).
Proof.
  unfold refinement_round.
  repeat (apply keeps_bind; [|intros ?]); auto with flag.
  - apply checkpoint_keeps.
  - apply keeps_emit. discriminate.
  - apply keeps_emit. discriminate.
Qed.

Lemma for_rounds_keeps cancels vs range :
  forall cs, keeps flag_inv (for_rounds cancels vs range cs).
Proof.
  induction range as [|i range IH]; intros cs; simpl.
  - apply keeps_ret.
  - apply keeps_bind; [apply refinement_round_keeps | intros; apply IH].
Qed.

Lemma generate_hitboxes_flag_inv cancels level (a : App) :
  flag_inv a -> flag_inv (generate_hitboxes kmeans_fit cancels level a).
Proof.
  unfold generate_hitboxes. apply keeps_try; auto with flag.
  unfold generate_hitboxes_body.
  repeat (apply keeps_bind; [|intros ?]); auto with flag.
  destruct (String.eqb level "super low").
  - repeat (apply keeps_bind; [|intros ?]); auto with flag.
  - repeat (apply keeps_bind; [|intros ?]); auto with flag;
      try (apply keeps_emit; discriminate); apply checkpoint_keeps.
Qed.

Lemma process_model_flag_inv cancels path (a : App) :
  flag_inv a ->
  flag_inv (process_model kmeans_fit trimesh_load cancels path a).
Proof.
  unfold process_model. apply keeps_try; auto with flag.
  unfold process_model_body.
  repeat (apply keeps_bind; [|intros ?]); auto with flag.
  - apply keeps_do. apply generate_hitboxes_flag_inv.
  - apply keeps_emit. discriminate.
Qed.

Lemma ui_step_flag_inv (a : App) (e : ui_event) :
  flag_inv a -> flag_inv (ui_step kmeans_fit trimesh_load a e).
Proof.
  intros H. destruct e as [|path cancels|level cancels]; simpl.
  - rewrite click_cancel_inert; [exact H | apply H].
  - apply process_model_flag_inv, H.
  - unfold set_precision. destruct (mesh a); [|exact H].
    apply generate_hitboxes_flag_inv, H.
Qed.

Lemma run_ui_flag_inv (es : list ui_event) :
  flag_inv (run_ui kmeans_fit trimesh_load es).
Proof.
  unfold run_ui.
  assert (G : forall a, flag_inv a ->
            flag_inv (fold_left (ui_step kmeans_fit trimesh_load) es a)).
  { induction es as [|e es IH]; intros a Ha; simpl; [exact Ha|].
    apply IH, ui_step_flag_inv, Ha. }
  apply G. split; [apply init_inert | constructor].
Qed.

Lemma reachable_inert (a : App) :
  reachable kmeans_fit trimesh_load a -> inert a.
Proof. intros [es ->]. apply run_ui_flag_inv. Qed.

(** C4.  In every reachable state the name [cancel_processing] on the
    instance is the bool [False] that [__init__] stored (it shadows the
    method of the class), the Cancel button's command is that bool and not
    a callable, a click on Cancel changes nothing, and every flag value
    read at a refinement-round checkpoint, in any job run so far and
    whatever was clicked meanwhile, was [False]. *)
Theorem cancel_flag_never_set (es : list ui_event) :
  let a := run_ui kmeans_fit trimesh_load es in
  getattr_cancel_processing a = PyBool false /\
  (exists command, cancel_btn_command a = Some command /\
                   command = PyBool false /\ callable command = false) /\
  click_cancel a = a /\
  Forall (fun flag => flag = false) (checkpoint_flags (events a)).
Proof.
  intros a. destruct (run_ui_flag_inv es) as [[H1 H2] H3]. fold a in H1, H2, H3.
  unfold getattr_cancel_processing. rewrite H2.
  split; [reflexivity|]. split; [exists (PyBool false); auto|].
  split; [apply click_cancel_inert, H1 | exact H3].
Qed.

End FlagInvariant.

(** The shadowing is what disarms the button: had [setup_ui] run before
    the attribute was assigned, the name would have denoted the method, the
    command would be callable and a click would set the flag. *)
Lemma unshadowed_button_cancels :
  let a := setup_ui before_init in
  cancel_btn_command a = Some PyBoundMethod_cancel_processing /\
  getattr_cancel_processing (click_cancel a) = PyBool true.
Proof. split; reflexivity. Qed.

(** ** First minimum, nearest vertex, nearest centre *)

Lemma Qltb_lt (x y : Q) : Qltb x y = true <-> x < y.
Proof.
  unfold Qltb. rewrite Qlt_alt. destruct (x ?= y); split; congruence.
Qed.

Lemma Qltb_ge (x y : Q) : Qltb x y = false <-> y <= x.
Proof.
  split; intros H.
  - apply Qnot_lt_le. intros L. apply Qltb_lt in L. congruence.
  - destruct (Qltb x y) eqn:E; [|reflexivity].
    apply Qltb_lt in E. exfalso. exact (Qle_not_lt _ _ H E).
Qed.

Lemma argmin_from_spec (ds : list Q) :
  forall (pre : list Q) (best : Q) (besti : nat),
    nth_error pre besti = Some best ->
    (forall j e, nth_error pre j = Some e -> best <= e) ->
    (forall j e, (j < besti)%nat -> nth_error pre j = Some e -> best < e) ->
    first_min (pre ++ ds) (argmin_from best besti (List.length pre) ds).
Proof.
  induction ds as [|d rest IH]; intros pre best besti Hn Hle Hlt.
  - simpl. rewrite app_nil_r. exists best. auto.
  - simpl. assert (Hb : (besti < List.length pre)%nat).
    { apply nth_error_Some. congruence. }
    replace (pre ++ d :: rest) with ((pre ++ [d]) ++ rest)
      by (rewrite <- app_assoc; reflexivity).
    replace (S (List.length pre)) with (List.length (pre ++ [d]))
      by (rewrite length_app; simpl; lia).
    destruct (Qltb d best) eqn:E.
    + apply Qltb_lt in E. apply IH.
      * rewrite nth_error_app2 by lia. rewrite Nat.sub_diag. reflexivity.
      * intros j e He.
        destruct (Nat.lt_ge_cases j (List.length pre)) as [L|L].
        -- rewrite nth_error_app1 in He by exact L.
           apply Qlt_le_weak. eapply Qlt_le_trans; [exact E|]. eauto.
        -- rewrite nth_error_app2 in He by exact L.
           destruct (j - List.length pre)%nat as [|[|x]]; simpl in He;
             try discriminate. injection He as <-. apply Qle_refl.
      * intros j e L He. rewrite nth_error_app1 in He by exact L.
        eapply Qlt_le_trans; [exact E|]. eauto.
    + apply Qltb_ge in E. apply IH.
      * rewrite nth_error_app1 by exact Hb. exact Hn.
      * intros j e He.
        destruct (Nat.lt_ge_cases j (List.length pre)) as [L|L].
        -- rewrite nth_error_app1 in He by exact L. eauto.
        -- rewrite nth_error_app2 in He by exact L.
           destruct (j - List.length pre)%nat as [|[|x]]; simpl in He;
             try discriminate. injection He as <-. exact E.
      * intros j e L He. rewrite nth_error_app1 in He by lia. eauto.
Qed.

Arguments argmin_from_spec : clear implicits.

Lemma argmin_spec (ds : list Q) (i : nat) :
  argmin ds = Some i -> first_min ds i.
Proof.
  destruct ds as [|d rest]; [discriminate|]. simpl. intros [= <-].
  apply (argmin_from_spec rest [d] d 0%nat).
  - reflexivity.
  - intros [|[|j]] e He; simpl in He; try discriminate.
    injection He as <-. apply Qle_refl.
  - intros j e L. lia.
Qed.

Lemma argmin_some (ds : list Q) : ds <> [] -> exists i, argmin ds = Some i.
Proof. destruct ds; [congruence|]. intros _. eexists. reflexivity. Qed.

Lemma first_min_lt (ds : list Q) (i : nat) :
  first_min ds i -> (i < List.length ds)%nat.
Proof. intros [d [H _]]. apply nth_error_Some. congruence. Qed.

Lemma first_min_unique (ds : list Q) (i j : nat) :
  first_min ds i -> first_min ds j -> i = j.
Proof.
  intros [d [Hd [Hle Hlt]]] [e [He [Hle' Hlt']]].
  destruct (Nat.lt_trichotomy i j) as [L|[L|L]]; [|exact L|].
  - exfalso. pose proof (Hlt' _ _ L Hd). pose proof (Hle _ _ He).
    exact (Qle_not_lt _ _ H0 H).
  - exfalso. pose proof (Hlt _ _ L He). pose proof (Hle' _ _ Hd).
    exact (Qle_not_lt _ _ H0 H).
Qed.

Lemma argmin_first_min (ds : list Q) (i : nat) :
  first_min ds i -> argmin ds = Some i.
Proof.
  intros H. destruct (argmin_some (ds := ds)) as [j Hj].
  - intros ->. destruct H as [d [Hd _]]. destruct i; discriminate.
  - rewrite Hj. f_equal. apply (first_min_unique (argmin_spec _ Hj) H).
Qed.

(** *** [mapM] *)

Lemma mapM_Forall2 {A B} (f : A -> option B) (l : list A) (ys : list B) :
  mapM f l = Some ys <-> Forall2 (fun x y => f x = Some y) l ys.
Proof.
  revert ys. induction l as [|x l IH]; intros ys; simpl.
  - split; [intros [= <-]; constructor | intros H; inversion H; reflexivity].
  - split.
    + destruct (f x) as [y|] eqn:E; [|discriminate].
      destruct (mapM f l) as [ys'|]; [|discriminate].
      intros [= <-]. constructor; [exact E | apply IH; reflexivity].
    + intros H. inversion H as [|? y ? ys' Hy Hys]; subst.
      rewrite Hy. apply IH in Hys. rewrite Hys. reflexivity.
Qed.

Lemma mapM_total {A B} (f : A -> option B) (l : list A) :
  (forall x, In x l -> exists y, f x = Some y) ->
  exists ys, mapM f l = Some ys.
Proof.
  induction l as [|x l IH]; intros H; simpl.
  - eexists; reflexivity.
  - destruct (H x (or_introl eq_refl)) as [y ->].
    destruct IH as [ys ->]; [intros; apply H; right; assumption|].
    eexists; reflexivity.
Qed.

Lemma mapM_none {A B} (f : A -> option B) (l : list A) (x : A) :
  In x l -> f x = None -> mapM f l = None.
Proof.
  induction l as [|y l IH]; intros Hin Hx; [destruct Hin|].
  simpl. destruct Hin as [->|Hin].
  - rewrite Hx. reflexivity.
  - rewrite (IH Hin Hx). destruct (f y); reflexivity.
Qed.

Lemma mapM_length {A B} (f : A -> option B) (l : list A) (ys : list B) :
  mapM f l = Some ys -> List.length ys = List.length l.
Proof.
  intros H. apply mapM_Forall2 in H. symmetry.
  induction H; simpl; congruence.
Qed.

(** *** Nearest vertex and nearest centre *)

Lemma nearest_some (Y : list point) (x : point) :
  Y <> [] -> exists i, nearest Y x = Some i.
Proof.
  intros H. apply argmin_some. destruct Y; [congruence|discriminate].
Qed.

Lemma nearest_lt (Y : list point) (x : point) (i : nat) :
  nearest Y x = Some i -> (i < List.length Y)%nat.
Proof.
  intros H. apply argmin_spec, first_min_lt in H.
  rewrite length_map in H. exact H.
Qed.

(** One snap round succeeds on a non-empty mesh and non-empty centres, and
    every new centre is the nearest real vertex of the old one. *)
Lemma snap_Forall2 (vs cs c' : list point) :
  snap vs cs = Some c' -> Forall2 (snapped vs) cs c'.
Proof.
  unfold snap, pairwise_distances_argmin, take_rows.
  destruct cs as [|c0 cs0]; [discriminate|]. remember (c0 :: cs0) as cs.
  clear Heqcs c0 cs0.
  destruct (mapM (nearest vs) cs) as [closest|] eqn:E; [|discriminate].
  intros H. apply mapM_Forall2 in E. apply mapM_Forall2 in H.
  revert c' H. induction E as [|c i cs closest Hi _ IH]; intros c' H.
  - inversion H. constructor.
  - inversion H as [|? v ? c'' Hv Hrest]; subst. constructor.
    + exists i. split; [exact Hv | apply argmin_spec, Hi].
    + apply IH, Hrest.
Qed.

Lemma snap_some (vs cs : list point) :
  vs <> [] -> cs <> [] -> exists c', snap vs cs = Some c'.
Proof.
  intros Hv Hc. unfold snap, pairwise_distances_argmin, take_rows.
  destruct cs as [|c0 cs0]; [congruence|]. remember (c0 :: cs0) as cs.
  clear Heqcs c0 cs0 Hc.
  destruct (mapM_total (nearest vs) cs) as [closest E].
  { intros x _. apply nearest_some, Hv. }
  rewrite E. apply mapM_total. intros i Hi.
  apply mapM_Forall2 in E.
  assert (L : (i < List.length vs)%nat).
  { clear Hv. induction E as [|c j cs closest Hj _ IH]; [destruct Hi|].
    destruct Hi as [->|Hi]; [eapply nearest_lt, Hj | apply IH, Hi]. }
  destruct (nth_error vs i) eqn:N; [eexists; reflexivity|].
  apply nth_error_None in N. lia.
Qed.

Lemma Forall2_length_eq {A B} (R : A -> B -> Prop) l l' :
  Forall2 R l l' -> List.length l = List.length l'.
Proof. induction 1; simpl; congruence. Qed.

Lemma snap_length (vs cs c' : list point) :
  snap vs cs = Some c' -> List.length c' = List.length cs.
Proof.
  intros H. symmetry. eapply Forall2_length_eq, snap_Forall2, H.
Qed.

Lemma refine3_some (vs cs : list point) :
  vs <> [] -> cs <> [] ->
  exists c1 c2 c3,
    snap vs cs = Some c1 /\ snap vs c1 = Some c2 /\ snap vs c2 = Some c3 /\
    refine3 vs cs = Some c3 /\ List.length c3 = List.length cs.
Proof.
  intros Hv Hc.
  assert (N : forall l l' : list point,
            l <> [] -> List.length l' = List.length l -> l' <> []).
  { intros l l' Hl E ->. destruct l; [congruence|discriminate]. }
  destruct (snap_some Hv Hc) as [c1 E1].
  pose proof (snap_length _ _ E1) as L1.
  destruct (snap_some Hv (N _ _ Hc L1)) as [c2 E2].
  pose proof (snap_length _ _ E2) as L2.
  destruct (snap_some Hv (N _ _ (N _ _ Hc L1) L2)) as [c3 E3].
  pose proof (snap_length _ _ E3) as L3.
  exists c1, c2, c3. unfold refine3. rewrite E1, E2.
  repeat split; try assumption. congruence.
Qed.

(** The final assignment exists and labels every vertex with the index of
    its nearest centre. *)
Lemma predict_Forall2 (cs vs : list point) (labels : list nat) :
  predict cs vs = Some labels -> Forall2 (assigned cs) vs labels.
Proof.
  unfold predict. destruct vs as [|v0 vs0]; [discriminate|].
  remember (v0 :: vs0) as vs. clear Heqvs v0 vs0.
  intros H. apply mapM_Forall2 in H.
  induction H as [|v l vs labels Hl _ IH]; constructor; [|exact IH].
  apply argmin_spec, Hl.
Qed.

Lemma predict_some (cs vs : list point) :
  vs <> [] -> cs <> [] -> exists labels, predict cs vs = Some labels.
Proof.
  intros Hv Hc. unfold predict. destruct vs as [|v0 vs0]; [congruence|].
  apply mapM_total. intros x _. apply nearest_some, Hc.
Qed.

Lemma predict_labels (cs vs : list point) (labels : list nat) :
  predict cs vs = Some labels ->
  List.length labels = List.length vs /\
  Forall (fun l => (l < List.length cs)%nat) labels.
Proof.
  intros H. apply predict_Forall2 in H. split.
  - symmetry. eapply Forall2_length_eq, H.
  - induction H as [|v l vs labels Hl _ IH]; constructor; [|exact IH].
    apply first_min_lt in Hl. rewrite length_map in Hl. exact Hl.
Qed.

(** ** Bounding boxes *)

Lemma Qmin_choice (x y : Q) : Qmin x y = x \/ Qmin x y = y.
Proof.
  unfold Qmin, GenericMinMax.gmin. destruct (x ?= y); auto.
Qed.

Lemma Qmax_choice (x y : Q) : Qmax x y = x \/ Qmax x y = y.
Proof.
  unfold Qmax, GenericMinMax.gmax. destruct (x ?= y); auto.
Qed.

Lemma fold_pmin_least (f : point -> Q) :
  (forall p q, f (pmin p q) = Qmin (f p) (f q)) ->
  forall rest p, least_of f (p :: rest) (f (fold_left pmin rest p)).
Proof.
  intros Hf. induction rest as [|v rest IH]; intros p; simpl.
  - split; [left; reflexivity|]. intros u [<-|[]]. apply Qle_refl.
  - destruct (IH (pmin p v)) as [Hin Hle]. split.
    + simpl in Hin. destruct Hin as [E|Hin]; [|right; right; exact Hin].
      rewrite Hf in E. simpl.
      destruct (Qmin_choice (f p) (f v)) as [C|C]; rewrite C in E; auto.
    + assert (B : f (fold_left pmin rest (pmin p v)) <= Qmin (f p) (f v)).
      { rewrite <- Hf. apply Hle. left. reflexivity. }
      intros u [<-|[<-|Hu]].
      * eapply Qle_trans; [exact B | apply Q.le_min_l].
      * eapply Qle_trans; [exact B | apply Q.le_min_r].
      * apply Hle. right. exact Hu.
Qed.

Lemma fold_pmax_greatest (f : point -> Q) :
  (forall p q, f (pmax p q) = Qmax (f p) (f q)) ->
  forall rest p, greatest_of f (p :: rest) (f (fold_left pmax rest p)).
Proof.
  intros Hf. induction rest as [|v rest IH]; intros p; simpl.
  - split; [left; reflexivity|]. intros u [<-|[]]. apply Qle_refl.
  - destruct (IH (pmax p v)) as [Hin Hle]. split.
    + simpl in Hin. destruct Hin as [E|Hin]; [|right; right; exact Hin].
      rewrite Hf in E. simpl.
      destruct (Qmax_choice (f p) (f v)) as [C|C]; rewrite C in E; auto.
    + assert (B : Qmax (f p) (f v) <= f (fold_left pmax rest (pmax p v))).
      { rewrite <- Hf. apply Hle. left. reflexivity. }
      intros u [<-|[<-|Hu]].
      * eapply Qle_trans; [apply Q.le_max_l | exact B].
      * eapply Qle_trans; [apply Q.le_max_r | exact B].
      * apply Hle. right. exact Hu.
Qed.

Lemma get_bounding_box_bounds (vs : list point) :
  vs <> [] ->
  exists b, get_bounding_box vs = Some b /\ mesh_bounds vs b.
Proof.
  destruct vs as [|p rest]; [congruence|]. intros _.
  eexists. split; [reflexivity|]. unfold mesh_bounds. simpl fst. simpl snd.
  repeat split;
    first [ apply (fold_pmin_least px) | apply (fold_pmin_least py)
          | apply (fold_pmin_least pz) | apply (fold_pmax_greatest px)
          | apply (fold_pmax_greatest py) | apply (fold_pmax_greatest pz) ];
    reflexivity.
Qed.

Lemma get_bounding_box_single (v : point) :
  get_bounding_box [v] = Some (v, v).
Proof. reflexivity. Qed.

Lemma get_bounding_box_nil : get_bounding_box [] = None.
Proof. reflexivity. Qed.

(** ** Cluster membership *)

Lemma in_cluster_indices (labels : list nat) (i j : nat) :
  In j (cluster_indices labels i) <-> nth_error labels j = Some i.
Proof.
  unfold cluster_indices. rewrite filter_In, in_seq. split.
  - intros [_ H]. destruct (nth_error labels j) as [l|]; [|discriminate].
    apply Nat.eqb_eq in H. congruence.
  - intros H. split.
    + split; [lia|]. simpl. apply nth_error_Some. congruence.
    + rewrite H. apply Nat.eqb_refl.
Qed.

Lemma labels_partition (n k : nat) (labels : list nat) :
  List.length labels = n ->
  Forall (fun l => (l < k)%nat) labels ->
  is_partition n k labels.
Proof.
  intros Hn Hk. split.
  - intros i j H. apply in_cluster_indices in H.
    rewrite <- Hn. apply nth_error_Some. congruence.
  - intros j Hj. destruct (nth_error labels j) as [l|] eqn:E.
    + exists l. split; [|split].
      * rewrite Forall_forall in Hk. apply Hk. eapply nth_error_In, E.
      * apply in_cluster_indices, E.
      * intros i' H. apply in_cluster_indices in H. congruence.
    + apply nth_error_None in E. lia.
Qed.

Lemma filter_map_comm {A B} (P : B -> bool) (g : A -> B) (l : list A) :
  filter P (map g l) = map g (filter (fun x => P (g x)) l).
Proof.
  induction l as [|x l IH]; simpl; [reflexivity|].
  rewrite IH. destruct (P (g x)); reflexivity.
Qed.

Lemma mapM_map {A B C} (f : B -> option C) (g : A -> B) (l : list A) :
  mapM f (map g l) = mapM (fun x => f (g x)) l.
Proof.
  induction l as [|x l IH]; simpl; [reflexivity|]. rewrite IH. reflexivity.
Qed.

(** The points selected by the mask [labels == i] are the vertices at the
    indices of cluster [i], in index order. *)
Lemma mask_select_indices (vs : list point) (labels : list nat) (i : nat) :
  List.length labels = List.length vs ->
  mapM (nth_error vs) (cluster_indices labels i)
  = Some (mask_select vs labels i).
Proof.
  revert labels. induction vs as [|v vs IH]; intros [|l labels] H;
    try discriminate; [reflexivity|].
  injection H as H. specialize (IH labels H).
  unfold cluster_indices, mask_select in *. simpl List.length.
  simpl seq. rewrite <- seq_shift. simpl filter.
  rewrite filter_map_comm. simpl nth_error at 2.
  destruct (Nat.eqb l i); simpl; rewrite mapM_map; simpl.
  - exact (f_equal (fun o => match o with
                             | Some bs => Some (v :: bs)
                             | None => None
                             end) IH).
  - exact IH.
Qed.

Lemma mask_select_nil (vs : list point) (labels : list nat) (i : nat) :
  ~ In i labels -> mask_select vs labels i = [].
Proof.
  revert labels. unfold mask_select.
  induction vs as [|v vs IH]; intros [|l labels] H; try reflexivity.
  simpl. destruct (Nat.eqb_spec l i) as [->|N].
  - exfalso. apply H. left. reflexivity.
  - apply IH. intros Hin. apply H. right. exact Hin.
Qed.

Lemma cluster_boxes_none (vs : list point) (labels : list nat) (k i : nat) :
  (i < k)%nat -> ~ In i labels -> cluster_boxes vs labels k = None.
Proof.
  intros Hi Hn. unfold cluster_boxes. apply mapM_none with (x := i).
  - apply in_seq. lia.
  - rewrite mask_select_nil by exact Hn. reflexivity.
Qed.

(** A centre that repeats an earlier centre is nobody's nearest centre:
    the earlier one wins the tie. *)
Lemma repeated_centre_unassigned (cs : list point) (v c : point)
  (l i j : nat) :
  assigned cs v l ->
  nth_error cs i = Some c -> nth_error cs j = Some c -> (i < j)%nat ->
  l <> j.
Proof.
  intros [d [Hd [_ Hlt]]] Hi Hj L ->.
  rewrite nth_error_map, Hj in Hd. injection Hd as <-.
  apply (Qlt_irrefl (sqdist v c)). apply (Hlt i); [exact L|].
  rewrite nth_error_map, Hi. reflexivity.
Qed.

Lemma repeated_centre_empty (cs vs : list point) (labels : list nat)
  (c : point) (i j : nat) :
  predict cs vs = Some labels ->
  nth_error cs i = Some c -> nth_error cs j = Some c -> (i < j)%nat ->
  mask_select vs labels j = [].
Proof.
  intros Hp Hi Hj L. apply mask_select_nil. intros Hin.
  apply predict_Forall2 in Hp.
  induction Hp as [|v l vs labels Hl _ IH]; [destruct Hin|].
  destruct Hin as [->|Hin]; [|exact (IH Hin)].
  exact (repeated_centre_unassigned Hl Hi Hj L eq_refl).
Qed.

(** ** Distinct vertices, one cluster each *)

Lemma square_nonneg (x : Q) : 0 <= x * x.
Proof. nra. Qed.

Lemma sqdist_nonneg (p q : point) : 0 <= sqdist p q.
Proof.
  unfold sqdist.
  pose proof (square_nonneg (px p - px q)).
  pose proof (square_nonneg (py p - py q)).
  pose proof (square_nonneg (pz p - pz q)). lra.
Qed.

Lemma sqdist_same (p q : point) : same_position p q -> sqdist p q == 0.
Proof.
  unfold sqdist. intros [H1 [H2 H3]].
  assert (E1 : px p - px q == 0) by lra.
  assert (E2 : py p - py q == 0) by lra.
  assert (E3 : pz p - pz q == 0) by lra.
  rewrite E1, E2, E3. reflexivity.
Qed.
Arguments sqdist_same {p q} _.

Lemma sqdist_positive (p q : point) : ~ same_position p q -> 0 < sqdist p q.
Proof.
  intros H. destruct (Qlt_le_dec 0 (sqdist p q)) as [L|L]; [exact L|].
  exfalso. apply H. unfold same_position. unfold sqdist in L.
  pose proof (square_nonneg (px p - px q)) as Sx.
  pose proof (square_nonneg (py p - py q)) as Sy.
  pose proof (square_nonneg (pz p - pz q)) as Sz.
  assert (Z : forall x : Q, x * x <= 0 -> x == 0) by (intros x Hx; nra).
  repeat split.
  - assert (px p - px q == 0) by (apply Z; lra). lra.
  - assert (py p - py q == 0) by (apply Z; lra). lra.
  - assert (pz p - pz q == 0) by (apply Z; lra). lra.
Qed.

Lemma same_position_refl (p : point) : same_position p p.
Proof. repeat split; reflexivity. Qed.

(** In a list holding the position of [v] at index [l0] and nowhere else,
    [l0] is the index of the point nearest to [v]. *)
Lemma only_site_first_min (L : list point) (v w : point) (l0 : nat) :
  nth_error L l0 = Some w -> same_position v w ->
  (forall l u, l <> l0 -> nth_error L l = Some u -> ~ same_position v u) ->
  first_min (map (sqdist v) L) l0.
Proof.
  intros Hw Hs Hother. exists (sqdist v w). split; [|split].
  - rewrite nth_error_map, Hw. reflexivity.
  - intros j e He. rewrite nth_error_map in He.
    destruct (nth_error L j) as [u|]; [|discriminate].
    injection He as <-. rewrite (sqdist_same Hs). apply sqdist_nonneg.
  - intros j e Hj He. rewrite nth_error_map in He.
    destruct (nth_error L j) as [u|] eqn:Eu; [|discriminate].
    injection He as <-. rewrite (sqdist_same Hs).
    apply sqdist_positive. apply (Hother j); [lia | exact Eu].
Qed.

Lemma vertex_nearest_itself (vs : list point) (j : nat) (v : point) :
  pairwise_distinct vs -> nth_error vs j = Some v -> nearest vs v = Some j.
Proof.
  intros Hd Hv. apply argmin_first_min.
  apply only_site_first_min with (w := v);
    [exact Hv | apply same_position_refl|].
  intros l u Hl Hu Hs. apply Hl. exact (Hd l j u v Hu Hv
    (let '(conj a (conj b c)) := Hs in
     conj (Qeq_sym _ _ a) (conj (Qeq_sym _ _ b) (Qeq_sym _ _ c)))).
Qed.

Lemma Forall2_nth_error_r {A B} (R : A -> B -> Prop) (l : list A)
  (l' : list B) (i : nat) (y : B) :
  Forall2 R l l' -> nth_error l' i = Some y ->
  exists x, nth_error l i = Some x /\ R x y.
Proof.
  intros H. revert i. induction H as [|x0 y0 l l' H0 _ IH]; intros i Hi.
  - destruct i; discriminate.
  - destruct i as [|i]; simpl in *.
    + injection Hi as <-. exists x0. auto.
    + apply IH, Hi.
Qed.
Arguments Forall2_nth_error_r {A B R l l' i y} _ _.

Lemma Forall2_nth_error_l {A B} (R : A -> B -> Prop) (l : list A)
  (l' : list B) (i : nat) (x : A) :
  Forall2 R l l' -> nth_error l i = Some x ->
  exists y, nth_error l' i = Some y /\ R x y.
Proof.
  intros H. revert i. induction H as [|x0 y0 l l' H0 _ IH]; intros i Hi.
  - destruct i; discriminate.
  - destruct i as [|i]; simpl in *.
    + injection Hi as <-. exists y0. auto.
    + apply IH, Hi.
Qed.
Arguments Forall2_nth_error_l {A B R l l' i x} _ _.

Lemma Forall2_seq {B} (R : nat -> B -> Prop) (l : list B) (s : nat) :
  (forall i y, nth_error l i = Some y -> R (s + i)%nat y) ->
  Forall2 R (seq s (List.length l)) l.
Proof.
  revert s. induction l as [|y l IH]; intros s H; simpl; constructor.
  - rewrite <- (Nat.add_0_r s). apply H. reflexivity.
  - apply IH. intros i z Hz. rewrite Nat.add_succ_comm. apply H. exact Hz.
Qed.

Lemma filter_nil {A} (P : A -> bool) (l : list A) :
  (forall x, In x l -> P x = false) -> filter P l = [].
Proof.
  induction l as [|a l IH]; intros H; simpl; [reflexivity|].
  rewrite (H a (or_introl eq_refl)). apply IH. intros x Hx. apply H.
  right. exact Hx.
Qed.

Lemma filter_unique {A} (P : A -> bool) (l : list A) (x0 : A) :
  NoDup l -> In x0 l ->
  (forall x, In x l -> (P x = true <-> x = x0)) ->
  filter P l = [x0].
Proof.
  induction l as [|a l IH]; intros Hnd Hin HP; [destruct Hin|].
  inversion Hnd as [|? ? Hna Hnd']; subst. simpl.
  destruct (P a) eqn:Pa.
  - assert (a = x0) by (apply HP; [left; reflexivity | exact Pa]). subst a.
    f_equal. apply filter_nil. intros x Hx.
    destruct (P x) eqn:Px; [|reflexivity].
    assert (x = x0) by (apply HP; [right; exact Hx | exact Px]).
    subst x. contradiction.
  - destruct Hin as [->|Hin].
    + assert (P x0 = true) by (apply HP; [left|]; reflexivity). congruence.
    + apply IH; [exact Hnd' | exact Hin|].
      intros x Hx. apply HP. right. exact Hx.
Qed.

Lemma mapM_Permutation {A B} (f : A -> option B) (l l' : list A)
  (ys : list B) :
  Permutation l l' -> mapM f l = Some ys ->
  exists ys', mapM f l' = Some ys' /\ Permutation ys ys'.
Proof.
  intros H. revert ys. induction H; intros ys Hys.
  - exists ys. split; [exact Hys|]. injection Hys as <-. constructor.
  - simpl in *. destruct (f x) as [y|]; [|discriminate].
    destruct (mapM f l) as [zs|]; [|discriminate]. injection Hys as <-.
    destruct (IHPermutation zs eq_refl) as [zs' [E P]]. rewrite E.
    exists (y :: zs'). split; [reflexivity | constructor; exact P].
  - simpl in *. destruct (f y) as [b|]; [|discriminate].
    destruct (f x) as [c|]; [|discriminate].
    destruct (mapM f l) as [zs|]; [|discriminate]. injection Hys as <-.
    exists (c :: b :: zs). split; [reflexivity | constructor].
  - destruct (IHPermutation1 ys Hys) as [ys1 [E1 P1]].
    destruct (IHPermutation2 ys1 E1) as [ys2 [E2 P2]].
    exists ys2. split; [exact E2 | eapply perm_trans; eassumption].
Qed.
Arguments mapM_Permutation {A B} f {l l' ys} _ _.

Lemma take_rows_all (vs : list point) :
  take_rows vs (seq 0 (List.length vs)) = Some vs.
Proof.
  unfold take_rows. apply mapM_Forall2.
  assert (G : forall l l' : list point,
            Forall2 (fun x (y : point) => nth_error (l ++ l') x = Some y)
                    (seq (List.length l) (List.length l')) l').
  { intros l l'. revert l. induction l' as [|y l' IH]; intros l; simpl;
      constructor.
    - rewrite nth_error_app2 by lia. rewrite Nat.sub_diag. reflexivity.
    - replace (l ++ y :: l') with ((l ++ [y]) ++ l')
        by (rewrite <- app_assoc; reflexivity).
      replace (S (List.length l)) with (List.length (l ++ [y]))
        by (rewrite length_app; simpl; lia).
      apply IH. }
  exact (G [] vs).
Qed.

Lemma pairwise_distances_argmin_nonempty (X Y : list point) :
  X <> [] -> pairwise_distances_argmin X Y = mapM (nearest Y) X.
Proof. destruct X; [congruence|reflexivity]. Qed.

Section Separated.
Variables (vs cs : list point) (closest : list nat).
Hypothesis distinct : pairwise_distinct vs.
Hypothesis n_centres : List.length cs = List.length vs.
Hypothesis nearest_vertices : mapM (nearest vs) cs = Some closest.
Hypothesis separated : NoDup closest.
Hypothesis non_empty : vs <> [].

Lemma closest_length : List.length closest = List.length vs.
Proof. rewrite (mapM_length _ _ nearest_vertices). exact n_centres. Qed.

Lemma closest_lt (k : nat) : In k closest -> (k < List.length vs)%nat.
Proof.
  intros H. pose proof nearest_vertices as F. apply mapM_Forall2 in F.
  destruct (In_nth_error _ _ H) as [i Hi].
  destruct (Forall2_nth_error_r F Hi) as [c [_ Hc]].
  eapply nearest_lt, Hc.
Qed.
Arguments closest_lt {k} _.

Lemma closest_permutation : Permutation closest (seq 0 (List.length vs)).
Proof.
  apply NoDup_Permutation_bis; [exact separated | |].
  - rewrite length_seq, closest_length. lia.
  - intros k Hk. apply in_seq. pose proof (closest_lt Hk). lia.
Qed.

Lemma closest_onto (j : nat) :
  (j < List.length vs)%nat -> exists l, nth_error closest l = Some j.
Proof.
  intros Hj. apply In_nth_error.
  apply (Permutation_in _ (Permutation_sym closest_permutation)).
  apply in_seq. lia.
Qed.
Arguments closest_onto {j} _.

Lemma closest_injective (l l' k : nat) :
  nth_error closest l = Some k -> nth_error closest l' = Some k -> l = l'.
Proof.
  intros H H'. apply (proj1 (NoDup_nth_error closest) separated).
  - apply nth_error_Some. congruence.
  - congruence.
Qed.
Arguments closest_injective {l l' k} _ _.

(** The centres after the first round. *)
Lemma first_round :
  exists c1, take_rows vs closest = Some c1 /\ snap vs cs = Some c1 /\
             Permutation c1 vs /\ List.length c1 = List.length vs.
Proof.
  destruct (mapM_Permutation (nth_error vs)
              (Permutation_sym closest_permutation) (take_rows_all vs))
    as [c1 [E P]].
  exists c1. split; [exact E|]. split.
  - unfold snap. rewrite pairwise_distances_argmin_nonempty.
    + rewrite nearest_vertices. exact E.
    + intros Ec. apply non_empty. pose proof n_centres as N.
      rewrite Ec in N. destruct vs; [reflexivity|discriminate].
  - split; [apply Permutation_sym, P|].
    apply Permutation_length, Permutation_sym, P.
Qed.

Variable c1 : list point.
Hypothesis rows : take_rows vs closest = Some c1.

Lemma c1_site (l : nat) (c : point) :
  nth_error c1 l = Some c ->
  exists k, nth_error closest l = Some k /\ nth_error vs k = Some c.
Proof.
  intros H. pose proof rows as F. apply mapM_Forall2 in F.
  exact (Forall2_nth_error_r F H).
Qed.
Arguments c1_site {l c} _.

Lemma c1_nearest : mapM (nearest vs) c1 = Some closest.
Proof.
  apply mapM_Forall2. pose proof rows as F. apply mapM_Forall2 in F.
  clear -F distinct. induction F as [|k c ks cs' Hk _ IH]; constructor.
  - apply vertex_nearest_itself; assumption.
  - exact IH.
Qed.

Lemma c1_fixed : snap vs c1 = Some c1.
Proof.
  unfold snap. rewrite pairwise_distances_argmin_nonempty.
  - rewrite c1_nearest. exact rows.
  - intros Ec. apply non_empty. pose proof (mapM_length _ _ rows) as L.
    rewrite closest_length, Ec in L.
    destruct vs; [reflexivity|discriminate].
Qed.

Lemma c1_refined : snap vs cs = Some c1 -> refine3 vs cs = Some c1.
Proof. intros H. unfold refine3. rewrite H, c1_fixed. apply c1_fixed. Qed.

(** Vertex [j] is assigned to the one centre that sits on it. *)
Lemma vertex_label (j l : nat) (v : point) :
  nth_error vs j = Some v -> nth_error closest l = Some j ->
  nearest c1 v = Some l.
Proof.
  intros Hv Hl. apply argmin_first_min.
  pose proof rows as F. apply mapM_Forall2 in F.
  destruct (Forall2_nth_error_l F Hl) as [c [Hc Hjc]].
  assert (c = v) by congruence. subst c.
  apply only_site_first_min with (w := v);
    [exact Hc | apply same_position_refl|].
  intros l' u Hne Hu Hs. destruct (c1_site Hu) as [k [Hk Hku]].
  apply Hne. assert (j = k) by exact (distinct j k Hv Hku Hs). subst k.
  exact (closest_injective Hk Hl).
Qed.
Arguments vertex_label {j l v} _ _.

Variable labels : list nat.
Hypothesis final : predict c1 vs = Some labels.

Lemma label_site (j l : nat) :
  nth_error labels j = Some l <-> nth_error closest l = Some j.
Proof.
  assert (F : Forall2 (fun v l => nearest c1 v = Some l) vs labels).
  { unfold predict in final. destruct vs; [discriminate|].
    apply mapM_Forall2, final. }
  split.
  - intros H. destruct (Forall2_nth_error_r F H) as [v [Hv Hn]].
    destruct (closest_onto (j := j)) as [l' Hl'].
    { apply nth_error_Some. congruence. }
    rewrite (vertex_label Hv Hl') in Hn. congruence.
  - intros H. assert (Hj : (j < List.length vs)%nat).
    { apply closest_lt. eapply nth_error_In, H. }
    destruct (nth_error vs j) as [v|] eqn:Hv;
      [|apply nth_error_None in Hv; lia].
    destruct (Forall2_nth_error_l F Hv) as [l' [Hl' Hn]].
    rewrite (vertex_label Hv H) in Hn. congruence.
Qed.

Lemma singleton_cluster (i : nat) (c : point) :
  nth_error c1 i = Some c -> mask_select vs labels i = [c].
Proof.
  intros Hc. destruct (c1_site Hc) as [k [Hk Hv]].
  assert (L : List.length labels = List.length vs).
  { apply (predict_labels _ _ final). }
  pose proof (mask_select_indices vs labels i L) as M.
  assert (E : cluster_indices labels i = [k]).
  { unfold cluster_indices. apply filter_unique.
    - apply seq_NoDup.
    - apply in_seq. rewrite L.
      pose proof (closest_lt (nth_error_In _ _ Hk)). lia.
    - intros j _. split.
      + intros H. destruct (nth_error labels j) as [l|] eqn:El;
          [|discriminate].
        apply Nat.eqb_eq in H. subst l. apply label_site in El. congruence.
      + intros ->. apply label_site in Hk. rewrite Hk. apply Nat.eqb_refl. }
  rewrite E in M. simpl in M. rewrite Hv in M. congruence.
Qed.
Arguments singleton_cluster i {c} _.

Lemma singleton_boxes :
  cluster_boxes vs labels (List.length vs)
  = Some (map (fun v => (v, v)) c1).
Proof.
  unfold cluster_boxes. apply mapM_Forall2.
  assert (L : List.length vs = List.length (map (fun v : point => (v, v)) c1)).
  { rewrite length_map, (mapM_length _ _ rows), closest_length.
    reflexivity. }
  rewrite L. apply Forall2_seq. intros i b Hb. simpl.
  rewrite nth_error_map in Hb.
  destruct (nth_error c1 i) as [c|] eqn:Hc; [|discriminate].
  injection Hb as <-. rewrite (singleton_cluster _ Hc). reflexivity.
Qed.

End Separated.

(** ** The event log of composed states *)

Lemma events_emit (e : event) (a : App) : events (emit e a) = events a ++ [e].
Proof. reflexivity. Qed.

Lemma events_update_progress (v : Z) (a : App) :
  events (update_progress v a) = events a ++ [Progress v].
Proof. reflexivity. Qed.

Lemma events_log (m : message) (a : App) :
  events (log m a) = events a ++ [Log m].
Proof. reflexivity. Qed.

Lemma events_set_mesh (m : option Mesh) (a : App) :
  events (set_mesh m a) = events a.
Proof. reflexivity. Qed.

Lemma events_set_current_hitboxes (h : list box) (a : App) :
  events (set_current_hitboxes h a) = events a.
Proof. reflexivity. Qed.

Lemma events_set_progress_running (b : bool) (a : App) :
  events (set_progress_running b a) = events a.
Proof. reflexivity. Qed.

Lemma events_set_cancel_processing (b : bool) (a : App) :
  events (set_cancel_processing b a) = events a.
Proof. reflexivity. Qed.

Lemma events_finally_reset (a : App) :
  events (finally_reset a) = events a ++ [Progress 0].
Proof. reflexivity. Qed.

Lemma events_after_round (i : nat) (a : App) :
  events (after_round i a) =
  events a ++ [Checkpoint false; Lib Call_argmin_min;
               Progress (50 + Z.of_nat i * 10); Sleep].
Proof.
  unfold after_round. cbn [events emit update_progress set_progress_bar_value].
  rewrite <- !app_assoc. reflexivity.
Qed.

Lemma events_failed_round (a : App) :
  events (failed_round a)
  = events a ++ [Checkpoint false; Lib Call_argmin_min].
Proof.
  unfold failed_round. cbn [events emit]. rewrite <- !app_assoc. reflexivity.
Qed.

Lemma events_job_started (a : App) :
  events (job_started a)
  = events a ++ [Progress 10; Lib Call_fit; Progress 50].
Proof.
  unfold job_started.
  cbn [events emit update_progress set_progress_bar_value
       set_cancel_processing set_progress_running].
  rewrite <- !app_assoc. reflexivity.
Qed.

Create Rewrite HintDb events.
#[local] Hint Rewrite events_emit events_update_progress events_log
  events_set_mesh events_set_current_hitboxes events_set_progress_running
  events_set_cancel_processing events_finally_reset events_after_round
  events_failed_round events_job_started : events.

Ltac events_norm :=
  unfold job_refined; autorewrite with events; rewrite <- ?app_assoc;
  cbn [app].

(** ** Stepping through a run *)

Lemma bind_do {B} (f : App -> App) (k : unit -> M B) (a : App) :
  bind (do_ f) k a = k tt (f a).
Proof. reflexivity. Qed.

Lemma bind_read_attr {A B} (f : App -> A) (k : A -> M B) (a : App) :
  bind (read_attr f) k a = k (f a) a.
Proof. reflexivity. Qed.

Lemma bind_some {A B} (e : exn) (o : option A) (x : A) (k : A -> M B)
  (a : App) :
  o = Some x -> bind (or_raise e o) k a = k x a.
Proof. intros ->. reflexivity. Qed.
Arguments bind_some {A B} e {o x} k a _.

Lemma bind_none {A B} (e : exn) (o : option A) (k : A -> M B) (a : App) :
  o = None -> bind (or_raise e o) k a = (Raised e, a).
Proof. intros ->. reflexivity. Qed.
Arguments bind_none {A B} e {o} k a _.

Lemma bind_normal {A B} (m : M A) (k : A -> M B) (a a' : App) (x : A) :
  m a = (Normal x, a') -> bind m k a = k x a'.
Proof. unfold bind. intros ->. reflexivity. Qed.
Arguments bind_normal {A B m} k {a a' x} _.

Lemma bind_raised {A B} (m : M A) (k : A -> M B) (a a' : App) (e : exn) :
  m a = (Raised e, a') -> bind m k a = (Raised e, a').
Proof. unfold bind. intros ->. reflexivity. Qed.
Arguments bind_raised {A B m} k {a a' e} _.

Section Runs.
Variable kmeans_fit : nat -> nat -> list point -> option (list point).
Variable trimesh_load : string -> option Mesh.
Variable cancels : nat -> nat.

Lemma checkpoint_ok (i : nat) (a : App) :
  inert a -> checkpoint cancels i a = (Normal tt, emit (Checkpoint false) a).
Proof.
  intros [H1 H2]. unfold checkpoint.
  rewrite (iter_click_cancel_inert _ _ H1).
  unfold getattr_cancel_processing. rewrite H2. reflexivity.
Qed.
Arguments checkpoint_ok i {a} _.

Lemma refinement_round_ok vs i cs c' a :
  inert a -> snap vs cs = Some c' ->
  refinement_round cancels vs i cs a = (Normal c', after_round i a).
Proof.
  intros Ha Hs. unfold refinement_round.
  rewrite (bind_normal _ (checkpoint_ok i Ha)), bind_do.
  unfold snap in Hs.
  destruct (pairwise_distances_argmin cs vs) as [closest|] eqn:E;
    [|discriminate].
  rewrite (bind_some _ _ _ eq_refl), (bind_some _ _ _ Hs), !bind_do.
  reflexivity.
Qed.
Arguments refinement_round_ok {vs} i {cs c' a} _ _.

Lemma refinement_round_fail vs i cs a :
  inert a -> snap vs cs = None ->
  exists e, refinement_round cancels vs i cs a = (Raised e, failed_round a).
Proof.
  intros Ha Hs. unfold refinement_round.
  rewrite (bind_normal _ (checkpoint_ok i Ha)), bind_do.
  unfold snap in Hs.
  destruct (pairwise_distances_argmin cs vs) as [closest|] eqn:E.
  - rewrite (bind_some _ _ _ eq_refl), (bind_none _ _ _ Hs).
    eexists; reflexivity.
  - rewrite (bind_none _ _ _ eq_refl). eexists; reflexivity.
Qed.
Arguments refinement_round_fail {vs} i {cs a} _ _.

Lemma after_round_inert i a : inert a -> inert (after_round i a).
Proof. intros [H1 H2]. split; assumption. Qed.
Arguments after_round_inert i {a} _.

Lemma job_started_inert a :
  cancel_btn_command a = Some (PyBool false) -> inert (job_started a).
Proof. intros H. split; [exact H | reflexivity]. Qed.
Arguments job_started_inert {a} _.

(** The loop either completes its three rounds or stops at the first round
    whose nearest-vertex search raises. *)
Lemma for_rounds_cases vs cs a :
  inert a ->
  (exists c3, refine3 vs cs = Some c3 /\
     for_rounds cancels vs (seq 0 3) cs a =
     (Normal c3, after_round 2 (after_round 1 (after_round 0 a)))) \/
  (refine3 vs cs = None /\ exists e a',
     for_rounds cancels vs (seq 0 3) cs a = (Raised e, a') /\
     In a' [failed_round a; failed_round (after_round 0 a);
            failed_round (after_round 1 (after_round 0 a))]).
Proof.
  intros I0.
  pose proof (after_round_inert 0 I0) as I1.
  pose proof (after_round_inert 1 I1) as I2.
  unfold refine3. simpl for_rounds.
  destruct (snap vs cs) as [c1|] eqn:E1.
  - rewrite (bind_normal _ (refinement_round_ok 0%nat I0 E1)).
    destruct (snap vs c1) as [c2|] eqn:E2.
    + rewrite (bind_normal _ (refinement_round_ok 1%nat I1 E2)).
      destruct (snap vs c2) as [c3|] eqn:E3.
      * rewrite (bind_normal _ (refinement_round_ok 2%nat I2 E3)).
        left. exists c3. split; reflexivity.
      * destruct (refinement_round_fail 2%nat I2 E3) as [e He].
        rewrite (bind_raised _ He). right. split; [reflexivity|].
        exists e. eexists. split; [reflexivity|]. simpl; auto.
    + destruct (refinement_round_fail 1%nat I1 E2) as [e He].
      rewrite (bind_raised _ He). right. split; [reflexivity|].
      exists e. eexists. split; [reflexivity|]. simpl; auto.
  - destruct (refinement_round_fail 0%nat I0 E1) as [e He].
    rewrite (bind_raised _ He). right. split; [reflexivity|].
    exists e. eexists. split; [reflexivity|]. simpl; auto.
Qed.

Lemma for_rounds_ok vs cs c3 a :
  inert a -> refine3 vs cs = Some c3 ->
  for_rounds cancels vs (seq 0 3) cs a =
  (Normal c3, after_round 2 (after_round 1 (after_round 0 a))).
Proof.
  intros I0 Hr.
  destruct (for_rounds_cases vs cs I0) as [[c [Hc E]]|[Hn _]]; [|congruence].
  rewrite Hr in Hc. injection Hc as <-. exact E.
Qed.
Arguments for_rounds_ok {vs cs c3 a} _ _.

(** A non-bypass run up to the call of [predict]. *)
Lemma generate_hitboxes_body_refined level a m p cs c3 :
  cancel_btn_command a = Some (PyBool false) ->
  mesh a = Some m ->
  dict_get precision_levels level = Some p ->
  String.eqb level "super low" = false ->
  kmeans_fit (Nat.min (clusters p) (List.length (vertices m)))
             (iterations p) (vertices m) = Some cs ->
  refine3 (vertices m) cs = Some c3 ->
  generate_hitboxes_body kmeans_fit cancels level a =
  (labels <- or_raise ValueError_no_samples (predict c3 (vertices m)) ;;
   hs <- or_raise ValueError_zero_size
           (cluster_boxes (vertices m) labels
              (Nat.min (clusters p) (List.length (vertices m)))) ;;
   do_ (set_current_hitboxes hs) ;;;
   do_ (update_progress 80) ;;;
   do_ (emit Schedule_viewport) ;;;
   do_ (log (Msg_generated (List.length hs) level))) (job_refined a).
Proof.
  intros Hb Hm Hp Hl Hf Hr.
  unfold generate_hitboxes_body.
  rewrite !bind_do, (bind_some _ _ _ Hp), bind_read_attr.
  assert (Hv : option_map vertices
     (mesh (update_progress 10 (set_cancel_processing false
             (set_progress_running true a)))) = Some (vertices m)).
  { simpl. rewrite Hm. reflexivity. }
  rewrite (bind_some _ _ _ Hv), Hl, bind_do, (bind_some _ _ _ Hf), bind_do.
  fold (job_started a).
  rewrite (bind_normal _ (for_rounds_ok (job_started_inert Hb) Hr)), bind_do.
  reflexivity.
Qed.

Arguments generate_hitboxes_body_refined {level a m p cs c3} _ _ _ _ _ _.

(** A run whose clustering yields the boxes [hs]. *)
Lemma generate_hitboxes_completed level a m p hs :
  cancel_btn_command a = Some (PyBool false) ->
  mesh a = Some m ->
  dict_get precision_levels level = Some p ->
  String.eqb level "super low" = false ->
  clustered_boxes kmeans_fit p (vertices m) = Some hs ->
  generate_hitboxes kmeans_fit cancels level a =
  finally_reset
    (log (Msg_generated (List.length hs) level)
       (emit Schedule_viewport
          (update_progress 80 (set_current_hitboxes hs (job_refined a))))).
Proof.
  intros Hb Hm Hp Hl Hc. unfold clustered_boxes in Hc.
  destruct (kmeans_fit _ _ _) as [cs|] eqn:Hf; [|discriminate].
  destruct (refine3 _ cs) as [c3|] eqn:Hr; [|discriminate].
  destruct (predict c3 _) as [labels|] eqn:Hq; [|discriminate].
  unfold generate_hitboxes, try_except_finally.
  rewrite (generate_hitboxes_body_refined Hb Hm Hp Hl Hf Hr).
  rewrite (bind_some _ _ _ Hq), (bind_some _ _ _ Hc), !bind_do.
  reflexivity.
Qed.

(** A run whose final assignment leaves some cluster without a vertex. *)
Lemma generate_hitboxes_empty_cluster level a m p cs c3 labels :
  cancel_btn_command a = Some (PyBool false) ->
  mesh a = Some m ->
  dict_get precision_levels level = Some p ->
  String.eqb level "super low" = false ->
  kmeans_fit (Nat.min (clusters p) (List.length (vertices m)))
             (iterations p) (vertices m) = Some cs ->
  refine3 (vertices m) cs = Some c3 ->
  predict c3 (vertices m) = Some labels ->
  cluster_boxes (vertices m) labels
    (Nat.min (clusters p) (List.length (vertices m))) = None ->
  generate_hitboxes kmeans_fit cancels level a =
  finally_reset (log (Msg_processing_error ValueError_zero_size)
                   (job_refined a)).
Proof.
  intros Hb Hm Hp Hl Hf Hr Hq Hc.
  unfold generate_hitboxes, try_except_finally.
  rewrite (generate_hitboxes_body_refined Hb Hm Hp Hl Hf Hr).
  rewrite (bind_some _ _ _ Hq), (bind_none _ _ _ Hc).
  reflexivity.
Qed.

Ltac trace_done :=
  events_norm; repeat split; try reflexivity; lia.

(** Whatever path the [try] block takes from a state with the inert
    button, the progress values it reports are a non-empty prefix of the
    milestones. *)
Lemma generate_hitboxes_body_progress level a :
  cancel_btn_command a = Some (PyBool false) ->
  exists o a' tr n,
    generate_hitboxes_body kmeans_fit cancels level a = (o, a') /\
    events a' = events a ++ tr /\
    (1 <= n <= 6)%nat /\ progress_values tr = firstn n milestones.
Proof.
  intros Hb. unfold generate_hitboxes_body. rewrite !bind_do.
  destruct (dict_get precision_levels level) as [p|] eqn:Hp.
  2:{ rewrite (bind_none _ _ _ eq_refl).
      do 3 eexists. exists 1%nat. split; [reflexivity|]. trace_done. }
  rewrite (bind_some _ _ _ eq_refl), bind_read_attr.
  destruct (mesh a) as [m|] eqn:Hm.
  2:{ rewrite (@bind_none _ _ AttributeError
                 (option_map vertices (mesh
                    (update_progress 10 (set_cancel_processing false
                       (set_progress_running true a))))));
        [|simpl; rewrite Hm; reflexivity].
      do 3 eexists. exists 1%nat. split; [reflexivity|]. trace_done. }
  assert (Hv : option_map vertices
     (mesh (update_progress 10 (set_cancel_processing false
             (set_progress_running true a)))) = Some (vertices m)).
  { simpl. rewrite Hm. reflexivity. }
  rewrite (bind_some _ _ _ Hv).
  destruct (String.eqb level "super low") eqn:Hl.
  { destruct (get_bounding_box (vertices m)) as [b|] eqn:Hbb.
    - rewrite (bind_some _ _ _ eq_refl), bind_do.
      do 3 eexists. exists 1%nat. split; [reflexivity|]. trace_done.
    - rewrite (bind_none _ _ _ eq_refl).
      do 3 eexists. exists 1%nat. split; [reflexivity|]. trace_done. }
  rewrite bind_do.
  destruct (kmeans_fit _ _ _) as [cs|] eqn:Hf.
  2:{ rewrite (bind_none _ _ _ eq_refl).
      do 3 eexists. exists 1%nat. split; [reflexivity|]. trace_done. }
  rewrite (bind_some _ _ _ eq_refl), bind_do. fold (job_started a).
  destruct (for_rounds_cases (vertices m) cs (job_started_inert Hb))
    as [[c3 [Hr E]]|[Hr [e [a' [E Ha']]]]].
  2:{ rewrite (bind_raised _ E). simpl in Ha'.
      destruct Ha' as [<-|[<-|[<-|[]]]].
      - do 3 eexists. exists 2%nat. split; [reflexivity|]. trace_done.
      - do 3 eexists. exists 3%nat. split; [reflexivity|]. trace_done.
      - do 3 eexists. exists 4%nat. split; [reflexivity|]. trace_done. }
  rewrite (bind_normal _ E), bind_do.
  destruct (predict c3 (vertices m)) as [labels|] eqn:Hq.
  2:{ rewrite (bind_none _ _ _ eq_refl).
      do 3 eexists. exists 5%nat. split; [reflexivity|]. trace_done. }
  rewrite (bind_some _ _ _ eq_refl).
  destruct (cluster_boxes _ _ _) as [hs|] eqn:Hc.
  2:{ rewrite (bind_none _ _ _ eq_refl).
      do 3 eexists. exists 5%nat. split; [reflexivity|]. trace_done. }
  rewrite (bind_some _ _ _ eq_refl), !bind_do.
  do 3 eexists. exists 6%nat. split; [reflexivity|]. trace_done.
Qed.

Arguments generate_hitboxes_body_progress level {a} _.

Lemma generate_hitboxes_progress level a :
  cancel_btn_command a = Some (PyBool false) ->
  exists tr n,
    events (generate_hitboxes kmeans_fit cancels level a) = events a ++ tr /\
    (1 <= n <= 6)%nat /\
    progress_values tr = firstn n milestones ++ [0%Z].
Proof.
  intros Hb.
  destruct (generate_hitboxes_body_progress level Hb)
    as [o [a' [tr [n [E [He [Hn Hp]]]]]]].
  unfold generate_hitboxes, try_except_finally. rewrite E.
  destruct o as [[]| |e].
  - exists (tr ++ [Progress 0]), n. simpl. rewrite He, <- app_assoc.
    rewrite progress_values_app, Hp. auto.
  - exists (tr ++ [Progress 0]), n. simpl. rewrite He, <- app_assoc.
    rewrite progress_values_app, Hp. auto.
  - exists (tr ++ [Log (Msg_processing_error e); Progress 0]), n. simpl.
    rewrite He, <- !app_assoc. rewrite progress_values_app, Hp. auto.
Qed.

End Runs.

Arguments generate_hitboxes_completed kmeans_fit cancels {level a m p hs}
  _ _ _ _ _.
Arguments generate_hitboxes_empty_cluster kmeans_fit cancels
  {level a m p cs c3 labels} _ _ _ _ _ _ _ _.
Arguments generate_hitboxes_progress kmeans_fit cancels level {a} _.

(** ** Traces of runs *)

Lemma run_trace_app (f : App -> App) (a : App) (tr : list event) :
  events (f a) = events a ++ tr -> run_trace f a = tr.
Proof.
  intros H. unfold run_trace. rewrite H, skipn_app, skipn_all, Nat.sub_diag.
  reflexivity.
Qed.
Arguments run_trace_app f a {tr} _.

Lemma events_job_refined (a : App) :
  events (job_refined a) =
  events a ++
  [Progress 10; Lib Call_fit; Progress 50;
   Checkpoint false; Lib Call_argmin_min; Progress 50; Sleep;
   Checkpoint false; Lib Call_argmin_min; Progress 60; Sleep;
   Checkpoint false; Lib Call_argmin_min; Progress 70; Sleep;
   Lib Call_predict].
Proof. events_norm. reflexivity. Qed.

Lemma precision_levels_clusters (level : string) (p : params) :
  dict_get precision_levels level = Some p -> (50 <= clusters p)%nat.
Proof.
  unfold precision_levels. cbn [dict_get].
  repeat (destruct (String.eqb _ level);
          [intros [= <-]; simpl; lia|]).
  discriminate.
Qed.

Lemma refine3_length (vs cs c3 : list point) :
  refine3 vs cs = Some c3 -> List.length c3 = List.length cs.
Proof.
  unfold refine3.
  destruct (snap vs cs) as [c1|] eqn:E1; [|discriminate].
  destruct (snap vs c1) as [c2|] eqn:E2; [|discriminate].
  intros E3. apply snap_length in E1, E2, E3. congruence.
Qed.

Lemma snapped_In (vs : list point) (c c' : point) :
  snapped vs c c' -> In c' vs.
Proof. intros [i [H _]]. eapply nth_error_In, H. Qed.

Lemma refine3_In (vs cs c3 : list point) :
  refine3 vs cs = Some c3 -> forall c, In c c3 -> In c vs.
Proof.
  unfold refine3.
  destruct (snap vs cs) as [c1|] eqn:E1; [|discriminate].
  destruct (snap vs c1) as [c2|] eqn:E2; [|discriminate].
  intros E3 c Hc. apply snap_Forall2 in E3. clear E1 E2.
  induction E3 as [|x y l l' Hxy _ IH]; [destruct Hc|].
  destruct Hc as [<-|Hc]; [eapply snapped_In, Hxy | exact (IH Hc)].
Qed.

Section Claims.
Variable kmeans_fit : nat -> nat -> list point -> option (list point).
Variable trimesh_load : string -> option Mesh.

Lemma reachable_button (a : App) :
  reachable kmeans_fit trimesh_load a -> cancel_btn_command a = Some (PyBool false).
Proof. intros H. apply (reachable_inert H). Qed.

(** Trace of a completed non-bypass run. *)
Lemma completed_trace cancels level a m p hs :
  cancel_btn_command a = Some (PyBool false) ->
  mesh a = Some m ->
  dict_get precision_levels level = Some p ->
  String.eqb level "super low" = false ->
  clustered_boxes kmeans_fit p (vertices m) = Some hs ->
  run_trace (generate_hitboxes kmeans_fit cancels level) a =
  [Progress 10; Lib Call_fit; Progress 50;
   Checkpoint false; Lib Call_argmin_min; Progress 50; Sleep;
   Checkpoint false; Lib Call_argmin_min; Progress 60; Sleep;
   Checkpoint false; Lib Call_argmin_min; Progress 70; Sleep;
   Lib Call_predict; Progress 80; Schedule_viewport;
   Log (Msg_generated (List.length hs) level); Progress 0].
Proof.
  intros Hb Hm Hp Hl Hc. apply run_trace_app.
  rewrite (generate_hitboxes_completed kmeans_fit cancels Hb Hm Hp Hl Hc).
  events_norm. reflexivity.
Qed.

Arguments completed_trace cancels {level a m p hs} _ _ _ _ _.

(** Trace of the load job around its nested decomposition run. *)
Lemma process_model_trace cancels path a m :
  cancel_btn_command a = Some (PyBool false) ->
  trimesh_load path = Some m ->
  let s := update_progress 30 (set_mesh (Some m) (update_progress 10
             (set_cancel_processing false (set_progress_running true a)))) in
  run_trace (process_model kmeans_fit trimesh_load cancels path) a =
  [Progress 10; Progress 30] ++
  run_trace (generate_hitboxes kmeans_fit cancels "high") s ++
  [Progress 90; Schedule_viewport;
   Log (Msg_model_loaded (List.length (faces m))); Progress 0].
Proof.
  intros Hb Hl s.
  assert (Hs : cancel_btn_command s = Some (PyBool false)) by exact Hb.
  destruct (generate_hitboxes_progress kmeans_fit cancels "high" Hs)
    as [tr [n [He _]]].
  rewrite (run_trace_app _ _ He). apply run_trace_app.
  unfold process_model, try_except_finally, process_model_body.
  rewrite !bind_do, (bind_some _ _ _ Hl), !bind_do. fold s.
  cbn [do_]. events_norm. rewrite He. unfold s. events_norm. reflexivity.
Qed.

Arguments process_model_trace cancels {path} a {m} _ _.

Lemma process_model_load_error cancels path a :
  trimesh_load path = None ->
  run_trace (process_model kmeans_fit trimesh_load cancels path) a =
  [Progress 10; Log (Msg_error LoadError); Progress 0].
Proof.
  intros Hl. apply run_trace_app.
  unfold process_model, try_except_finally, process_model_body.
  rewrite !bind_do, (bind_none _ _ _ Hl).
  events_norm. reflexivity.
Qed.

Arguments process_model_load_error cancels {path} a _.

Lemma milestones_prefix (n : nat) :
  (1 <= n <= 6)%nat ->
  non_decreasing (firstn n milestones) /\
  Forall percent (firstn n milestones).
Proof.
  intros Hn. unfold percent.
  do 7 (destruct n as [|n]; [simpl; repeat split;
                             repeat constructor; lia|]).
  lia.
Qed.

Arguments milestones_prefix {n} _.

(** C3, as the code has it. From a reachable state, a non-bypass
    decomposition run that completes reports: 10 when it starts, 50 when the
    fit is complete, [50 + 10 * i] at the end of round [i = 0, 1, 2] (50,
    60, 70), 80 when the boxes are extracted, then notifies the viewport
    without a further report and resets to 0. The load job reports 10 and
    30, runs that sequence (including its reset to 0), then reports 90 and
    resets to 0. Neither job reports 100. *)
Theorem progress_milestones (a : App) :
  reachable kmeans_fit trimesh_load a ->
  (forall cancels level m p hs,
     mesh a = Some m ->
     dict_get precision_levels level = Some p ->
     level <> "super low"%string ->
     clustered_boxes kmeans_fit p (vertices m) = Some hs ->
     run_trace (generate_hitboxes kmeans_fit cancels level) a =
     [Progress 10; Lib Call_fit; Progress 50;
      Checkpoint false; Lib Call_argmin_min; Progress 50; Sleep;
      Checkpoint false; Lib Call_argmin_min; Progress 60; Sleep;
      Checkpoint false; Lib Call_argmin_min; Progress 70; Sleep;
      Lib Call_predict; Progress 80; Schedule_viewport;
      Log (Msg_generated (List.length hs) level); Progress 0]) /\
  (forall cancels path m hs,
     trimesh_load path = Some m ->
     clustered_boxes kmeans_fit high_params (vertices m) = Some hs ->
     progress_values
       (run_trace (process_model kmeans_fit trimesh_load cancels path) a) =
     [10; 30; 10; 50; 50; 60; 70; 80; 0; 90; 0]%Z).
Proof.
  intros Hr. pose proof (reachable_button Hr) as Hb. split.
  - intros cancels level m p hs Hm Hp Hl Hc.
    apply String.eqb_neq in Hl.
    exact (completed_trace cancels Hb Hm Hp Hl Hc).
  - intros cancels path m hs Hl Hc.
    rewrite (process_model_trace cancels a Hb Hl).
    erewrite (completed_trace cancels (level := "high") (m := m)
                (p := high_params) (hs := hs));
      [reflexivity | exact Hb | reflexivity | reflexivity | reflexivity
      | exact Hc].
Qed.

(** C5, as the code has it. From a reachable state, every value either job
    reports is an integer between 0 and 100. In a decomposition run the
    values reported before the closing reset to 0 never decrease, whatever
    path the run takes, and the reset is always the last report. *)
Theorem progress_percent_and_order (a : App) :
  reachable kmeans_fit trimesh_load a ->
  (forall cancels level,
     exists pre,
       progress_values
         (run_trace (generate_hitboxes kmeans_fit cancels level) a)
       = pre ++ [0%Z] /\
       non_decreasing pre /\ Forall percent (pre ++ [0%Z])) /\
  (forall cancels path,
     Forall percent
       (progress_values
          (run_trace (process_model kmeans_fit trimesh_load cancels path) a))).
Proof.
  intros Hr. pose proof (reachable_button Hr) as Hb.
  assert (P0 : percent 0) by (unfold percent; lia).
  split.
  - intros cancels level.
    destruct (generate_hitboxes_progress kmeans_fit cancels level Hb)
      as [tr [n [He [Hn Hp]]]].
    rewrite (run_trace_app _ _ He), Hp.
    destruct (milestones_prefix Hn) as [M1 M2].
    exists (firstn n milestones). split; [reflexivity|]. split; [exact M1|].
    apply Forall_app. split; [exact M2 | constructor; [exact P0|constructor]].
  - intros cancels path. destruct (trimesh_load path) as [m|] eqn:Hl.
    + rewrite (process_model_trace cancels a Hb Hl).
      match goal with
      | |- context [run_trace ?f ?s] =>
          destruct (generate_hitboxes_progress kmeans_fit cancels "high"
                      (a := s) Hb) as [tr [n [He [Hn Hp]]]];
          rewrite (run_trace_app f s He)
      end.
      rewrite !progress_values_app, Hp.
      destruct (milestones_prefix Hn) as [_ M2].
      repeat (apply Forall_app; split); try exact M2;
        simpl; repeat constructor; unfold percent; lia.
    + rewrite (process_model_load_error cancels a Hl). simpl.
      repeat constructor; unfold percent; lia.
Qed.

(** C8.  On a non-empty mesh the tier [super low] runs no clustering
    (no library call, no checkpoint) and leaves exactly one box, which is
    [get_bounding_box] of all vertices: on each axis its min corner is the
    least and its max corner the greatest coordinate of the mesh. *)
Theorem minimal_tier_single_box (cancels : nat -> nat) (a : App) (m : Mesh) :
  mesh a = Some m ->
  vertices m <> [] ->
  let a' := generate_hitboxes kmeans_fit cancels "super low" a in
  exists b,
    current_hitboxes a' = [b] /\
    get_bounding_box (vertices m) = Some b /\
    mesh_bounds (vertices m) b /\
    run_trace (generate_hitboxes kmeans_fit cancels "super low") a
    = [Progress 10; Progress 0].
Proof.
  intros Hm Hv a'. destruct (get_bounding_box_bounds Hv) as [b [Hb Hbounds]].
  exists b.
  assert (E : a' = finally_reset
            (set_current_hitboxes [b] (update_progress 10
               (set_cancel_processing false (set_progress_running true a))))).
  { unfold a', generate_hitboxes, try_except_finally, generate_hitboxes_body.
    rewrite !bind_do, (bind_some (o := dict_get precision_levels "super low")
                         _ _ _ eq_refl), bind_read_attr.
    assert (Hvs : option_map vertices
       (mesh (update_progress 10 (set_cancel_processing false
               (set_progress_running true a)))) = Some (vertices m)).
    { simpl. rewrite Hm. reflexivity. }
    rewrite (bind_some _ _ _ Hvs). cbn [String.eqb Ascii.eqb Bool.eqb].
    rewrite (bind_some _ _ _ Hb), bind_do. reflexivity. }
  split; [rewrite E; reflexivity|]. split; [exact Hb|].
  split; [exact Hbounds|].
  apply run_trace_app. fold a'. rewrite E. events_norm. reflexivity.
Qed.

Lemma length_nonempty {A} (l l' : list A) :
  l <> [] -> List.length l' = List.length l -> l' <> [].
Proof. intros Hl E ->. destruct l; [congruence|discriminate]. Qed.

(** A non-bypass run on a non-empty mesh whose fit returned centres: it
    reaches [predict], and ends either with the boxes published or with the
    [ValueError] of an empty cluster. *)
Lemma refined_run cancels level a m p cs :
  cancel_btn_command a = Some (PyBool false) ->
  mesh a = Some m -> vertices m <> [] ->
  dict_get precision_levels level = Some p ->
  String.eqb level "super low" = false ->
  kmeans_fit (Nat.min (clusters p) (List.length (vertices m)))
             (iterations p) (vertices m) = Some cs ->
  cs <> [] ->
  exists c3 labels,
    refine3 (vertices m) cs = Some c3 /\
    predict c3 (vertices m) = Some labels /\
    clustered_boxes kmeans_fit p (vertices m) =
      cluster_boxes (vertices m) labels
        (Nat.min (clusters p) (List.length (vertices m))) /\
    match clustered_boxes kmeans_fit p (vertices m) with
    | Some hs =>
        generate_hitboxes kmeans_fit cancels level a =
        finally_reset
          (log (Msg_generated (List.length hs) level)
             (emit Schedule_viewport
                (update_progress 80
                   (set_current_hitboxes hs (job_refined a)))))
    | None =>
        generate_hitboxes kmeans_fit cancels level a =
        finally_reset (log (Msg_processing_error ValueError_zero_size)
                         (job_refined a))
    end.
Proof.
  intros Hb Hm Hv Hp Hl Hf Hc.
  destruct (refine3_some Hv Hc) as [c1 [c2 [c3 [_ [_ [_ [Hr L3]]]]]]].
  destruct (predict_some Hv (length_nonempty Hc L3)) as [labels Hq].
  exists c3, labels. split; [exact Hr|]. split; [exact Hq|].
  assert (E : clustered_boxes kmeans_fit p (vertices m) =
              cluster_boxes (vertices m) labels
                (Nat.min (clusters p) (List.length (vertices m)))).
  { unfold clustered_boxes. rewrite Hf, Hr, Hq. reflexivity. }
  split; [exact E|].
  destruct (clustered_boxes kmeans_fit p (vertices m)) as [hs|] eqn:C.
  - exact (generate_hitboxes_completed kmeans_fit cancels Hb Hm Hp Hl C).
  - exact (generate_hitboxes_empty_cluster kmeans_fit cancels Hb Hm Hp Hl Hf
             Hr Hq (eq_sym E)).
Qed.
Arguments refined_run cancels {level a m p cs} _ _ _ _ _ _ _.


(** C7.  For a non-bypass tier whose cluster count [k] does not exceed the
    number [n] of vertices, after a fit that returned its [k] centres, the
    run reaches the final assignment [labels = kmeans.predict(vertices)]
    and the clusters [labels == i], [i < k], partition the vertex indices:
    every cluster holds indices below [n] only and every index below [n]
    lies in exactly one cluster.  The points the run boxes for cluster [i]
    are the vertices at those indices. *)
Theorem final_assignment_is_partition (cancels : nat -> nat)
  (level : string) (a : App) (m : Mesh) (p : params) (cs : list point) :
  reachable kmeans_fit trimesh_load a ->
  mesh a = Some m ->
  dict_get precision_levels level = Some p ->
  level <> "super low"%string ->
  (clusters p <= List.length (vertices m))%nat ->
  kmeans_fit (Nat.min (clusters p) (List.length (vertices m)))
             (iterations p) (vertices m) = Some cs ->
  List.length cs = clusters p ->
  let vs := vertices m in
  exists c3 labels,
    refine3 vs cs = Some c3 /\
    predict c3 vs = Some labels /\
    is_partition (List.length vs) (clusters p) labels /\
    (forall i, mapM (nth_error vs) (cluster_indices labels i)
               = Some (mask_select vs labels i)) /\
    clustered_boxes kmeans_fit p vs = cluster_boxes vs labels (clusters p) /\
    (forall hs, cluster_boxes vs labels (clusters p) = Some hs ->
       current_hitboxes (generate_hitboxes kmeans_fit cancels level a) = hs).
Proof.
  intros Hr Hm Hp Hl Hk Hf Hlen vs.
  pose proof (reachable_button Hr) as Hb. apply String.eqb_neq in Hl.
  pose proof (precision_levels_clusters _ Hp) as H50.
  assert (Hv : vertices m <> []).
  { intros E. rewrite E in Hk. simpl in Hk. lia. }
  assert (Hc : cs <> []).
  { intros E. rewrite E in Hlen. simpl in Hlen. lia. }
  destruct (refined_run cancels Hb Hm Hv Hp Hl Hf Hc)
    as [c3 [labels [Hr3 [Hq [E Hrun]]]]].
  rewrite Nat.min_l in E by exact Hk.
  exists c3, labels. split; [exact Hr3|]. split; [exact Hq|].
  destruct (predict_labels _ _ Hq) as [L1 L2].
  rewrite (refine3_length _ _ Hr3), Hlen in L2.
  split; [apply labels_partition; assumption|].
  split; [intros i; apply mask_select_indices; exact L1|].
  split; [exact E|].
  intros hs Hhs. fold vs in E. rewrite Hhs in E.
  unfold vs in E. rewrite E in Hrun. rewrite Hrun. reflexivity.
Qed.

(** Two coinciding centres after the refinement make the later one's
    cluster empty, and the run ends in the [ValueError] of
    [get_bounding_box]. *)
Lemma coinciding_centres_fail cancels level a m p cs c3 c i j :
  cancel_btn_command a = Some (PyBool false) ->
  mesh a = Some m ->
  dict_get precision_levels level = Some p ->
  String.eqb level "super low" = false ->
  kmeans_fit (Nat.min (clusters p) (List.length (vertices m)))
             (iterations p) (vertices m) = Some cs ->
  List.length cs = Nat.min (clusters p) (List.length (vertices m)) ->
  refine3 (vertices m) cs = Some c3 ->
  nth_error c3 i = Some c -> nth_error c3 j = Some c -> (i < j)%nat ->
  exists labels,
    predict c3 (vertices m) = Some labels /\
    (j < Nat.min (clusters p) (List.length (vertices m)))%nat /\
    mask_select (vertices m) labels j = [] /\
    generate_hitboxes kmeans_fit cancels level a =
    finally_reset (log (Msg_processing_error ValueError_zero_size)
                     (job_refined a)).
Proof.
  intros Hb Hm Hp Hl Hf Hlen Hr Hi Hj L.
  assert (Hv : vertices m <> []).
  { intros E. pose proof (refine3_In _ _ Hr c (nth_error_In _ _ Hi)) as Hin.
    rewrite E in Hin. destruct Hin. }
  assert (Hc3 : c3 <> []).
  { intros E. rewrite E in Hi. destruct i; discriminate. }
  destruct (predict_some Hv Hc3) as [labels Hq].
  assert (Hjk : (j < Nat.min (clusters p) (List.length (vertices m)))%nat).
  { rewrite <- Hlen, <- (refine3_length _ _ Hr).
    apply nth_error_Some. congruence. }
  pose proof (@repeated_centre_empty c3 (vertices m) labels c i j Hq Hi Hj L)
    as He.
  exists labels. repeat split; try assumption.
  apply (generate_hitboxes_empty_cluster kmeans_fit cancels Hb Hm Hp Hl Hf
           Hr Hq).
  unfold cluster_boxes. apply mapM_none with (x := j).
  - apply in_seq. lia.
  - rewrite He. reflexivity.
Qed.
Arguments coinciding_centres_fail cancels {level a m p cs c3 c i j}
  _ _ _ _ _ _ _ _ _ _.

Lemma failed_run_trace cancels level a :
  generate_hitboxes kmeans_fit cancels level a =
  finally_reset (log (Msg_processing_error ValueError_zero_size)
                   (job_refined a)) ->
  current_hitboxes (generate_hitboxes kmeans_fit cancels level a)
  = current_hitboxes a /\
  run_trace (generate_hitboxes kmeans_fit cancels level) a =
  [Progress 10; Lib Call_fit; Progress 50;
   Checkpoint false; Lib Call_argmin_min; Progress 50; Sleep;
   Checkpoint false; Lib Call_argmin_min; Progress 60; Sleep;
   Checkpoint false; Lib Call_argmin_min; Progress 70; Sleep;
   Lib Call_predict; Log (Msg_processing_error ValueError_zero_size);
   Progress 0].
Proof.
  intros E. split.
  - rewrite E. reflexivity.
  - apply run_trace_app. rewrite E. events_norm. reflexivity.
Qed.
Arguments failed_run_trace cancels {level a} _.

(** C1 (the code at the failing inputs).  Whenever two of the refined
    centres coincide, the final assignment gives the later one no vertex;
    the list comprehension still calls [get_bounding_box] on that empty
    selection, which raises; no box is published and the run ends with
    "Processing Error". *)
Theorem empty_cluster_reaches_get_bounding_box (cancels : nat -> nat)
  (level : string) (a : App) (m : Mesh) (p : params)
  (cs c3 : list point) (c : point) (i j : nat) :
  reachable kmeans_fit trimesh_load a ->
  mesh a = Some m ->
  dict_get precision_levels level = Some p ->
  level <> "super low"%string ->
  kmeans_fit (Nat.min (clusters p) (List.length (vertices m)))
             (iterations p) (vertices m) = Some cs ->
  List.length cs = Nat.min (clusters p) (List.length (vertices m)) ->
  refine3 (vertices m) cs = Some c3 ->
  nth_error c3 i = Some c -> nth_error c3 j = Some c -> (i < j)%nat ->
  exists labels,
    predict c3 (vertices m) = Some labels /\
    (j < Nat.min (clusters p) (List.length (vertices m)))%nat /\
    mask_select (vertices m) labels j = [] /\
    get_bounding_box (mask_select (vertices m) labels j) = None /\
    current_hitboxes (generate_hitboxes kmeans_fit cancels level a)
    = current_hitboxes a /\
    run_trace (generate_hitboxes kmeans_fit cancels level) a =
    [Progress 10; Lib Call_fit; Progress 50;
     Checkpoint false; Lib Call_argmin_min; Progress 50; Sleep;
     Checkpoint false; Lib Call_argmin_min; Progress 60; Sleep;
     Checkpoint false; Lib Call_argmin_min; Progress 70; Sleep;
     Lib Call_predict; Log (Msg_processing_error ValueError_zero_size);
     Progress 0].
Proof.
  intros Hr Hm Hp Hl Hf Hlen Hr3 Hi Hj L.
  pose proof (reachable_button Hr) as Hb. apply String.eqb_neq in Hl.
  destruct (coinciding_centres_fail cancels Hb Hm Hp Hl Hf Hlen Hr3 Hi Hj L)
    as [labels [Hq [Hjk [He Hrun]]]].
  destruct (failed_run_trace cancels Hrun) as [T1 T2].
  exists labels. rewrite He. repeat split; assumption.
Qed.

(** The failure does not depend on what the fit returns: with a doubled
    vertex in a three-vertex mesh, three centres snap onto two positions,
    so two of them coincide. *)
Lemma doubled_vertex_fails (cancels : nat -> nat) (level : string) (a : App)
  (m : Mesh) (p : params) (cs : list point) (u w : point) :
  reachable kmeans_fit trimesh_load a ->
  mesh a = Some m ->
  vertices m = [u; u; w] ->
  dict_get precision_levels level = Some p ->
  level <> "super low"%string ->
  kmeans_fit (Nat.min (clusters p) (List.length (vertices m)))
             (iterations p) (vertices m) = Some cs ->
  List.length cs = Nat.min (clusters p) (List.length (vertices m)) ->
  generate_hitboxes kmeans_fit cancels level a =
  finally_reset (log (Msg_processing_error ValueError_zero_size)
                   (job_refined a)).
Proof.
  intros Hr Hm Hvs Hp Hl Hf Hlen.
  pose proof (reachable_button Hr) as Hb. apply String.eqb_neq in Hl.
  pose proof (precision_levels_clusters _ Hp) as H50.
  assert (Hn : List.length (vertices m) = 3%nat) by (rewrite Hvs; reflexivity).
  assert (Hv : vertices m <> []) by (rewrite Hvs; discriminate).
  assert (Hc : cs <> []).
  { intros E. rewrite E, Hn in Hlen. simpl in Hlen. lia. }
  destruct (refine3_some Hv Hc) as [c1 [c2 [c3 [_ [_ [_ [Hr3 L3]]]]]]].
  pose proof (refine3_In _ _ Hr3) as Hin. rewrite Hvs in Hin.
  rewrite Hlen, Hn in L3. replace (Nat.min (clusters p) 3) with 3%nat in L3
    by lia.
  destruct c3 as [|x [|y [|z [|]]]]; try discriminate.
  assert (Hx : x = u \/ x = w).
  { destruct (Hin x (or_introl eq_refl)) as [E|[E|[E|[]]]]; auto. }
  assert (Hy : y = u \/ y = w).
  { destruct (Hin y (or_intror (or_introl eq_refl))) as [E|[E|[E|[]]]];
      auto. }
  assert (Hz : z = u \/ z = w).
  { destruct (Hin z (or_intror (or_intror (or_introl eq_refl))))
      as [E|[E|[E|[]]]]; auto. }
  destruct Hx as [-> | ->], Hy as [-> | ->], Hz as [-> | ->];
    first
      [ destruct (coinciding_centres_fail cancels (i := 0%nat) (j := 1%nat)
                    Hb Hm Hp Hl Hf Hlen Hr3 eq_refl eq_refl ltac:(lia))
          as [_ [_ [_ [_ E]]]]; exact E
      | destruct (coinciding_centres_fail cancels (i := 0%nat) (j := 2%nat)
                    Hb Hm Hp Hl Hf Hlen Hr3 eq_refl eq_refl ltac:(lia))
          as [_ [_ [_ [_ E]]]]; exact E
      | destruct (coinciding_centres_fail cancels (i := 1%nat) (j := 2%nat)
                    Hb Hm Hp Hl Hf Hlen Hr3 eq_refl eq_refl ltac:(lia))
          as [_ [_ [_ [_ E]]]]; exact E ].
Qed.

(** C9 (the code at the failing inputs).  On a mesh of two or more
    vertices that are all at one position, for any non-bypass tier and any
    centres the fit returns for the [min(clusters, n) >= 2] clusters asked
    for: the cluster count is not reduced to 1, every refined centre is
    that one position, cluster 1 is empty, and the run ends with
    "Processing Error" without publishing a box. *)
Theorem identical_points_fail (cancels : nat -> nat)
  (level : string) (a : App) (m : Mesh) (p : params)
  (cs : list point) (v : point) :
  reachable kmeans_fit trimesh_load a ->
  mesh a = Some m ->
  (forall u, In u (vertices m) -> u = v) ->
  (2 <= List.length (vertices m))%nat ->
  dict_get precision_levels level = Some p ->
  level <> "super low"%string ->
  kmeans_fit (Nat.min (clusters p) (List.length (vertices m)))
             (iterations p) (vertices m) = Some cs ->
  List.length cs = Nat.min (clusters p) (List.length (vertices m)) ->
  (2 <= Nat.min (clusters p) (List.length (vertices m)))%nat /\
  clustered_boxes kmeans_fit p (vertices m) = None /\
  current_hitboxes (generate_hitboxes kmeans_fit cancels level a)
  = current_hitboxes a /\
  run_trace (generate_hitboxes kmeans_fit cancels level) a =
  [Progress 10; Lib Call_fit; Progress 50;
   Checkpoint false; Lib Call_argmin_min; Progress 50; Sleep;
   Checkpoint false; Lib Call_argmin_min; Progress 60; Sleep;
   Checkpoint false; Lib Call_argmin_min; Progress 70; Sleep;
   Lib Call_predict; Log (Msg_processing_error ValueError_zero_size);
   Progress 0].
Proof.
  intros Hr Hm Hall Hn Hp Hl Hf Hlen.
  pose proof (reachable_button Hr) as Hb. apply String.eqb_neq in Hl.
  pose proof (precision_levels_clusters _ Hp) as H50.
  assert (Hk : (2 <= Nat.min (clusters p) (List.length (vertices m)))%nat)
    by lia.
  assert (Hv : vertices m <> []).
  { intros E. rewrite E in Hn. simpl in Hn. lia. }
  assert (Hc : cs <> []).
  { intros E. rewrite E in Hlen. simpl in Hlen. lia. }
  destruct (refine3_some Hv Hc) as [c1 [c2 [c3 [_ [_ [_ [Hr3 L3]]]]]]].
  assert (N : forall idx, (idx < 2)%nat -> nth_error c3 idx = Some v).
  { intros idx Hidx. destruct (nth_error c3 idx) as [c|] eqn:E.
    - f_equal. apply Hall. apply (refine3_In _ _ Hr3). eapply nth_error_In, E.
    - apply nth_error_None in E. lia. }
  destruct (coinciding_centres_fail cancels Hb Hm Hp Hl Hf Hlen Hr3
              (N 0%nat ltac:(lia)) (N 1%nat ltac:(lia)) ltac:(lia))
    as [labels [Hq [Hjk [He Hrun]]]].
  destruct (failed_run_trace cancels Hrun) as [T1 T2].
  split; [exact Hk|]. split; [|split; assumption].
  unfold clustered_boxes. rewrite Hf, Hr3, Hq.
  unfold cluster_boxes. apply mapM_none with (x := 1%nat).
  - apply in_seq. lia.
  - rewrite He. reflexivity.
Qed.


End Claims.

(** ** JSON export *)

Lemma read_box_export (h : box) :
  read_box (JArray [tolist (fst h); tolist (snd h)]) = Some h.
Proof. destruct h as [[[x y] z] [[x' y'] z']]. reflexivity. Qed.

Lemma read_boxes_export (hs : list box) :
  mapM read_box (map (fun h => JArray [tolist (fst h); tolist (snd h)]) hs)
  = Some hs.
Proof.
  induction hs as [|h hs IH]; [reflexivity|].
  simpl map. cbn [mapM]. rewrite read_box_export, IH. reflexivity.
Qed.

(** *** The written text *)

Lemma number_char_not_space (c : ascii) :
  is_number_char c = true -> is_space c = false /\ Ascii.eqb c dquote = false.
Proof.
  unfold is_number_char. intros H. apply existsb_exists in H.
  destruct H as [d [Hin E]]. apply Ascii.eqb_eq in E. subst d.
  simpl in Hin.
  repeat (destruct Hin as [<-|Hin]; [split; reflexivity|]).
  destruct Hin.
Qed.

Section JsonRoundTrip.
Variable float_repr : Q -> text.
Variable float_of_text : text -> option Q.

Abbreviation good := (round_trips float_repr float_of_text).

Notation "tok ::: o" := (option_map (cons tok) o)
  (at level 60, right associativity).

Lemma lex_in_number (ds acc : text) (c : ascii) (rest : text) :
  forallb is_number_char ds = true -> is_number_char c = false ->
  lex (In_number acc) (ds ++ c :: rest) =
  TNumber (rev acc ++ ds) ::: start c (fun st => lex st rest).
Proof.
  revert acc. induction ds as [|d ds IH]; intros acc Hds Hc; simpl.
  - rewrite Hc, app_nil_r. reflexivity.
  - simpl in Hds. apply andb_true_iff in Hds. destruct Hds as [Hd Hds].
    rewrite Hd, IH by assumption. simpl. rewrite <- app_assoc. reflexivity.
Qed.

Lemma lex_number (q : Q) (c : ascii) (rest : text) :
  good q -> is_number_char c = false ->
  lex Idle (float_repr q ++ c :: rest) =
  TNumber (float_repr q) ::: start c (fun st => lex st rest).
Proof.
  intros [Hne [Hall _]] Hc. destruct (float_repr q) as [|d ds]; [congruence|].
  simpl in Hall. apply andb_true_iff in Hall. destruct Hall as [Hd Hds].
  destruct (number_char_not_space d Hd) as [S1 S2].
  simpl. unfold start at 1. rewrite S1, S2, Hd.
  rewrite lex_in_number by assumption. reflexivity.
Qed.

Lemma lex_spaces (n : nat) (X : text) :
  lex Idle (repeat space n ++ X) = lex Idle X.
Proof. induction n as [|n IH]; [reflexivity|]. simpl. exact IH. Qed.

Lemma lex_newline_indent (lvl : nat) (X : text) :
  lex Idle (newline_indent lvl ++ X) = lex Idle X.
Proof. unfold newline_indent. simpl. apply lex_spaces. Qed.

Lemma lex_open (lvl : nat) (X : text) :
  lex Idle (chars "[" ++ newline_indent lvl ++ X) = TLBracket ::: lex Idle X.
Proof.
  change (lex Idle (chars "[" ++ newline_indent lvl ++ X))
    with (TLBracket ::: lex Idle (newline_indent lvl ++ X)).
  rewrite lex_newline_indent. reflexivity.
Qed.

Lemma lex_close (lvl : nat) (X : text) :
  lex Idle (newline_indent lvl ++ chars "]" ++ X) = TRBracket ::: lex Idle X.
Proof. rewrite lex_newline_indent. reflexivity. Qed.

Lemma lex_comma (lvl : nat) (X : text) :
  lex Idle (chars "," ++ newline_indent lvl ++ X) = TComma ::: lex Idle X.
Proof.
  change (lex Idle (chars "," ++ newline_indent lvl ++ X))
    with (TComma ::: lex Idle (newline_indent lvl ++ X)).
  rewrite lex_newline_indent. reflexivity.
Qed.

Lemma lex_number_comma (q : Q) (lvl : nat) (X : text) :
  good q ->
  lex Idle (float_repr q ++ chars "," ++ newline_indent lvl ++ X) =
  TNumber (float_repr q) ::: TComma ::: lex Idle X.
Proof.
  intros H. change (chars "," ++ newline_indent lvl ++ X)
    with (","%char :: newline_indent lvl ++ X).
  rewrite lex_number by (exact H || reflexivity).
  change (start ","%char (fun st => lex st (newline_indent lvl ++ X)))
    with (TComma ::: lex Idle (newline_indent lvl ++ X)).
  rewrite lex_newline_indent. reflexivity.
Qed.

Lemma lex_number_close (q : Q) (lvl : nat) (X : text) :
  good q ->
  lex Idle (float_repr q ++ newline_indent lvl ++ chars "]" ++ X) =
  TNumber (float_repr q) ::: TRBracket ::: lex Idle X.
Proof.
  intros H. unfold newline_indent. simpl app.
  rewrite lex_number by (exact H || reflexivity).
  change (start newline ?k) with (k Idle). cbv beta.
  rewrite lex_spaces. reflexivity.
Qed.

Lemma dumps_array3 (lvl : nat) (a b c : json) :
  dumps float_repr lvl (JArray [a; b; c]) =
  chars "[" ++ newline_indent (S lvl) ++ dumps float_repr (S lvl) a
  ++ chars "," ++ newline_indent (S lvl) ++ dumps float_repr (S lvl) b
  ++ chars "," ++ newline_indent (S lvl) ++ dumps float_repr (S lvl) c
  ++ newline_indent lvl ++ chars "]".
Proof.
  cbn [dumps map join]. rewrite <- !app_assoc. reflexivity.
Qed.

Lemma dumps_array2 (lvl : nat) (a b : json) :
  dumps float_repr lvl (JArray [a; b]) =
  chars "[" ++ newline_indent (S lvl) ++ dumps float_repr (S lvl) a
  ++ chars "," ++ newline_indent (S lvl) ++ dumps float_repr (S lvl) b
  ++ newline_indent lvl ++ chars "]".
Proof.
  cbn [dumps map join]. rewrite <- !app_assoc. reflexivity.
Qed.

Lemma lex_point (lvl : nat) (p : point) (X : text) :
  Forall good (point_coordinates p) ->
  lex Idle (dumps float_repr lvl (tolist p) ++ X) =
  option_map (app (point_tokens float_repr p)) (lex Idle X).
Proof.
  intros H. inversion H as [|? ? Hx H1]; subst.
  inversion H1 as [|? ? Hy H2]; subst. inversion H2 as [|? ? Hz _]; subst.
  unfold tolist. rewrite dumps_array3. cbn [dumps]. rewrite <- !app_assoc.
  rewrite lex_open, !lex_number_comma, lex_number_close by assumption.
  destruct (lex Idle X); reflexivity.
Qed.

Lemma Forall_coords_box (h : box) (hs : list box) :
  Forall good (coordinates (h :: hs)) ->
  Forall good (point_coordinates (fst h)) /\
  Forall good (point_coordinates (snd h)) /\
  Forall good (coordinates hs).
Proof.
  unfold coordinates. cbn [flat_map]. intros H.
  apply Forall_app in H. destruct H as [H1 H2].
  apply Forall_app in H1. destruct H1 as [H0 H1]. auto.
Qed.

Lemma lex_box (lvl : nat) (h : box) (X : text) :
  Forall good (point_coordinates (fst h)) ->
  Forall good (point_coordinates (snd h)) ->
  lex Idle (dumps float_repr lvl (box_json h) ++ X) =
  option_map (app (box_tokens float_repr h)) (lex Idle X).
Proof.
  intros H1 H2. unfold box_json. rewrite dumps_array2, <- !app_assoc.
  rewrite lex_open, lex_point, lex_comma, lex_point, lex_close by assumption.
  unfold box_tokens. destruct (lex Idle X); simpl; [|reflexivity].
  rewrite <- ?app_assoc. reflexivity.
Qed.

Lemma lex_boxes (lvl : nat) (hs : list box) :
  forall (h : box) (X : text),
  Forall good (coordinates (h :: hs)) ->
  lex Idle (join (chars "," ++ newline_indent lvl)
              (map (dumps float_repr lvl) (map box_json (h :: hs))) ++ X) =
  option_map (app (box_tokens float_repr h ++ more_boxes float_repr hs))
             (lex Idle X).
Proof.
  induction hs as [|h' hs IH]; intros h X H;
    destruct (Forall_coords_box H) as [H1 [H2 H3]].
  - cbn [map join more_boxes flat_map]. rewrite lex_box by assumption.
    rewrite app_nil_r. reflexivity.
  - change (join (chars "," ++ newline_indent lvl)
              (map (dumps float_repr lvl) (map box_json (h :: h' :: hs))))
      with (dumps float_repr lvl (box_json h)
            ++ (chars "," ++ newline_indent lvl)
            ++ join (chars "," ++ newline_indent lvl)
                 (map (dumps float_repr lvl) (map box_json (h' :: hs)))).
    rewrite <- ?app_assoc. rewrite lex_box, lex_comma, IH by assumption.
    cbn [more_boxes flat_map]. destruct (lex Idle X); simpl; [|reflexivity].
    rewrite <- ?app_assoc. reflexivity.
Qed.

Lemma lex_export (hs : list box) :
  Forall good (coordinates hs) ->
  lex Idle (json_dump float_repr (export_json_data hs))
  = Some (export_tokens float_repr hs).
Proof.
  intros H. destruct hs as [|h hs]; [reflexivity|].
  unfold json_dump, export_json_data.
  change (map (fun h0 => JArray [tolist (fst h0); tolist (snd h0)]) (h :: hs))
    with (map box_json (h :: hs)).
  remember (map box_json (h :: hs)) as items eqn:E.
  cbn [dumps map join fst snd].
  destruct items as [|i items]; [discriminate|]. rewrite E.
  rewrite <- ?app_assoc.
  change (lex Idle (chars "{" ++ newline_indent 1 ++ quoted "hitboxes"
                    ++ chars ": " ++ ?X))
    with (TLBrace ::: TString "hitboxes" ::: TColon ::: lex Idle X).
  rewrite lex_open, lex_boxes, lex_close by exact H.
  change (lex Idle (newline_indent 0 ++ chars "}")) with (Some [TRBrace]).
  unfold export_tokens. simpl. rewrite <- ?app_assoc. reflexivity.
Qed.

Lemma parse_point (f : nat) (p : point) (rest : list token) :
  Forall good (point_coordinates p) ->
  parse_value float_of_text (S (S f)) (point_tokens float_repr p ++ rest)
  = Some (tolist p, rest).
Proof.
  intros H. inversion H as [|? ? [_ [_ Hx]] H1]; subst.
  inversion H1 as [|? ? [_ [_ Hy]] H2]; subst.
  inversion H2 as [|? ? [_ [_ Hz]] _]; subst.
  unfold point_tokens. simpl. rewrite Hx. simpl. rewrite Hy, Hz. reflexivity.
Qed.

Lemma parse_array_of (f : nat) (ts rest r1 : list token) (v : json)
  (vs : list json) :
  match ts with TRBracket :: _ => False | _ => True end ->
  parse_value float_of_text f ts = Some (v, r1) ->
  parse_elements (parse_value float_of_text f) (List.length r1) r1
  = Some (vs, rest) ->
  parse_value float_of_text (S f) (TLBracket :: ts)
  = Some (JArray (v :: vs), rest).
Proof.
  intros Hhd Hv Hvs. destruct ts as [|t ts].
  - destruct f; discriminate.
  - destruct t; try contradiction; cbn [parse_value]; rewrite Hv, Hvs;
      reflexivity.
Qed.

Lemma parse_box (f : nat) (h : box) (rest : list token) :
  Forall good (point_coordinates (fst h)) ->
  Forall good (point_coordinates (snd h)) ->
  parse_value float_of_text (S (S (S f))) (box_tokens float_repr h ++ rest)
  = Some (box_json h, rest).
Proof.
  intros H1 H2. unfold box_tokens, box_json.
  rewrite <- app_comm_cons, <- app_assoc, <- app_comm_cons, <- app_assoc.
  eapply parse_array_of.
  - exact I.
  - apply parse_point, H1.
  - cbn [List.length parse_elements]. rewrite parse_point by exact H2.
    cbn [point_tokens app List.length parse_elements]. reflexivity.
Qed.

Lemma more_boxes_cons (h : box) (hs : list box) :
  more_boxes float_repr (h :: hs)
  = TComma :: box_tokens float_repr h ++ more_boxes float_repr hs.
Proof. reflexivity. Qed.

Lemma more_boxes_length (hs : list box) :
  (List.length hs <= List.length (more_boxes float_repr hs))%nat.
Proof.
  induction hs as [|h hs IH]; [simpl; lia|].
  rewrite more_boxes_cons. cbn [List.length]. rewrite length_app. lia.
Qed.

Lemma parse_more_boxes (f : nat) (hs : list box) :
  forall (n : nat) (rest : list token),
  Forall good (coordinates hs) -> (List.length hs < n)%nat ->
  parse_elements (parse_value float_of_text (S (S (S f)))) n
    (more_boxes float_repr hs ++ TRBracket :: rest)
  = Some (map box_json hs, rest).
Proof.
  induction hs as [|h hs IH]; intros n rest H Hn;
    (destruct n as [|n]; [simpl in Hn; lia|]).
  - reflexivity.
  - destruct (Forall_coords_box H) as [H1 [H2 H3]].
    rewrite more_boxes_cons.
    rewrite <- app_comm_cons, <- app_assoc. cbn [parse_elements].
    rewrite parse_box by assumption.
    rewrite IH by (try assumption; simpl in Hn; lia). reflexivity.
Qed.

Lemma parse_object_of (f : nat) (k : string) (ts rest r1 : list token)
  (v : json) (ms : list (string * json)) :
  parse_value float_of_text f ts = Some (v, r1) ->
  parse_members (parse_value float_of_text f) (List.length r1) r1
  = Some (ms, rest) ->
  parse_value float_of_text (S f) (TLBrace :: TString k :: TColon :: ts)
  = Some (JObject ((k, v) :: ms), rest).
Proof. intros Hv Hms. cbn [parse_value]. rewrite Hv, Hms. reflexivity. Qed.

Lemma parse_export_fuel (f : nat) (h : box) (hs : list box) :
  Forall good (coordinates (h :: hs)) ->
  parse_value float_of_text (S (S (S (S (S f)))))
    (export_tokens float_repr (h :: hs))
  = Some (export_json_data (h :: hs), []).
Proof.
  intros H. destruct (Forall_coords_box H) as [H1 [H2 H3]].
  unfold export_tokens. cbn [app].
  apply parse_object_of with (r1 := [TRBrace]); [|reflexivity].
  rewrite <- !app_assoc. cbn [app].
  apply parse_array_of
    with (r1 := more_boxes float_repr hs ++ [TRBracket; TRBrace]).
  - exact I.
  - apply parse_box; assumption.
  - apply parse_more_boxes; [exact H3|].
    rewrite length_app. pose proof (more_boxes_length hs). simpl. lia.
Qed.

Lemma export_tokens_length (h : box) (hs : list box) :
  exists f,
    List.length (export_tokens float_repr (h :: hs)) = S (S (S (S (S f)))).
Proof. unfold export_tokens. cbn [app List.length]. eexists. reflexivity. Qed.

Lemma parse_export (hs : list box) :
  Forall good (coordinates hs) ->
  parse_value float_of_text (List.length (export_tokens float_repr hs))
    (export_tokens float_repr hs)
  = Some (export_json_data hs, []).
Proof.
  intros H. destruct hs as [|h hs]; [reflexivity|].
  destruct (export_tokens_length h hs) as [f ->].
  apply parse_export_fuel, H.
Qed.

Lemma json_load_dump (hs : list box) :
  Forall good (coordinates hs) ->
  json_load float_of_text (json_dump float_repr (export_json_data hs))
  = Some (export_json_data hs).
Proof.
  intros H. unfold json_load. rewrite lex_export by exact H.
  rewrite parse_export by exact H. reflexivity.
Qed.


End JsonRoundTrip.

(** ** The statements at concrete inputs *)

Lemma triangle_distinct : pairwise_distinct (vertices triangle).
Proof.
  intros [|[|[|i]]] [|[|[|j]]] p q Hp Hq [H1 [H2 H3]];
    cbn [vertices triangle nth_error] in Hp, Hq;
    try reflexivity; try discriminate;
    try (destruct i; discriminate); try (destruct j; discriminate);
    injection Hp as <-; injection Hq as <-;
    vm_compute in H1, H2, H3; discriminate.
Qed.

(** C1: the seam triangle at tier [high].  Centres 0 and 1 coincide and
    cluster 1 is empty. *)
Lemma empty_cluster_witness :
  current_hitboxes
    (generate_hitboxes fit_first_rows no_cancels "high" seam_loaded)
  = current_hitboxes seam_loaded /\
  In (Log (Msg_processing_error ValueError_zero_size))
     (run_trace (generate_hitboxes fit_first_rows no_cancels "high")
        seam_loaded).
Proof.
  destruct (@empty_cluster_reaches_get_bounding_box fit_first_rows load_seam
              no_cancels "high" seam_loaded seam high_params
              (vertices seam) (vertices seam) (pt 0 0 0) 0%nat 1%nat)
    as [labels [_ [_ [_ [_ [H T]]]]]].
  - exists [Click_load "seam.obj" no_cancels]. reflexivity.
  - reflexivity.
  - reflexivity.
  - discriminate.
  - reflexivity.
  - reflexivity.
  - reflexivity.
  - reflexivity.
  - reflexivity.
  - lia.
  - split; [exact H|]. rewrite T. simpl. tauto.
Defined.



(** C3: the triangle at tier [high]. *)
Lemma progress_milestones_witness :
  progress_values
    (run_trace (generate_hitboxes fit_first_rows no_cancels "high")
       triangle_loaded)
  = [10; 50; 50; 60; 70; 80; 0]%Z.
Proof.
  assert (R : reachable fit_first_rows load_triangle triangle_loaded).
  { exists [Click_load "triangle.obj" no_cancels]. reflexivity. }
  rewrite (proj1 (progress_milestones R) no_cancels "high"%string triangle
             high_params
             [(pt 0 0 0, pt 0 0 0); (pt 1 0 0, pt 1 0 0);
              (pt 0 1 0, pt 0 1 0)]
             eq_refl eq_refl ltac:(discriminate) eq_refl).
  reflexivity.
Defined.

(** C3: a completed run reports 80 after the boxes and never 90 or 100;
    the load job never reports 100 and reports 90 after a reset to 0. *)
Lemma progress_milestones_counterexample :
  let direct := progress_values
        (run_trace (generate_hitboxes fit_first_rows no_cancels "high")
           triangle_loaded) in
  let load := progress_values
        (run_trace (process_model fit_first_rows load_triangle no_cancels
                      "triangle.obj") init) in
  direct = [10; 50; 50; 60; 70; 80; 0]%Z /\
  ~ In 90%Z direct /\ ~ In 100%Z direct /\
  load = [10; 30; 10; 50; 50; 60; 70; 80; 0; 90; 0]%Z /\ ~ In 100%Z load.
Proof.
  vm_compute. repeat split; try reflexivity; intros H;
    repeat (destruct H as [H|H]; [discriminate|]); exact H.
Qed.

(** C5: the triangle at tier [high] and the load of the triangle. *)
Lemma progress_percent_witness :
  (exists pre,
     progress_values
       (run_trace (generate_hitboxes fit_first_rows no_cancels "high")
          triangle_loaded) = pre ++ [0%Z] /\
     non_decreasing pre /\ Forall percent (pre ++ [0%Z])) /\
  Forall percent
    (progress_values
       (run_trace (process_model fit_first_rows load_triangle no_cancels
                     "triangle.obj") triangle_loaded)).
Proof.
  assert (R : reachable fit_first_rows load_triangle triangle_loaded).
  { exists [Click_load "triangle.obj" no_cancels]. reflexivity. }
  split.
  - exact (proj1 (progress_percent_and_order R) no_cancels "high"%string).
  - exact (proj2 (progress_percent_and_order R) no_cancels
             "triangle.obj"%string).
Defined.

(** C5: every run ends by setting the bar back to 0, and within the load
    job the reported value also falls from 30 to 10 and reaches 90 only
    after a reset to 0. *)
Lemma progress_order_counterexample :
  let direct := progress_values
        (run_trace (generate_hitboxes fit_first_rows no_cancels "high")
           triangle_loaded) in
  let load := progress_values
        (run_trace (process_model fit_first_rows load_triangle no_cancels
                      "triangle.obj") init) in
  direct = [10; 50; 50; 60; 70; 80; 0]%Z /\ ~ non_decreasing direct /\
  load = [10; 30; 10; 50; 50; 60; 70; 80; 0; 90; 0]%Z /\
  ~ non_decreasing load.
Proof.
  vm_compute. split; [reflexivity|]. split; [|split; [reflexivity|]].
  - intros [_ [_ [_ [_ [_ [H _]]]]]]. apply H. reflexivity.
  - intros [_ [H _]]. apply H. reflexivity.
Qed.


(** C7: the strip of 150 vertices at tier [low], 150 clusters. *)
Lemma final_assignment_witness :
  exists c3 labels,
    refine3 (vertices strip) (vertices strip) = Some c3 /\
    predict c3 (vertices strip) = Some labels /\
    is_partition 150 150 labels.
Proof.
  destruct (@final_assignment_is_partition fit_first_rows load_strip
              no_cancels "low" strip_loaded strip low_params
              (vertices strip))
    as [c3 [labels [H1 [H2 [H3 _]]]]].
  - exists [Click_load "strip.obj" no_cancels]. reflexivity.
  - vm_compute. reflexivity.
  - reflexivity.
  - discriminate.
  - vm_compute. lia.
  - vm_compute. reflexivity.
  - vm_compute. reflexivity.
  - exists c3, labels. split; [exact H1 | split; [exact H2 | exact H3]].
Defined.

(** C8: the triangle at the tier [super low]. *)
Lemma minimal_tier_witness :
  exists b,
    current_hitboxes
      (generate_hitboxes fit_first_rows no_cancels "super low"
         triangle_loaded) = [b] /\
    get_bounding_box (vertices triangle) = Some b /\
    mesh_bounds (vertices triangle) b /\
    run_trace (generate_hitboxes fit_first_rows no_cancels "super low")
      triangle_loaded = [Progress 10; Progress 0].
Proof.
  apply (@minimal_tier_single_box fit_first_rows no_cancels triangle_loaded
           triangle).
  - reflexivity.
  - discriminate.
Defined.

(** C9: the knot at tier [high]. *)
Lemma identical_points_witness :
  clustered_boxes fit_first_rows high_params (vertices knot) = None /\
  current_hitboxes
    (generate_hitboxes fit_first_rows no_cancels "high" knot_loaded)
  = current_hitboxes knot_loaded.
Proof.
  destruct (@identical_points_fail fit_first_rows load_knot no_cancels
              "high" knot_loaded knot high_params (vertices knot)
              (pt 1 2 3))
    as [_ [H1 [H2 _]]].
  - exists [Click_load "knot.obj" no_cancels]. reflexivity.
  - reflexivity.
  - intros u [<-|[<-|[<-|[]]]]; reflexivity.
  - simpl. lia.
  - reflexivity.
  - discriminate.
  - reflexivity.
  - reflexivity.
  - split; [exact H1 | exact H2].
Defined.


(** * Further properties of the decomposition job *)


Lemma mesh_bounds_inside (vs : list point) (b : box) :
  mesh_bounds vs b -> forall v, In v vs -> inside v b.
Proof.
  intros (H1 & H2 & H3 & H4 & H5 & H6) v Hv.
  repeat split;
    first [apply H1 | apply H2 | apply H3 | apply H4 | apply H5 | apply H6];
    exact Hv.
Qed.

Lemma inside_ordered (v : point) (b : box) : inside v b -> ordered_box b.
Proof.
  intros ([H1 H2] & [H3 H4] & [H5 H6]).
  repeat split; eapply Qle_trans; eassumption.
Qed.

Lemma get_bounding_box_cases (points : list point) :
  match get_bounding_box points with
  | Some b =>
      points <> [] /\ ordered_box b /\ forall v, In v points -> inside v b
  | None => points = []
  end.
Proof.
  destruct points as [|p rest]; [reflexivity|].
  destruct (@get_bounding_box_bounds (p :: rest)) as [b [E Hb]];
    [discriminate|].
  rewrite E. split; [discriminate|].
  pose proof (mesh_bounds_inside Hb) as Hin.
  split; [|exact Hin].
  apply (@inside_ordered p). apply Hin. left; reflexivity.
Qed.

(** ** A snap round is idempotent *)

Lemma sqdist_same_r (c p q : point) :
  same_position p q -> sqdist c p == sqdist c q.
Proof.
  intros (Hx & Hy & Hz). unfold sqdist. rewrite Hx, Hy, Hz. reflexivity.
Qed.

Lemma snapped_nearest (vs : list point) (c c' : point) (k : nat) :
  nth_error vs k = Some c' -> first_min (map (sqdist c) vs) k ->
  nearest vs c' = Some k.
Proof.
  intros Hk (d & Hd & _ & Hlt).
  rewrite (map_nth_error (sqdist c) _ _ Hk) in Hd. injection Hd as <-.
  apply argmin_first_min. exists (sqdist c' c'). split.
  - apply map_nth_error. exact Hk.
  - pose proof (sqdist_same (same_position_refl c')) as H0.
    split.
    + intros j e Hj.
      destruct (nth_error vs j) as [u|] eqn:Eu.
      * rewrite (map_nth_error (sqdist c') _ _ Eu) in Hj. injection Hj as <-.
        rewrite H0. apply sqdist_nonneg.
      * apply nth_error_None in Eu.
        assert (nth_error (map (sqdist c') vs) j = None) as Hn
          by (apply nth_error_None; rewrite length_map; exact Eu).
        congruence.
    + intros j e Hji Hj.
      destruct (nth_error vs j) as [u|] eqn:Eu.
      * rewrite (map_nth_error (sqdist c') _ _ Eu) in Hj. injection Hj as <-.
        rewrite H0. apply sqdist_positive. intros Hs.
        pose proof (Hlt j (sqdist c u) Hji (map_nth_error _ _ _ Eu)) as Hc.
        rewrite (sqdist_same_r c Hs) in Hc. exact (Qlt_irrefl _ Hc).
      * apply nth_error_None in Eu.
        assert (nth_error (map (sqdist c') vs) j = None) as Hn
          by (apply nth_error_None; rewrite length_map; exact Eu).
        congruence.
Qed.

Lemma Forall2_compose {A B} (R : A -> nat -> Prop) (S : nat -> B -> Prop)
  (T : B -> nat -> Prop) (l : list A) (ks : list nat) (l' : list B) :
  (forall a k b, R a k -> S k b -> T b k) ->
  Forall2 R l ks -> Forall2 S ks l' -> Forall2 T l' ks.
Proof.
  intros H HR. revert l'.
  induction HR as [|a k l ks Hak _ IH]; intros l' HS; inversion HS; subst.
  - constructor.
  - constructor; [eapply H; eassumption | apply IH; assumption].
Qed.

Lemma snap_fixed (vs cs c1 : list point) :
  snap vs cs = Some c1 -> snap vs c1 = Some c1.
Proof.
  intros Hs. pose proof (snap_length _ _ Hs) as Hlen.
  unfold snap in *.
  destruct (pairwise_distances_argmin cs vs) as [closest|] eqn:E;
    [|discriminate].
  assert (Hcs : cs <> []) by (intros ->; discriminate).
  rewrite (pairwise_distances_argmin_nonempty _ Hcs) in E.
  assert (Hc1 : c1 <> []).
  { intros ->. destruct cs; [congruence|discriminate]. }
  rewrite (pairwise_distances_argmin_nonempty _ Hc1).
  assert (E1 : mapM (nearest vs) c1 = Some closest).
  { apply mapM_Forall2. apply mapM_Forall2 in E. apply mapM_Forall2 in Hs.
    refine (@Forall2_compose _ _ _ _ _ cs closest c1 _ E Hs).
    intros c k c' Hn Hk. cbv beta in *.
    apply (@snapped_nearest vs c c' k Hk).
    apply argmin_spec. exact Hn. }
  rewrite E1. exact Hs.
Qed.



(** ** The boxes of an assignment *)

Lemma In_combine_nth_error {A B} (l : list A) (l' : list B) (j : nat)
  (x : A) (y : B) :
  nth_error l j = Some x -> nth_error l' j = Some y -> In (x, y) (combine l l').
Proof.
  revert l' j. induction l as [|a l IH]; intros [|b l'] [|j] Hx Hy;
    try discriminate.
  - injection Hx as <-. injection Hy as <-. left; reflexivity.
  - right. exact (IH _ _ Hx Hy).
Qed.

Lemma In_mask_select (vs : list point) (labels : list nat) (j l : nat)
  (v : point) :
  nth_error vs j = Some v -> nth_error labels j = Some l ->
  In v (mask_select vs labels l).
Proof.
  intros Hv Hl. unfold mask_select.
  apply (in_map fst _ (v, l)). apply filter_In. split.
  - exact (In_combine_nth_error _ _ _ Hv Hl).
  - apply Nat.eqb_refl.
Qed.

Lemma cluster_boxes_nth (vs : list point) (labels : list nat) (k l : nat)
  (hs : list box) :
  cluster_boxes vs labels k = Some hs -> (l < k)%nat ->
  exists b, nth_error hs l = Some b /\
            get_bounding_box (mask_select vs labels l) = Some b.
Proof.
  intros Hc Hl. unfold cluster_boxes in Hc.
  apply mapM_Forall2 in Hc.
  assert (Hs : nth_error (seq 0 k) l = Some l).
  { rewrite nth_error_seq.
    destruct (Nat.ltb_spec l k); [reflexivity|lia]. }
  destruct (Forall2_nth_error_l Hc Hs) as [b [Hb E]].
  exists b. split; assumption.
Qed.

Lemma cluster_boxes_cover (vs : list point) (labels : list nat) (k : nat)
  (hs : list box) :
  List.length labels = List.length vs ->
  Forall (fun l => (l < k)%nat) labels ->
  cluster_boxes vs labels k = Some hs ->
  List.length hs = k /\
  forall j v, nth_error vs j = Some v ->
    exists l b, nth_error labels j = Some l /\ nth_error hs l = Some b /\
                inside v b.
Proof.
  intros Hlen Hlt Hc. split.
  - unfold cluster_boxes in Hc. rewrite (mapM_length _ _ Hc).
    apply length_seq.
  - intros j v Hv.
    destruct (nth_error labels j) as [l|] eqn:El.
    2:{ apply nth_error_None in El.
        assert (j < List.length vs)%nat
          by (apply nth_error_Some; congruence). lia. }
    assert (Hl : (l < k)%nat).
    { rewrite Forall_forall in Hlt. apply Hlt.
      eapply nth_error_In; eassumption. }
    destruct (cluster_boxes_nth _ _ Hc Hl) as [b [Hb E]].
    exists l, b. split; [reflexivity|]. split; [exact Hb|].
    pose proof (get_bounding_box_cases (mask_select vs labels l)) as He.
    rewrite E in He. destruct He as (_ & _ & He). apply He.
    exact (In_mask_select _ _ _ Hv El).
Qed.

(** ** Every path through a run *)

Lemma processing_errors_app (e1 e2 : list event) :
  processing_errors (e1 ++ e2) = processing_errors e1 ++ processing_errors e2.
Proof.
  induction e1 as [|[v|[| | e| |]| | |c|b] e1 IH]; simpl; try exact IH.
  - reflexivity.
  - rewrite IH. reflexivity.
Qed.

Lemma viewport_updates_app (e1 e2 : list event) :
  viewport_updates (e1 ++ e2) = (viewport_updates e1 + viewport_updates e2)%nat.
Proof.
  induction e1 as [|[v|m| | |c|b] e1 IH]; simpl; try exact IH.
  - reflexivity.
  - rewrite IH. reflexivity.
Qed.

Section Outcomes.
Variable kmeans_fit : nat -> nat -> list point -> option (list point).
Variable trimesh_load : string -> option Mesh.
Variable cancels : nat -> nat.

Ltac outcome_done :=
  do 3 eexists; split; [reflexivity|];
  split; [events_norm; reflexivity|];
  repeat split; try reflexivity; eauto.

Lemma generate_hitboxes_body_outcome level a :
  cancel_btn_command a = Some (PyBool false) ->
  exists o s tr,
    generate_hitboxes_body kmeans_fit cancels level a = (o, s) /\
    events s = events a ++ tr /\
    processing_errors tr = [] /\
    viewport_updates tr =
      match published kmeans_fit level (mesh a) with
      | Some _ => if String.eqb level "super low" then 0%nat else 1%nat
      | None => 0%nat
      end /\
    mesh s = mesh a /\
    cancel_btn_command s = cancel_btn_command a /\
    cancel_processing s = Some false /\
    match published kmeans_fit level (mesh a) with
    | Some hs => current_hitboxes s = hs /\ forall e, o <> Raised e
    | None => current_hitboxes s = current_hitboxes a /\ exists e, o = Raised e
    end.
Proof.
  intros Hb. unfold generate_hitboxes_body, published. rewrite !bind_do.
  destruct (dict_get precision_levels level) as [p|] eqn:Hp.
  2:{ rewrite (bind_none _ _ _ eq_refl). outcome_done. }
  rewrite (bind_some _ _ _ eq_refl), bind_read_attr.
  destruct (mesh a) as [m|] eqn:Hm.
  2:{ rewrite (@bind_none _ _ AttributeError
                 (option_map vertices (mesh
                    (update_progress 10 (set_cancel_processing false
                       (set_progress_running true a))))));
        [|simpl; rewrite Hm; reflexivity].
      outcome_done. }
  assert (Hv : option_map vertices
     (mesh (update_progress 10 (set_cancel_processing false
             (set_progress_running true a)))) = Some (vertices m)).
  { simpl. rewrite Hm. reflexivity. }
  rewrite (bind_some _ _ _ Hv).
  destruct (String.eqb level "super low") eqn:Hl.
  { destruct (get_bounding_box (vertices m)) as [b|] eqn:Hbb.
    - rewrite (bind_some _ _ _ eq_refl), bind_do. outcome_done.
      intros e; discriminate.
    - rewrite (bind_none _ _ _ eq_refl). outcome_done. }
  rewrite bind_do. unfold clustered_boxes.
  destruct (kmeans_fit _ _ _) as [cs|] eqn:Hf.
  2:{ rewrite (bind_none _ _ _ eq_refl). outcome_done. }
  rewrite (bind_some _ _ _ eq_refl), bind_do. fold (job_started a).
  destruct (@for_rounds_cases cancels (vertices m) cs (job_started a)
              (@job_started_inert a Hb))
    as [[c3 [Hr E]]|[Hr [e [a' [E Ha']]]]].
  2:{ rewrite (bind_raised _ E), Hr. simpl in Ha'.
      destruct Ha' as [<-|[<-|[<-|[]]]]; outcome_done. }
  rewrite (bind_normal _ E), bind_do, Hr.
  destruct (predict c3 (vertices m)) as [labels|] eqn:Hq.
  2:{ rewrite (bind_none _ _ _ eq_refl). outcome_done. }
  rewrite (bind_some _ _ _ eq_refl).
  destruct (cluster_boxes _ _ _) as [hs|] eqn:Hc.
  2:{ rewrite (bind_none _ _ _ eq_refl). outcome_done. }
  rewrite (bind_some _ _ _ eq_refl), !bind_do. outcome_done.
  intros e; discriminate.
Qed.

End Outcomes.

Section Extras.
Variable kmeans_fit : nat -> nat -> list point -> option (list point).
Variable trimesh_load : string -> option Mesh.

Lemma generate_hitboxes_outcome cancels level a :
  cancel_btn_command a = Some (PyBool false) ->
  let a' := generate_hitboxes kmeans_fit cancels level a in
  let tr := run_trace (generate_hitboxes kmeans_fit cancels level) a in
  mesh a' = mesh a /\
  cancel_btn_command a' = cancel_btn_command a /\
  cancel_processing a' = Some false /\
  progress_running a' = false /\ progress_bar_value a' = 0%Z /\
  match published kmeans_fit level (mesh a) with
  | Some hs => current_hitboxes a' = hs /\ processing_errors tr = []
  | None => current_hitboxes a' = current_hitboxes a /\
            exists e, processing_errors tr = [e]
  end.
Proof.
  intros Hb a' tr.
  destruct (@generate_hitboxes_body_outcome kmeans_fit cancels level a Hb)
    as (o & s & tr0 & E & He & Hpe & _ & Hm & Hbtn & Hflag & Hp).
  assert (Ea : a' = match o with
                    | Raised e => finally_reset (log (Msg_processing_error e) s)
                    | _ => finally_reset s
                    end).
  { unfold a', generate_hitboxes, try_except_finally. rewrite E.
    destruct o; reflexivity. }
  assert (Et : tr = match o with
                    | Raised e => tr0 ++ [Log (Msg_processing_error e);
                                          Progress 0]
                    | _ => tr0 ++ [Progress 0]
                    end).
  { unfold tr. apply run_trace_app. fold a'. rewrite Ea.
    destruct o; events_norm; rewrite He, <- ?app_assoc; reflexivity. }
  rewrite Ea, Et.
  repeat split; try (destruct o; assumption); try (destruct o; reflexivity).
  destruct (published kmeans_fit level (mesh a)) as [hs|].
  - destruct Hp as [Hh Ho]. destruct o as [[]| |e];
      try (exfalso; exact (Ho e eq_refl));
      (split; [exact Hh|]); rewrite processing_errors_app, Hpe; reflexivity.
  - destruct Hp as [Hh [e ->]]. split; [exact Hh|].
    exists e. rewrite processing_errors_app, Hpe. reflexivity.
Qed.

Lemma published_high (m : Mesh) :
  published kmeans_fit "high" (Some m)
  = clustered_boxes kmeans_fit high_params (vertices m).
Proof. reflexivity. Qed.

Lemma process_model_outcome cancels path a :
  cancel_btn_command a = Some (PyBool false) ->
  let a' := process_model kmeans_fit trimesh_load cancels path a in
  cancel_btn_command a' = cancel_btn_command a /\
  cancel_processing a' = Some false /\
  progress_running a' = false /\ progress_bar_value a' = 0%Z /\
  match trimesh_load path with
  | None => mesh a' = mesh a /\ current_hitboxes a' = current_hitboxes a
  | Some m =>
      mesh a' = Some m /\
      current_hitboxes a' =
      match clustered_boxes kmeans_fit high_params (vertices m) with
      | Some hs => hs
      | None => current_hitboxes a
      end
  end.
Proof.
  intros Hb a'. unfold a', process_model, try_except_finally,
    process_model_body.
  rewrite !bind_do.
  destruct (trimesh_load path) as [m|] eqn:Hl.
  2:{ rewrite (bind_none _ _ _ eq_refl). repeat split; assumption. }
  rewrite (bind_some _ _ _ eq_refl), !bind_do.
  set (s := update_progress 30 (set_mesh (Some m) (update_progress 10
              (set_cancel_processing false (set_progress_running true a))))).
  destruct (@generate_hitboxes_outcome cancels "high" s Hb)
    as (Hm & Hbtn & Hflag & _ & _ & Hp).
  cbv zeta in Hp.
  change (mesh s) with (Some m) in Hp, Hm. rewrite published_high in Hp.
  unfold do_. cbn [fst snd].
  split; [exact Hbtn|]. split; [exact Hflag|]. split; [reflexivity|].
  split; [reflexivity|]. split; [exact Hm|].
  change (current_hitboxes
            (generate_hitboxes kmeans_fit cancels "high" s) =
          match clustered_boxes kmeans_fit high_params (vertices m) with
          | Some hs => hs
          | None => current_hitboxes a
          end).
  destruct (clustered_boxes kmeans_fit high_params (vertices m));
    destruct Hp as [Hh _]; exact Hh.
Qed.

Lemma generate_hitboxes_viewport cancels level a :
  cancel_btn_command a = Some (PyBool false) ->
  viewport_updates (run_trace (generate_hitboxes kmeans_fit cancels level) a) =
  match published kmeans_fit level (mesh a) with
  | Some _ => if String.eqb level "super low" then 0%nat else 1%nat
  | None => 0%nat
  end.
Proof.
  intros Hb.
  destruct (@generate_hitboxes_body_outcome kmeans_fit cancels level a Hb)
    as (o & s & tr0 & E & He & _ & Hvu & _).
  rewrite <- Hvu.
  assert (Et : run_trace (generate_hitboxes kmeans_fit cancels level) a =
               match o with
               | Raised e => tr0 ++ [Log (Msg_processing_error e); Progress 0]
               | _ => tr0 ++ [Progress 0]
               end).
  { apply run_trace_app. unfold generate_hitboxes, try_except_finally.
    rewrite E.
    destruct o; events_norm; rewrite He, <- ?app_assoc; reflexivity. }
  rewrite Et. destruct o; rewrite viewport_updates_app; simpl; lia.
Qed.

Lemma process_model_viewport cancels path a :
  cancel_btn_command a = Some (PyBool false) ->
  viewport_updates
    (run_trace (process_model kmeans_fit trimesh_load cancels path) a) =
  match trimesh_load path with
  | None => 0%nat
  | Some m =>
      match clustered_boxes kmeans_fit high_params (vertices m) with
      | Some _ => 2%nat
      | None => 1%nat
      end
  end.
Proof.
  intros Hb. destruct (trimesh_load path) as [m|] eqn:Hl.
  - rewrite (@process_model_trace kmeans_fit trimesh_load cancels path a m
               Hb Hl).
    cbv zeta. rewrite !viewport_updates_app.
    rewrite generate_hitboxes_viewport by exact Hb.
    change (mesh _) with (Some m). rewrite published_high.
    destruct (clustered_boxes kmeans_fit high_params (vertices m));
      reflexivity.
  - rewrite (@process_model_load_error kmeans_fit trimesh_load cancels path a
               Hl).
    reflexivity.
Qed.

End Extras.

Lemma cluster_boxes_ordered (vs : list point) (labels : list nat) (k : nat)
  (hs : list box) :
  cluster_boxes vs labels k = Some hs -> Forall ordered_box hs.
Proof.
  unfold cluster_boxes. intros Hc. apply mapM_Forall2 in Hc.
  induction Hc as [|i b l hs Hb _ IH]; constructor; [|exact IH].
  pose proof (get_bounding_box_cases (mask_select vs labels i)) as H.
  rewrite Hb in H. apply H.
Qed.

Lemma published_ordered
  (kmeans_fit : nat -> nat -> list point -> option (list point))
  (level : string) (m : option Mesh) (hs : list box) :
  published kmeans_fit level m = Some hs -> Forall ordered_box hs.
Proof.
  unfold published.
  destruct (dict_get precision_levels level) as [p|]; [|discriminate].
  destruct m as [m|]; [|discriminate].
  destruct (String.eqb level "super low").
  - pose proof (get_bounding_box_cases (vertices m)) as H.
    destruct (get_bounding_box (vertices m)) as [b|]; [|discriminate].
    intros [= <-]. constructor; [apply H | constructor].
  - unfold clustered_boxes.
    destruct (kmeans_fit _ _ _) as [cs|]; [|discriminate].
    destruct (refine3 _ cs) as [c3|]; [|discriminate].
    destruct (predict c3 _) as [labels|]; [|discriminate].
    apply cluster_boxes_ordered.
Qed.

Lemma In_mask_select_vertices (vs : list point) (labels : list nat) (i : nat)
  (v : point) : In v (mask_select vs labels i) -> In v vs.
Proof.
  unfold mask_select. intros H. apply in_map_iff in H.
  destruct H as [[u l] [<- H]]. apply filter_In in H. destruct H as [H _].
  exact (in_combine_l _ _ _ _ H).
Qed.

Lemma coordinate_within (f : point -> Q) (sub vs : list point) (x lo hi : Q) :
  (forall v, In v sub -> In v vs) ->
  In x (map f sub) ->
  (forall v, In v vs -> lo <= f v <= hi) ->
  lo <= x <= hi.
Proof.
  intros Hsub Hx Hb. apply in_map_iff in Hx. destruct Hx as [u [<- Hu]].
  apply Hb, Hsub, Hu.
Qed.

(** The box of a subset of the points lies inside the box of all. *)
Lemma bounding_box_subset (sub vs : list point) (b B : box) :
  (forall v, In v sub -> In v vs) ->
  get_bounding_box sub = Some b -> get_bounding_box vs = Some B ->
  inside (fst b) B /\ inside (snd b) B.
Proof.
  intros Hsub Hb HB.
  pose proof (get_bounding_box_cases sub) as Hs. rewrite Hb in Hs.
  destruct Hs as (Hne & _ & _).
  destruct (get_bounding_box_bounds Hne) as [b' [E Hmb]].
  rewrite Hb in E. injection E as <-.
  pose proof (get_bounding_box_cases vs) as HV. rewrite HB in HV.
  destruct HV as (_ & _ & Hin).
  destruct Hmb as ([X1 _] & [Y1 _] & [Z1 _] & [X2 _] & [Y2 _] & [Z2 _]).
  split; repeat split;
    match goal with
    | |- _ <= ?f (fst b) =>
        refine (proj1 (@coordinate_within f sub vs _ _ _ Hsub _ _));
          [eassumption | intros v Hv; apply (Hin v Hv)]
    | |- ?f (fst b) <= _ =>
        refine (proj2 (@coordinate_within f sub vs _ _ _ Hsub _ _));
          [eassumption | intros v Hv; apply (Hin v Hv)]
    | |- _ <= ?f (snd b) =>
        refine (proj1 (@coordinate_within f sub vs _ _ _ Hsub _ _));
          [eassumption | intros v Hv; apply (Hin v Hv)]
    | |- ?f (snd b) <= _ =>
        refine (proj2 (@coordinate_within f sub vs _ _ _ Hsub _ _));
          [eassumption | intros v Hv; apply (Hin v Hv)]
    end.
Qed.

Lemma cluster_boxes_within (vs : list point) (labels : list nat) (k : nat)
  (hs : list box) (B : box) :
  cluster_boxes vs labels k = Some hs -> get_bounding_box vs = Some B ->
  Forall (fun b => inside (fst b) B /\ inside (snd b) B) hs.
Proof.
  unfold cluster_boxes. intros Hc HB. apply mapM_Forall2 in Hc.
  induction Hc as [|i b l hs Hb _ IH]; constructor; [|exact IH].
  apply (@bounding_box_subset (mask_select vs labels i) vs b B);
    [apply In_mask_select_vertices | exact Hb | exact HB].
Qed.

Lemma published_within
  (kmeans_fit : nat -> nat -> list point -> option (list point))
  (level : string) (m : Mesh) (hs : list box) (B : box) :
  published kmeans_fit level (Some m) = Some hs ->
  get_bounding_box (vertices m) = Some B ->
  Forall (fun b => inside (fst b) B /\ inside (snd b) B) hs.
Proof.
  unfold published. intros Hp HB.
  destruct (dict_get precision_levels level) as [p|]; [|discriminate].
  destruct (String.eqb level "super low").
  - rewrite HB in Hp. injection Hp as <-.
    constructor; [|constructor].
    apply (@bounding_box_subset (vertices m) (vertices m) B B); auto.
  - unfold clustered_boxes in Hp.
    destruct (kmeans_fit _ _ _) as [cs|]; [|discriminate].
    destruct (refine3 _ cs) as [c3|]; [|discriminate].
    destruct (predict c3 _) as [labels|]; [|discriminate].
    exact (cluster_boxes_within _ _ _ Hp HB).
Qed.

Lemma published_none_without_mesh
  (kmeans_fit : nat -> nat -> list point -> option (list point))
  (level : string) : published kmeans_fit level None = None.
Proof. unfold published. destruct (dict_get _ _); reflexivity. Qed.

Lemma published_empty_mesh
  (kmeans_fit : nat -> nat -> list point -> option (list point))
  (level : string) (m : Mesh) :
  vertices m = [] -> published kmeans_fit level (Some m) = None.
Proof.
  intros Hv. unfold published, clustered_boxes. rewrite Hv.
  destruct (dict_get precision_levels level) as [p|]; [|reflexivity].
  destruct (String.eqb level "super low"); [reflexivity|].
  destruct (kmeans_fit _ _ _) as [[|c cs]|]; reflexivity.
Qed.


Section ExtraTheorems.
Variable kmeans_fit : nat -> nat -> list point -> option (list point).
Variable trimesh_load : string -> option Mesh.

Lemma ui_step_idle (a : App) (e : ui_event) :
  cancel_btn_command a = Some (PyBool false) ->
  idle a -> idle (ui_step kmeans_fit trimesh_load a e).
Proof.
  intros Hb (Ho & Hr & Hv & Hn).
  destruct e as [|path cancels|level cancels]; simpl.
  - rewrite (click_cancel_inert _ Hb). repeat split; assumption.
  - destruct (@process_model_outcome kmeans_fit trimesh_load cancels path a Hb)
      as (_ & _ & Hr' & Hv' & Hp).
    cbv zeta in Hp.
    destruct (trimesh_load path) as [m|].
    + destruct Hp as [Hm Hh]. repeat split; try assumption.
      * rewrite Hh.
        pose proof (@published_ordered kmeans_fit "high" (Some m)) as Hpo.
        rewrite published_high in Hpo.
        destruct (clustered_boxes kmeans_fit high_params (vertices m));
          [apply Hpo; reflexivity | exact Ho].
      * rewrite Hm. discriminate.
    + destruct Hp as [Hm Hh]. repeat split; try assumption.
      * rewrite Hh. exact Ho.
      * rewrite Hm, Hh. exact Hn.
  - unfold set_precision. destruct (mesh a) as [m|] eqn:Em.
    2:{ repeat split; try assumption. intros _. apply Hn. reflexivity. }
    destruct (@generate_hitboxes_outcome kmeans_fit cancels level a Hb)
      as (Hm & _ & _ & Hr' & Hv' & Hp).
    cbv zeta in Hp. repeat split; try assumption.
    + pose proof (@published_ordered kmeans_fit level (mesh a)) as Hpo.
      destruct (published kmeans_fit level (mesh a)) as [hs|];
        destruct Hp as [Hh _]; rewrite Hh;
        [apply Hpo; reflexivity | exact Ho].
    + rewrite Hm, Em. discriminate.
Qed.

Lemma fold_ui_step_idle (es : list ui_event) :
  forall a, flag_inv a -> idle a ->
    idle (fold_left (ui_step kmeans_fit trimesh_load) es a).
Proof.
  induction es as [|e es IH]; intros a Hf Ha; simpl; [exact Ha|].
  apply IH.
  - apply ui_step_flag_inv, Hf.
  - apply ui_step_idle; [apply Hf | exact Ha].
Qed.

Lemma init_idle : idle init.
Proof. repeat split. constructor. Qed.

End ExtraTheorems.

(** ** More clusters than positions *)

Lemma same_position_b_spec (p q : point) :
  same_position_b p q = true <-> same_position p q.
Proof.
  unfold same_position_b, same_position.
  rewrite !andb_true_iff, !Qeq_bool_iff. tauto.
Qed.

Lemma In_firstn_nth_error {A} (l : list A) (k : nat) (x : A) :
  In x (firstn k l) -> exists j, (j < k)%nat /\ nth_error l j = Some x.
Proof.
  revert l. induction k as [|k IH]; intros [|a l] H;
    try (cbn in H; contradiction).
  cbn in H. destruct H as [<-|H].
  - exists 0%nat. split; [lia | reflexivity].
  - destruct (IH l H) as [j [Hj E]]. exists (S j). split; [lia | exact E].
Qed.

(** The nearest-vertex search returns the first vertex at its position. *)
Lemma nearest_first_at_position (vs : list point) (c : point) (k : nat) :
  nearest vs c = Some k -> first_at_position vs k = true.
Proof.
  intros Hn. pose proof (nearest_lt _ _ Hn) as Hk.
  apply argmin_spec in Hn. destruct Hn as (d & Hd & _ & Hlt).
  unfold first_at_position.
  destruct (nth_error vs k) as [v|] eqn:Ev.
  2:{ apply nth_error_None in Ev. lia. }
  rewrite (map_nth_error (sqdist c) _ _ Ev) in Hd. injection Hd as <-.
  apply forallb_forall. intros u Hu.
  destruct (@In_firstn_nth_error _ vs k u Hu) as [j [Hj Ej]].
  destruct (same_position_b u v) eqn:Es; [|reflexivity].
  apply same_position_b_spec in Es.
  pose proof (Hlt j (sqdist c u) Hj (map_nth_error _ _ _ Ej)) as Hc.
  rewrite (sqdist_same_r c Es) in Hc. exfalso. exact (Qlt_irrefl _ Hc).
Qed.

Lemma nearest_first_indices (vs cs : list point) (closest : list nat) :
  mapM (nearest vs) cs = Some closest -> incl closest (first_indices vs).
Proof.
  intros H k Hk. apply mapM_Forall2 in H.
  apply In_nth_error in Hk. destruct Hk as [i Hi].
  destruct (Forall2_nth_error_r H Hi) as [c [_ Hc]].
  apply filter_In. split.
  - apply in_seq. pose proof (nearest_lt _ _ Hc). lia.
  - exact (@nearest_first_at_position vs c k Hc).
Qed.

Lemma repeated_entry (l : list nat) :
  ~ NoDup l ->
  exists i j x, (i < j)%nat /\ nth_error l i = Some x /\ nth_error l j = Some x.
Proof.
  induction l as [|a l IH]; intros H.
  - exfalso. apply H. constructor.
  - destruct (in_dec Nat.eq_dec a l) as [Hin|Hnin].
    + apply In_nth_error in Hin. destruct Hin as [j Hj].
      exists 0%nat, (S j), a. split; [lia|]. split; [reflexivity | exact Hj].
    + destruct IH as (i & j & x & Hij & Hi & Hj).
      { intros Hnd. apply H. constructor; assumption. }
      exists (S i), (S j), x. split; [lia|]. split; assumption.
Qed.

(** More centres than positions: two snapped centres are the same vertex. *)
Lemma crowded_centres (vs cs c1 : list point) :
  snap vs cs = Some c1 ->
  (distinct_positions vs < List.length cs)%nat ->
  exists i j c, (i < j)%nat /\ nth_error c1 i = Some c /\
                nth_error c1 j = Some c.
Proof.
  intros Hs Hlt. unfold snap in Hs.
  destruct (pairwise_distances_argmin cs vs) as [closest|] eqn:E;
    [|discriminate].
  assert (Hcs : cs <> []) by (intros ->; discriminate).
  rewrite (pairwise_distances_argmin_nonempty _ Hcs) in E.
  pose proof (mapM_length _ _ E) as Hlen.
  destruct (@repeated_entry closest) as (i & j & x & Hij & Hi & Hj).
  { intros Hnd.
    pose proof (NoDup_incl_length Hnd (@nearest_first_indices vs cs closest E)) as Hle.
    unfold distinct_positions in Hlt. lia. }
  unfold take_rows in Hs. apply mapM_Forall2 in Hs.
  destruct (Forall2_nth_error_l Hs Hi) as [c [Hci Hvi]].
  destruct (Forall2_nth_error_l Hs Hj) as [c' [Hcj Hvj]].
  assert (c' = c) by congruence. subst c'.
  exists i, j, c. split; [exact Hij|]. split; assumption.
Qed.

Lemma refine3_snap (vs cs : list point) : refine3 vs cs = snap vs cs.
Proof.
  unfold refine3. destruct (snap vs cs) as [c1|] eqn:E; [|reflexivity].
  rewrite (snap_fixed _ _ E). exact (snap_fixed _ _ E).
Qed.

(** ** Properties of the jobs *)


(** X1.  [get_bounding_box] fails exactly on an empty point set.  On a
    non-empty one the min corner is at or below the max corner on every
    axis and every point lies within the box. *)
Theorem bounding_box_encloses_points (points : list point) :
  (get_bounding_box points = None <-> points = []) /\
  forall b, get_bounding_box points = Some b ->
    ordered_box b /\ forall v, In v points -> inside v b.
Proof.
  pose proof (get_bounding_box_cases points) as H.
  destruct (get_bounding_box points) as [b|].
  - destruct H as (Hne & Ho & Hi). split.
    + split; [discriminate | intros ->; contradiction].
    + intros b' [= <-]. split; assumption.
  - split; [tauto | discriminate].
Qed.

(** X2.  A snap round is idempotent: centres that a round has put on
    vertices are left where they are by the next round, so the three
    rounds of the loop end with the centres of the first one.
    (Coordinates are exact: a vertex is at distance 0 from its own position
    and strictly farther from any other.) *)
Theorem later_rounds_change_nothing (vs cs : list point) :
  refine3 vs cs = snap vs cs /\
  forall c1, snap vs cs = Some c1 -> snap vs c1 = Some c1.
Proof.
  split; [apply refine3_snap | apply snap_fixed].
Qed.

Section JobProperties.
Variable kmeans_fit : nat -> nat -> list point -> option (list point).
Variable trimesh_load : string -> option Mesh.

(** X3.  A completed clustering run covers the mesh: when [fit] returned
    as many centres as clusters were asked for and every cluster received
    a vertex, the run stores [min(clusters, n)] boxes and every vertex lies
    within one of them. *)
Theorem completed_run_covers_mesh (cancels : nat -> nat) (level : string)
  (a : App) (m : Mesh) (p : params) (cs : list point) (hs : list box) :
  reachable kmeans_fit trimesh_load a ->
  mesh a = Some m ->
  dict_get precision_levels level = Some p ->
  level <> "super low"%string ->
  kmeans_fit (Nat.min (clusters p) (List.length (vertices m)))
             (iterations p) (vertices m) = Some cs ->
  List.length cs = Nat.min (clusters p) (List.length (vertices m)) ->
  clustered_boxes kmeans_fit p (vertices m) = Some hs ->
  current_hitboxes (generate_hitboxes kmeans_fit cancels level a) = hs /\
  List.length hs = Nat.min (clusters p) (List.length (vertices m)) /\
  forall v, In v (vertices m) -> exists b, In b hs /\ inside v b.
Proof.
  intros Hr Hm Hp Hl Hf Hlen Hc.
  apply String.eqb_neq in Hl.
  split.
  - destruct (@generate_hitboxes_outcome kmeans_fit cancels level a
                (reachable_button Hr)) as (_ & _ & _ & _ & _ & Ho).
    cbv zeta in Ho. unfold published in Ho. rewrite Hp, Hm, Hl, Hc in Ho.
    apply Ho.
  - unfold clustered_boxes in Hc. rewrite Hf in Hc.
    destruct (refine3 (vertices m) cs) as [c3|] eqn:E3; [|discriminate].
    destruct (predict c3 (vertices m)) as [labels|] eqn:Eq; [|discriminate].
    destruct (predict_labels _ _ Eq) as [Hll Hlt].
    rewrite (refine3_length _ _ E3), Hlen in Hlt.
    destruct (cluster_boxes_cover _ Hll Hlt Hc) as [Hn Hcov].
    split; [exact Hn|].
    intros v Hv. apply In_nth_error in Hv. destruct Hv as [j Hj].
    destruct (Hcov j v Hj) as (l & b & _ & Hb & Hin).
    exists b. split; [eapply nth_error_In; eassumption | exact Hin].
Qed.

(** X4.  The hitbox list changes all at once or not at all.  For any tier
    name and from any reachable state a run leaves the mesh as it is and
    ends with [progress_running = False] and the bar at 0; it either stores
    the complete list of boxes and logs no [Processing Error], or logs
    exactly one and leaves the list as it was. *)
Theorem publication_is_atomic (es : list ui_event) (cancels : nat -> nat)
  (level : string) :
  let a := run_ui kmeans_fit trimesh_load es in
  let a' := generate_hitboxes kmeans_fit cancels level a in
  let tr := run_trace (generate_hitboxes kmeans_fit cancels level) a in
  mesh a' = mesh a /\
  progress_running a' = false /\ progress_bar_value a' = 0%Z /\
  match published kmeans_fit level (mesh a) with
  | Some hs => current_hitboxes a' = hs /\ processing_errors tr = []
  | None => current_hitboxes a' = current_hitboxes a /\
            exists e, processing_errors tr = [e]
  end.
Proof.
  intros a a' tr.
  assert (Hr : reachable kmeans_fit trimesh_load a) by (exists es; reflexivity).
  destruct (@generate_hitboxes_outcome kmeans_fit cancels level a
              (reachable_button Hr)) as (H1 & _ & _ & H2 & H3 & H4).
  repeat split; assumption.
Qed.

(** X5.  Every box a run stores, at any tier, lies within the bounding
    box of the whole mesh. *)
Theorem boxes_within_mesh_bounds (es : list ui_event) (cancels : nat -> nat)
  (level : string) (m : Mesh) (hs : list box) (B : box) :
  let a := run_ui kmeans_fit trimesh_load es in
  mesh a = Some m ->
  published kmeans_fit level (Some m) = Some hs ->
  get_bounding_box (vertices m) = Some B ->
  current_hitboxes (generate_hitboxes kmeans_fit cancels level a) = hs /\
  Forall (fun b => inside (fst b) B /\ inside (snd b) B) hs.
Proof.
  intros a Hm Hp HB. split; [|exact (published_within _ _ _ Hp HB)].
  assert (Hr : reachable kmeans_fit trimesh_load a) by (exists es; reflexivity).
  destruct (@generate_hitboxes_outcome kmeans_fit cancels level a
              (reachable_button Hr)) as (_ & _ & _ & _ & _ & Ho).
  cbv zeta in Ho. rewrite Hm, Hp in Ho. apply Ho.
Qed.

(** X6.  A tier name that is not a key of [precision_levels] is reported
    and changes nothing: the run reports progress 10, logs
    [Processing Error] with the [KeyError] and resets the bar; no library
    function is called, mesh and hitboxes stay. *)
Theorem unknown_tier_is_reported (cancels : nat -> nat) (level : string)
  (a : App) :
  dict_get precision_levels level = None ->
  let a' := generate_hitboxes kmeans_fit cancels level a in
  run_trace (generate_hitboxes kmeans_fit cancels level) a =
    [Progress 10; Log (Msg_processing_error (KeyError level)); Progress 0] /\
  current_hitboxes a' = current_hitboxes a /\ mesh a' = mesh a /\
  progress_running a' = false.
Proof.
  intros Hp a'.
  assert (E : a' = finally_reset (log (Msg_processing_error (KeyError level))
                     (update_progress 10 (set_cancel_processing false
                        (set_progress_running true a))))).
  { unfold a', generate_hitboxes, try_except_finally, generate_hitboxes_body.
    rewrite !bind_do, (bind_none _ _ _ Hp). reflexivity. }
  split.
  - apply run_trace_app. fold a'. rewrite E. events_norm. reflexivity.
  - rewrite E. repeat split.
Qed.

(** X7.  On a mesh without vertices no tier produces a box: every run
    logs exactly one [Processing Error] and leaves the hitbox list as it
    was. *)
Theorem empty_mesh_never_decomposes (es : list ui_event) (m : Mesh)
  (cancels : nat -> nat) (level : string) :
  let a := run_ui kmeans_fit trimesh_load es in
  mesh a = Some m -> vertices m = [] ->
  current_hitboxes (generate_hitboxes kmeans_fit cancels level a)
  = current_hitboxes a /\
  exists e,
    processing_errors
      (run_trace (generate_hitboxes kmeans_fit cancels level) a) = [e].
Proof.
  intros a Hm Hv.
  assert (Hr : reachable kmeans_fit trimesh_load a) by (exists es; reflexivity).
  destruct (@generate_hitboxes_outcome kmeans_fit cancels level a
              (reachable_button Hr)) as (_ & _ & _ & _ & _ & Ho).
  cbv zeta in Ho. rewrite Hm, (published_empty_mesh kmeans_fit level _ Hv) in Ho.
  exact Ho.
Qed.

(** X8.  [process_model] replaces the mesh as soon as the file is read,
    whatever the decomposition does afterwards: if the decomposition of
    the new mesh fails, the hitboxes stored before the load stay, next to
    the new mesh.  When the file cannot be read, mesh and hitboxes both
    stay. *)
Theorem load_replaces_mesh_keeps_stale_boxes (es : list ui_event)
  (cancels : nat -> nat) (path : string) :
  let a := run_ui kmeans_fit trimesh_load es in
  let a' := process_model kmeans_fit trimesh_load cancels path a in
  match trimesh_load path with
  | None => mesh a' = mesh a /\ current_hitboxes a' = current_hitboxes a
  | Some m =>
      mesh a' = Some m /\
      current_hitboxes a' =
      match clustered_boxes kmeans_fit high_params (vertices m) with
      | Some hs => hs
      | None => current_hitboxes a
      end
  end.
Proof.
  intros a a'.
  assert (Hr : reachable kmeans_fit trimesh_load a) by (exists es; reflexivity).
  apply (@process_model_outcome kmeans_fit trimesh_load cancels path a
           (reachable_button Hr)).
Qed.

(** X9.  Between jobs, that is after any sequence of loads, tier
    selections and clicks on Cancel: every stored hitbox has its min corner
    at or below its max corner on every axis, [progress_running] is
    [False], the bar is at 0, and there are hitboxes only if there is a
    mesh. *)
Theorem idle_state_invariant (es : list ui_event) :
  let a := run_ui kmeans_fit trimesh_load es in
  Forall ordered_box (current_hitboxes a) /\
  progress_running a = false /\ progress_bar_value a = 0%Z /\
  (mesh a = None -> current_hitboxes a = []).
Proof.
  intros a. unfold a, run_ui.
  apply (fold_ui_step_idle kmeans_fit trimesh_load es);
    [|exact init_idle].
  split; [apply init_inert | constructor].
Qed.

(** X21.  A decomposition run schedules a viewport update exactly when it
    completes at a clustering tier: a failed run schedules none, and
    neither does a run at the tier [super low], which stores its box and
    returns before the update is scheduled.  A load schedules one update
    of its own once the file is read: two in all when the decomposition
    completes, one when it fails, none when the file cannot be read. *)
Theorem viewport_update_follows_completion (es : list ui_event)
  (cancels : nat -> nat) :
  let a := run_ui kmeans_fit trimesh_load es in
  (forall level,
     viewport_updates
       (run_trace (generate_hitboxes kmeans_fit cancels level) a) =
     match published kmeans_fit level (mesh a) with
     | Some _ => if String.eqb level "super low" then 0%nat else 1%nat
     | None => 0%nat
     end) /\
  (forall path,
     viewport_updates
       (run_trace (process_model kmeans_fit trimesh_load cancels path) a) =
     match trimesh_load path with
     | None => 0%nat
     | Some m =>
         match clustered_boxes kmeans_fit high_params (vertices m) with
         | Some _ => 2%nat
         | None => 1%nat
         end
     end).
Proof.
  intros a.
  assert (Hr : reachable kmeans_fit trimesh_load a) by (exists es; reflexivity).
  pose proof (reachable_button Hr) as Hb.
  split.
  - intros level. apply generate_hitboxes_viewport, Hb.
  - intros path. apply process_model_viewport, Hb.
Qed.

(** X22.  A mesh with fewer distinct vertex positions than clusters asked
    for cannot be decomposed: whatever centres [fit] returns, as many as
    asked for, two of the snapped centres are the same vertex, one cluster
    stays empty, and the run fails with the [ValueError] of
    [get_bounding_box] on the empty selection, leaving the hitbox list as
    it was.  In particular a mesh with at most [clusters] vertices fails
    as soon as two of its vertices share a position. *)
Theorem too_few_positions_fail (cancels : nat -> nat) (level : string)
  (a : App) (m : Mesh) (p : params) (cs : list point) :
  reachable kmeans_fit trimesh_load a ->
  mesh a = Some m ->
  dict_get precision_levels level = Some p ->
  level <> "super low"%string ->
  kmeans_fit (Nat.min (clusters p) (List.length (vertices m)))
             (iterations p) (vertices m) = Some cs ->
  List.length cs = Nat.min (clusters p) (List.length (vertices m)) ->
  (distinct_positions (vertices m)
   < Nat.min (clusters p) (List.length (vertices m)))%nat ->
  current_hitboxes (generate_hitboxes kmeans_fit cancels level a)
  = current_hitboxes a /\
  processing_errors
    (run_trace (generate_hitboxes kmeans_fit cancels level) a)
  = [ValueError_zero_size].
Proof.
  intros Hr Hm Hp Hl Hf Hlen Hlt.
  apply String.eqb_neq in Hl.
  assert (Hvs : vertices m <> []).
  { intros E. rewrite E in Hlt. cbn in Hlt. lia. }
  assert (Hcs : cs <> []).
  { intros E. rewrite E in Hlen. cbn in Hlen. lia. }
  destruct (refine3_some Hvs Hcs) as (c1 & _ & c3 & Hs & _ & _ & Hr3 & _).
  rewrite refine3_snap, Hs in Hr3. injection Hr3 as <-.
  rewrite <- Hlen in Hlt.
  destruct (@crowded_centres (vertices m) cs c1 Hs Hlt) as (i & j & c & Hij & Hi & Hj).
  assert (Hr3 : refine3 (vertices m) cs = Some c1)
    by (rewrite refine3_snap; exact Hs).
  destruct (@coinciding_centres_fail kmeans_fit cancels level a m p cs c1 c
              i j (reachable_button Hr) Hm Hp Hl Hf Hlen Hr3 Hi Hj Hij)
    as (labels & _ & _ & _ & E).
  destruct (failed_run_trace kmeans_fit cancels level E) as [Hh Ht].
  split; [exact Hh|]. rewrite Ht. reflexivity.
Qed.

End JobProperties.

(** ** Examples *)

(** X3: the triangle at the tier [high]. *)
Lemma completed_run_covers_mesh_witness :
  let hs := current_hitboxes
              (generate_hitboxes fit_first_rows no_cancels "high"
                 triangle_loaded) in
  List.length hs = 3%nat /\
  forall v, In v (vertices triangle) -> exists b, In b hs /\ inside v b.
Proof.
  intros hs.
  destruct (@completed_run_covers_mesh fit_first_rows load_triangle no_cancels
              "high" triangle_loaded triangle high_params (vertices triangle)
              [(pt 0 0 0, pt 0 0 0); (pt 1 0 0, pt 1 0 0);
               (pt 0 1 0, pt 0 1 0)])
    as (H1 & H2 & H3).
  - exists [Click_load "triangle.obj" no_cancels]. reflexivity.
  - reflexivity.
  - reflexivity.
  - discriminate.
  - reflexivity.
  - reflexivity.
  - vm_compute. reflexivity.
  - unfold hs. rewrite H1. split; [reflexivity | exact H3].
Defined.

(** X6: a tier name the table does not have. *)
Lemma unknown_tier_witness :
  run_trace (generate_hitboxes fit_first_rows no_cancels "extreme")
    triangle_loaded =
  [Progress 10; Log (Msg_processing_error (KeyError "extreme")); Progress 0].
Proof.
  apply (@unknown_tier_is_reported fit_first_rows no_cancels "extreme"
           triangle_loaded).
  reflexivity.
Defined.

(** X7: a file without vertices, then the tier [super low]. *)
Lemma empty_mesh_witness :
  current_hitboxes
    (generate_hitboxes fit_first_rows no_cancels "super low" empty_loaded)
  = current_hitboxes empty_loaded.
Proof.
  apply (@empty_mesh_never_decomposes fit_first_rows load_empty
           [Click_load "empty.obj" no_cancels] empty_mesh no_cancels
           "super low").
  - vm_compute. reflexivity.
  - reflexivity.
Defined.

(** X5: the boxes of the triangle within the triangle's own box. *)
Lemma boxes_within_witness :
  Forall (fun b => inside (fst b) (pt 0 0 0, pt 1 1 0) /\
                   inside (snd b) (pt 0 0 0, pt 1 1 0))
    [(pt 0 0 0, pt 0 0 0); (pt 1 0 0, pt 1 0 0); (pt 0 1 0, pt 0 1 0)].
Proof.
  apply (@boxes_within_mesh_bounds fit_first_rows load_triangle
           [Click_load "triangle.obj" no_cancels] no_cancels "high" triangle
           [(pt 0 0 0, pt 0 0 0); (pt 1 0 0, pt 1 0 0); (pt 0 1 0, pt 0 1 0)]
           (pt 0 0 0, pt 1 1 0)).
  - reflexivity.
  - vm_compute. reflexivity.
  - vm_compute. reflexivity.
Defined.

(** * The wireframe and the exported primitives *)

Ltac try_edge d b1 b2 :=
  exists d, b1, b2; first [left; reflexivity | right; reflexivity].

Ltac find_edge :=
  first
    [ try_edge X_axis false false | try_edge X_axis false true
    | try_edge X_axis true false | try_edge X_axis true true
    | try_edge Y_axis false false | try_edge Y_axis false true
    | try_edge Y_axis true false | try_edge Y_axis true true
    | try_edge Z_axis false false | try_edge Z_axis false true
    | try_edge Z_axis true false | try_edge Z_axis true true ].

Lemma draw_voxel_total (minc maxc : point) :
  exists segs,
    draw_voxel minc maxc = Some segs /\ List.length segs = 12%nat.
Proof. eexists. split; reflexivity. Qed.

(** X10.  [draw_voxel] never fails and draws the box itself: twelve
    segments, each an edge of the box between [minc] and [maxc] (parallel
    to one axis, its ends two corners), and every one of the twelve edges
    of the box is among them. *)
Theorem wireframe_is_the_box (minc maxc : point) :
  exists segs,
    draw_voxel minc maxc = Some segs /\ List.length segs = 12%nat /\
    (forall d b1 b2,
       In (box_edge minc maxc d b1 b2) segs \/
       In (reversed (box_edge minc maxc d b1 b2)) segs) /\
    Forall (fun s => exists d b1 b2,
              s = box_edge minc maxc d b1 b2 \/
              s = reversed (box_edge minc maxc d b1 b2)) segs.
Proof.
  eexists. split; [reflexivity|]. split; [reflexivity|]. split.
  - intros [| |] [|] [|]; cbn; tauto.
  - repeat (apply Forall_cons; [find_edge|]). apply Forall_nil.
Qed.

Lemma primitive_bounds_hitbox (h : box) :
  same_position (fst (primitive_bounds (hitbox_primitive h))) (fst h) /\
  same_position (snd (primitive_bounds (hitbox_primitive h))) (snd h).
Proof.
  unfold same_position, primitive_bounds, hitbox_primitive, psub, padd, phalf,
    px, py, pz. cbn [fst snd extents translation].
  repeat split; field.
Qed.

Lemma ordered_box_extents (h : box) :
  ordered_box h -> nonnegative (extents (hitbox_primitive h)).
Proof.
  intros (H1 & H2 & H3).
  unfold nonnegative, hitbox_primitive, psub, px, py, pz in *.
  cbn [fst snd extents] in *. repeat split; lra.
Qed.

(** * Camera *)

Lemma py_max_ge (a b : Q) : a <= py_max a b.
Proof.
  unfold py_max. destruct (Qltb a b) eqn:E.
  - apply Qltb_lt in E. apply Qlt_le_weak, E.
  - apply Qle_refl.
Qed.

Lemma py_max_r (a b : Q) : a <= b -> py_max a b == b.
Proof.
  intros H. unfold py_max. destruct (Qltb a b) eqn:E; [reflexivity|].
  apply Qltb_ge in E. apply Qle_antisym; assumption.
Qed.

Lemma py_max_l (a b : Q) : b <= a -> py_max a b == a.
Proof.
  intros H. unfold py_max. destruct (Qltb a b) eqn:E; [|reflexivity].
  apply Qltb_lt in E. exfalso. apply (Qlt_irrefl a).
  eapply Qlt_le_trans; eassumption.
Qed.

Lemma view_of_limits (c : camera) :
  0.5 <= distance c ->
  fst (xlim3d (view_of c)) < snd (xlim3d (view_of c)) /\
  fst (ylim3d (view_of c)) < snd (ylim3d (view_of c)).
Proof. intros H. cbn. split; lra. Qed.

Section WindowProofs.
Variable kmeans_fit : nat -> nat -> list point -> option (list point).
Variable trimesh_load : string -> option Mesh.
Variable mesh_truthy : Mesh -> bool.
Variable trimesh_bounds : Mesh -> option box.
Variable plot_trisurf_ok : Mesh -> bool.

Abbreviation process_command' :=
  (process_command mesh_truthy trimesh_bounds).
Abbreviation update_viewport' :=
  (update_viewport mesh_truthy plot_trisurf_ok).
Abbreviation gui_step' :=
  (gui_step kmeans_fit trimesh_load mesh_truthy trimesh_bounds
     plot_trisurf_ok).
Abbreviation gui_run' :=
  (gui_run kmeans_fit trimesh_load mesh_truthy trimesh_bounds
     plot_trisurf_ok).

(** The five ways [process_command] can go. *)
Lemma process_command_cases (g : Gui) :
  let cmd := str_lower (str_strip (cmd_entry g)) in
  let g1 := set_cmd_entry "" g in
  (cmd = "clear"%string /\ process_command' g = clear_console g1) \/
  (cmd = "reset"%string /\ process_command' g = reset_camera g1) \/
  (cmd = "help"%string /\ process_command' g = show_help g1) \/
  (cmd = "info"%string /\
   process_command' g = show_info mesh_truthy trimesh_bounds g1) \/
  (cmd <> "clear"%string /\ cmd <> "reset"%string /\ cmd <> "help"%string /\
   cmd <> "info"%string /\
   process_command' g = gui_log (Line_unknown_command cmd) g1).
Proof.
  intros cmd g1. unfold process_command, commands. fold cmd. fold g1.
  cbn [dict_get].
  destruct (String.eqb_spec "clear" cmd) as [E1|N1]; [left; auto|].
  destruct (String.eqb_spec "reset" cmd) as [E2|N2]; [right; left; auto|].
  destruct (String.eqb_spec "help" cmd) as [E3|N3];
    [right; right; left; auto|].
  destruct (String.eqb_spec "info" cmd) as [E4|N4];
    [right; right; right; left; auto|].
  right; right; right; right. repeat split; congruence.
Qed.

Lemma show_info_log (g : Gui) :
  exists l, show_info mesh_truthy trimesh_bounds g = gui_log l g.
Proof.
  unfold show_info. destruct (mesh_is_true mesh_truthy g); eexists; reflexivity.
Qed.

Lemma update_viewport_cases (g : Gui) :
  exists x,
    (update_viewport' g = set_ax x g \/
     update_viewport' g = update_camera (set_ax x g)).
Proof.
  unfold update_viewport.
  destruct (mesh_is_true mesh_truthy g) as [m|].
  - destruct (plot_trisurf_ok m).
    + destruct (mapM _ _) as [ws|].
      * eexists. right. reflexivity.
      * eexists. left. reflexivity.
    + eexists. left. reflexivity.
  - eexists. right. reflexivity.
Qed.

Lemma update_viewport_view (g : Gui) :
  camera_state (update_viewport' g) = camera_state g /\
  (forall v, view (ax (update_viewport' g)) = Some v ->
             v = view_of (camera_state g)).
Proof.
  unfold update_viewport.
  destruct (mesh_is_true mesh_truthy g) as [m|].
  - destruct (plot_trisurf_ok m).
    + destruct (mapM _ _) as [ws|]; cbn; (split; [reflexivity|]);
        intros v; [intros [= <-]; reflexivity | discriminate].
    + cbn. split; [reflexivity | discriminate].
  - cbn. split; [reflexivity|]. intros v [= <-]. reflexivity.
Qed.

Lemma camera_inv_update (c : camera) (g : Gui) :
  0.5 <= distance c ->
  camera_inv (update_camera (set_camera_state c g)).
Proof.
  intros H. split; [exact H|]. cbn. intros v [= <-]. reflexivity.
Qed.

Lemma gui_step_camera_inv (g : Gui) (e : gui_event) :
  camera_inv g -> camera_inv (gui_step' g e).
Proof.
  intros [Hd Hv].
  destruct e as [chosen cancels|level cancels| | |e|e|e|k|typed];
    cbn [gui_step].
  - unfold load_model. destruct (String.eqb chosen "");
      split; [exact Hd | exact Hv | exact Hd | exact Hv].
  - split; [exact Hd | exact Hv].
  - split; [exact Hd | exact Hv].
  - destruct (update_viewport_view g) as [Hc Hview].
    split; [rewrite Hc; exact Hd|]. rewrite Hc. exact Hview.
  - split; [exact Hd | exact Hv].
  - unfold on_mouse_move.
    destruct (is_button_1 (event_button e)); [|split; assumption].
    destruct (last_mouse_pos g) as [last|]; [|split; assumption].
    split; [exact Hd|]. cbn. intros v [= <-]. reflexivity.
  - apply camera_inv_update. cbn [distance]. apply py_max_ge.
  - unfold move_camera. cbv zeta.
    apply camera_inv_update.
    repeat match goal with
           | |- context [String.eqb ?a ?b] => destruct (String.eqb a b)
           end; exact Hd.
  - destruct (process_command_cases (set_cmd_entry typed g))
      as [[_ E]|[[_ E]|[[_ E]|[[_ E]|(_ & _ & _ & _ & E)]]]]; rewrite E.
    + split; [exact Hd | exact Hv].
    + split; [cbn; lra|]. cbn. intros v [= <-]. reflexivity.
    + split; [exact Hd | exact Hv].
    + destruct (show_info_log (set_cmd_entry "" (set_cmd_entry typed g)))
        as [l ->].
      split; [exact Hd | exact Hv].
    + split; [exact Hd | exact Hv].
Qed.

Lemma gui_init_camera_inv : camera_inv gui_init.
Proof. split; [cbn; lra | discriminate]. Qed.

Lemma gui_run_camera_inv (es : list gui_event) : camera_inv (gui_run' es).
Proof.
  unfold gui_run.
  assert (G : forall g, camera_inv g -> camera_inv (fold_left gui_step' es g)).
  { induction es as [|e es IH]; intros g Hg; simpl; [exact Hg|].
    apply IH, gui_step_camera_inv, Hg. }
  apply G, gui_init_camera_inv.
Qed.

End WindowProofs.

(** * Zoom, pan and drag *)

Lemma on_scroll_distance (e : mouse_event) (g : Gui) :
  distance (camera_state (on_scroll e g)) =
  py_max 0.5 (distance (camera_state g)
              - (if is_up (event_button e) then 0.1 else - 0.1)).
Proof. reflexivity. Qed.


Lemma move_camera_state (direction : string) (g : Gui) :
  camera_state (move_camera direction g) =
  let c := camera_state g in
  let move_speed := 0.1 * distance c in
  if String.eqb direction "left" then
    {| elev := elev c; azim := azim c; distance := distance c;
       x_center := x_center c + move_speed; y_center := y_center c |}
  else if String.eqb direction "right" then
    {| elev := elev c; azim := azim c; distance := distance c;
       x_center := x_center c - move_speed; y_center := y_center c |}
  else if String.eqb direction "up" then
    {| elev := elev c; azim := azim c; distance := distance c;
       x_center := x_center c; y_center := y_center c - move_speed |}
  else if String.eqb direction "down" then
    {| elev := elev c; azim := azim c; distance := distance c;
       x_center := x_center c; y_center := y_center c + move_speed |}
  else c.
Proof. reflexivity. Qed.


Lemma last_default {A} (l : list A) (x y : A) :
  l <> [] -> last l x = last l y.
Proof.
  induction l as [|a [|b l] IH]; intros H; [contradiction|reflexivity|].
  change (last (b :: l) x = last (b :: l) y). apply IH. discriminate.
Qed.

Lemma last_cons {A} (l : list A) (a d : A) : last (a :: l) d = last l a.
Proof.
  destruct l as [|b l]; [reflexivity|].
  change (last (b :: l) d = last (b :: l) a). apply last_default. discriminate.
Qed.

Lemma on_mouse_move_held (x y : Q) (g : Gui) (last : Q * Q) :
  last_mouse_pos g = Some last ->
  on_mouse_move {| event_button := Button_number 1;
                   event_x := x; event_y := y |} g =
  Some (set_last_mouse_pos (x, y)
          (update_camera
             (set_camera_state
                {| elev := elev (camera_state g) + (y - snd last) * 0.5;
                   azim := azim (camera_state g) - (x - fst last) * 0.5;
                   distance := distance (camera_state g);
                   x_center := x_center (camera_state g);
                   y_center := y_center (camera_state g) |} g))).
Proof. intros H. unfold on_mouse_move. cbn. rewrite H. reflexivity. Qed.

Lemma drag_from (positions : list (Q * Q)) :
  forall (g : Gui) (p : Q * Q),
    last_mouse_pos g = Some p ->
    exists g',
      drag positions g = Some g' /\
      last_mouse_pos g' = Some (last positions p) /\
      azim (camera_state g') ==
        azim (camera_state g) - (fst (last positions p) - fst p) * 0.5 /\
      elev (camera_state g') ==
        elev (camera_state g) + (snd (last positions p) - snd p) * 0.5 /\
      distance (camera_state g') = distance (camera_state g) /\
      x_center (camera_state g') = x_center (camera_state g) /\
      y_center (camera_state g') = y_center (camera_state g) /\
      core g' = core g.
Proof.
  induction positions as [|q rest IH]; intros g p Hp.
  - exists g. cbn. repeat split; try assumption; try reflexivity; lra.
  - destruct q as [qx qy]. cbn [drag fst snd].
    rewrite (on_mouse_move_held _ _ _ Hp).
    match goal with
    | |- context [drag rest ?s] =>
        destruct (IH s (qx, qy) eq_refl)
          as (g' & E & Hl & Ha & He & Hd & Hx & Hy & Hc)
    end.
    exists g'. rewrite last_cons.
    split; [exact E|]. split; [exact Hl|].
    cbn in Ha, He, Hd, Hx, Hy, Hc.
    repeat split; try assumption.
    + rewrite Ha. cbn. lra.
    + rewrite He. cbn. lra.
Qed.

(** X15.  A drag only counts from where it started to where it ended:
    after a press at [start] and motion events (button 1 held) through any
    positions, no handler has raised, the azimuth has changed by minus half
    the horizontal and the elevation by plus half the vertical offset
    between the first and the last position, and distance and centre are
    untouched. *)
Theorem drag_adds_up (g : Gui) (start : Q * Q) (positions : list (Q * Q)) :
  let press := {| event_button := Button_number 1;
                  event_x := fst start; event_y := snd start |} in
  let final := last positions start in
  exists g',
    drag positions (on_mouse_press press g) = Some g' /\
    last_mouse_pos g' = Some final /\
    azim (camera_state g') ==
      azim (camera_state g) - (fst final - fst start) * 0.5 /\
    elev (camera_state g') ==
      elev (camera_state g) + (snd final - snd start) * 0.5 /\
    distance (camera_state g') = distance (camera_state g) /\
    x_center (camera_state g') = x_center (camera_state g) /\
    y_center (camera_state g') = y_center (camera_state g).
Proof.
  intros press final.
  destruct (@drag_from positions (on_mouse_press press g) start)
    as (g' & E & Hl & Ha & He & Hd & Hx & Hy & _).
  - destruct start; reflexivity.
  - exists g'. repeat split; assumption.
Qed.

(** * [str.strip] and [str.lower] *)

Lemma isspace_lower_char (c : ascii) : isspace (lower_char c) = isspace c.
Proof. destruct c as [[] [] [] [] [] [] [] []]; reflexivity. Qed.

Lemma lower_char_idempotent (c : ascii) :
  lower_char (lower_char c) = lower_char c.
Proof. destruct c as [[] [] [] [] [] [] [] []]; reflexivity. Qed.

Lemma lstrip_map_lower (t : text) :
  lstrip (map lower_char t) = map lower_char (lstrip t).
Proof.
  induction t as [|c t IH]; [reflexivity|].
  cbn [map lstrip]. rewrite isspace_lower_char.
  destruct (isspace c); [exact IH | reflexivity].
Qed.

Lemma strip_map_lower (t : text) :
  strip_text (map lower_char t) = map lower_char (strip_text t).
Proof.
  unfold strip_text.
  rewrite lstrip_map_lower, <- map_rev, lstrip_map_lower, <- map_rev.
  reflexivity.
Qed.

Lemma lstrip_cases (t : text) :
  lstrip t = [] \/ exists c r, lstrip t = c :: r /\ isspace c = false.
Proof.
  induction t as [|c t IH]; [left; reflexivity|].
  cbn [lstrip]. destruct (isspace c) eqn:E; [exact IH|].
  right. exists c, t. split; [reflexivity | exact E].
Qed.

Lemma lstrip_clean (c : ascii) (r : text) :
  isspace c = false -> lstrip (c :: r) = c :: r.
Proof. intros H. cbn [lstrip]. rewrite H. reflexivity. Qed.

Lemma lstrip_idempotent (t : text) : lstrip (lstrip t) = lstrip t.
Proof.
  destruct (lstrip_cases t) as [->|(c & r & -> & H)];
    [reflexivity | apply (@lstrip_clean c r H)].
Qed.

Lemma lstrip_snoc (l : text) (c : ascii) :
  isspace c = false -> exists w, lstrip (l ++ [c]) = w ++ [c].
Proof.
  intros H. induction l as [|a l IH].
  - exists []. cbn. rewrite H. reflexivity.
  - cbn [app lstrip]. destruct (isspace a); [exact IH|].
    exists (a :: l). reflexivity.
Qed.

Lemma strip_idempotent (t : text) : strip_text (strip_text t) = strip_text t.
Proof.
  unfold strip_text at 2 3.
  destruct (lstrip_cases t) as [->|(c & r & -> & H)]; [reflexivity|].
  cbn [rev]. destruct (@lstrip_snoc (rev r) c H) as [w Hw].
  assert (Hr : lstrip (lstrip (rev r ++ [c])) = lstrip (rev r ++ [c]))
    by apply lstrip_idempotent.
  rewrite Hw in *. rewrite rev_app_distr. cbn [rev app].
  unfold strip_text. rewrite (@lstrip_clean c (rev w) H).
  cbn [rev]. rewrite rev_involutive, Hr, rev_app_distr. reflexivity.
Qed.

Lemma chars_of_text (t : text) : chars (string_of_list_ascii t) = t.
Proof. apply list_ascii_of_string_of_list_ascii. Qed.

(** The normal form of an entry text is its own normal form. *)
Lemma normal_form_idempotent (s : string) :
  str_lower (str_strip (str_lower (str_strip s))) = str_lower (str_strip s).
Proof.
  unfold str_lower, str_strip. rewrite !chars_of_text. f_equal.
  rewrite strip_map_lower, strip_idempotent, map_map.
  apply map_ext. apply lower_char_idempotent.
Qed.

(** * The window as a whole *)

Lemma draw_all (hs : list box) :
  exists ws,
    mapM (fun h => draw_voxel (fst h) (snd h)) hs = Some ws /\
    Forall2 (fun h w => draw_voxel (fst h) (snd h) = Some w /\
                        List.length w = 12%nat) hs ws.
Proof.
  induction hs as [|h hs [ws [E F]]].
  - exists []. split; [reflexivity | constructor].
  - destruct (draw_voxel_total (fst h) (snd h)) as (w & Hw & Hl).
    exists (w :: ws). split.
    + cbn [mapM]. rewrite Hw, E. reflexivity.
    + constructor; [split; assumption | exact F].
Qed.

Section WindowTheorems.
Variable kmeans_fit : nat -> nat -> list point -> option (list point).
Variable trimesh_load : string -> option Mesh.
Variable mesh_truthy : Mesh -> bool.
Variable trimesh_bounds : Mesh -> option box.
Variable plot_trisurf_ok : Mesh -> bool.

Abbreviation process_command' :=
  (process_command mesh_truthy trimesh_bounds).
Abbreviation update_viewport' :=
  (update_viewport mesh_truthy plot_trisurf_ok).
Abbreviation gui_step' :=
  (gui_step kmeans_fit trimesh_load mesh_truthy trimesh_bounds
     plot_trisurf_ok).
Abbreviation gui_run' :=
  (gui_run kmeans_fit trimesh_load mesh_truthy trimesh_bounds
     plot_trisurf_ok).

(** What a command leaves alone. *)
Lemma process_command_frame (g : Gui) :
  let g' := process_command' g in
  core g' = core g /\ last_mouse_pos g' = last_mouse_pos g /\
  cmd_entry g' = ""%string /\
  surface (ax g') = surface (ax g) /\ wireframes (ax g') = wireframes (ax g).
Proof.
  destruct (process_command_cases mesh_truthy trimesh_bounds g)
    as [[_ E]|[[_ E]|[[_ E]|[[_ E]|(_ & _ & _ & _ & E)]]]];
    cbv zeta; rewrite E; try (repeat split; reflexivity).
  destruct (show_info_log mesh_truthy trimesh_bounds (set_cmd_entry "" g))
    as [l ->].
  repeat split; reflexivity.
Qed.

Lemma gui_step_core (g : Gui) (e : gui_event) :
  core (gui_step' g e) =
  fold_left (ui_step kmeans_fit trimesh_load) (jobs_of [e]) (core g).
Proof.
  destruct e as [chosen cancels|level cancels| | |e|e|e|k|typed];
    cbn [gui_step jobs_of fold_left]; try reflexivity.
  - unfold load_model. destruct (String.eqb chosen ""); reflexivity.
  - destruct (update_viewport_cases mesh_truthy plot_trisurf_ok g)
      as [x [-> | ->]]; reflexivity.
  - unfold on_mouse_move. destruct (is_button_1 _); [|reflexivity].
    destruct (last_mouse_pos g); reflexivity.
  - apply (process_command_frame (set_cmd_entry typed g)).
Qed.

Lemma gui_step_last_mouse_pos (g : Gui) (e : gui_event) :
  last_mouse_pos (gui_step' g e) = None <->
  last_mouse_pos g = None /\ is_press e = false.
Proof.
  destruct e as [chosen cancels|level cancels| | |e|e|e|k|typed];
    cbn [gui_step is_press]; try (cbn; tauto).
  - unfold load_model. destruct (String.eqb chosen ""); cbn; tauto.
  - destruct (update_viewport_cases mesh_truthy plot_trisurf_ok g)
      as [x [-> | ->]]; cbn; tauto.
  - cbn. split; [discriminate | intros [_ H]; discriminate].
  - unfold on_mouse_move. destruct (is_button_1 _); [|tauto].
    destruct (last_mouse_pos g) eqn:E; [|tauto].
    cbn. split; [discriminate | intros [H _]; discriminate].
  - destruct (process_command_frame (set_cmd_entry typed g))
      as (_ & -> & _). cbn. tauto.
Qed.

Lemma fold_gui_last_mouse_pos (es : list gui_event) :
  forall g,
    last_mouse_pos (fold_left gui_step' es g) = None <->
    last_mouse_pos g = None /\ pressed es = false.
Proof.
  induction es as [|e es IH]; intros g; cbn [fold_left pressed existsb].
  - tauto.
  - rewrite IH, gui_step_last_mouse_pos. fold (pressed es).
    rewrite orb_false_iff. tauto.
Qed.

Lemma jobs_of_app (es es' : list gui_event) :
  jobs_of (es ++ es') = jobs_of es ++ jobs_of es'.
Proof.
  induction es as [|e es IH]; [reflexivity|].
  destruct e as [chosen cancels|level cancels| | |e|e|e|k|typed];
    cbn [app jobs_of]; rewrite ?IH; try reflexivity.
  destruct (String.eqb chosen ""); reflexivity.
Qed.

Lemma gui_run_core (es : list gui_event) :
  core (gui_run' es) = run_ui kmeans_fit trimesh_load (jobs_of es).
Proof.
  unfold gui_run, run_ui.
  change init with (core gui_init). generalize gui_init.
  induction es as [|e es IH]; intros g; [reflexivity|].
  cbn [fold_left]. rewrite IH, gui_step_core.
  change (e :: es) with ([e] ++ es).
  rewrite jobs_of_app, fold_left_app. reflexivity.
Qed.

Lemma gui_run_button (es : list gui_event) :
  cancel_btn_command (core (gui_run' es)) = Some (PyBool false).
Proof.
  rewrite gui_run_core. apply (@reachable_button kmeans_fit trimesh_load).
  exists (jobs_of es). reflexivity.
Qed.

(** X19.  The viewport, camera, mouse, keyboard and console handlers never
    touch the attributes of the jobs: after any sequence of window events
    the job state is the one the jobs among them produce on their own, so
    it is a reachable state of the job model. *)
Theorem window_leaves_jobs_alone (es : list gui_event) :
  core (gui_run' es) = run_ui kmeans_fit trimesh_load (jobs_of es) /\
  reachable kmeans_fit trimesh_load (core (gui_run' es)).
Proof.
  split; [apply gui_run_core|].
  exists (jobs_of es). apply gui_run_core.
Qed.

(** X12.  After any sequence of window events the camera distance is at
    least 0.5, and a view set on the axes is the one [update_camera]
    computes from the current camera state, whose x and y limits are
    strictly ordered (never equal, never inverted). *)
Theorem camera_stays_in_range (es : list gui_event) :
  let g := gui_run' es in
  0.5 <= distance (camera_state g) /\
  forall v, view (ax g) = Some v ->
    v = view_of (camera_state g) /\
    fst (xlim3d v) < snd (xlim3d v) /\ fst (ylim3d v) < snd (ylim3d v).
Proof.
  intros g.
  destruct (gui_run_camera_inv kmeans_fit trimesh_load mesh_truthy
              trimesh_bounds plot_trisurf_ok es) as [Hd Hv].
  fold g in Hd, Hv. split; [exact Hd|].
  intros v E. rewrite (Hv v E). split; [reflexivity|].
  apply view_of_limits, Hd.
Qed.

(** X16.  [last_mouse_pos] exists exactly when a button press has been
    handled; a motion event raises (AttributeError) exactly when it
    carries button 1 and no press has been handled yet. *)
Theorem motion_before_first_press (es : list gui_event) (e : mouse_event) :
  let g := gui_run' es in
  (last_mouse_pos g = None <-> pressed es = false) /\
  (on_mouse_move e g = None <->
   is_button_1 (event_button e) = true /\ pressed es = false).
Proof.
  intros g.
  assert (H : last_mouse_pos g = None <-> pressed es = false).
  { unfold g, gui_run. rewrite fold_gui_last_mouse_pos. cbn. tauto. }
  split; [exact H|].
  unfold on_mouse_move. destruct (is_button_1 (event_button e)).
  - destruct (last_mouse_pos g) eqn:E.
    + split; [discriminate|]. intros [_ Hp]. apply H in Hp. discriminate.
    + split; [|reflexivity]. intros _. split; [reflexivity | apply H; reflexivity].
  - split; [discriminate | intros [Hb _]; discriminate].
Qed.

(** X17.  [process_command] reads the entry through [strip().lower()]
    only: a text and its normal form run the same command, and the normal
    form is its own normal form.  Commands are therefore recognised
    whatever their case and surrounding white space. *)
Theorem command_text_normal_form (g : Gui) (typed : string) :
  let normal := str_lower (str_strip typed) in
  process_command' (set_cmd_entry typed g)
  = process_command' (set_cmd_entry normal g) /\
  str_lower (str_strip normal) = normal.
Proof.
  intros normal. split; [|apply normal_form_idempotent].
  unfold process_command. cbn [cmd_entry set_cmd_entry].
  unfold normal. rewrite normal_form_idempotent. reflexivity.
Qed.


(** X20.  What the viewport shows after a load.  When the loaded mesh is
    drawable, the update scheduled by the load job draws the new mesh and
    one wireframe of twelve segments per stored hitbox: the boxes of the
    new mesh when its decomposition completed, and otherwise the boxes
    still stored from before the load, next to the new mesh. *)
Theorem viewport_after_load (es : list gui_event) (path : string)
  (cancels : nat -> nat) (m : Mesh) :
  path <> ""%string ->
  trimesh_load path = Some m ->
  mesh_truthy m = true -> plot_trisurf_ok m = true ->
  let g := gui_run' es in
  let g' := update_viewport'
              (load_model kmeans_fit trimesh_load path cancels g) in
  let shown := match clustered_boxes kmeans_fit high_params (vertices m) with
               | Some hs => hs
               | None => current_hitboxes (core g)
               end in
  mesh (core g') = Some m /\ current_hitboxes (core g') = shown /\
  surface (ax g') = Some m /\
  Forall2 (fun h w => draw_voxel (fst h) (snd h) = Some w /\
                      List.length w = 12%nat)
          shown (wireframes (ax g')) /\
  view (ax g') = Some (view_of (camera_state g)).
Proof.
  intros Hne Hl Ht Hp g g' shown.
  apply String.eqb_neq in Hne.
  destruct (@process_model_outcome kmeans_fit trimesh_load cancels path
              (core g) (gui_run_button es)) as (_ & _ & _ & _ & Ho).
  cbv zeta in Ho. rewrite Hl in Ho. destruct Ho as [Hm Hh]. fold shown in Hh.
  set (g1 := load_model kmeans_fit trimesh_load path cancels g) in *.
  assert (Hc : core g1 =
               process_model kmeans_fit trimesh_load cancels path (core g)).
  { unfold g1, load_model. rewrite Hne. reflexivity. }
  destruct (draw_all shown) as [ws [E F]].
  assert (Eg : g' = update_camera
                      (set_ax {| view := None; surface := Some m;
                                 wireframes := ws |}
                         (set_ax cleared_axes g1))).
  { unfold g', update_viewport, mesh_is_true.
    rewrite Hc, Hm, Ht, Hp, Hh, E. reflexivity. }
  rewrite Eg. cbn [core update_camera set_ax ax surface wireframes view
                   camera_state].
  rewrite Hc. repeat split; try assumption.
  unfold g1, load_model. rewrite Hne. reflexivity.
Qed.

End WindowTheorems.

Section ExportedPrimitives.
Variable kmeans_fit : nat -> nat -> list point -> option (list point).
Variable trimesh_load : string -> option Mesh.


End ExportedPrimitives.

(** ** Examples *)


(** X20: the triangle is loaded and decomposed, then the seam mesh is
    loaded, whose decomposition fails: the viewport shows the seam mesh
    with the three boxes of the triangle. *)
Lemma viewport_after_load_witness :
  let g := gui_run fit_first_rows load_by_name accepts_all no_bounds accepts_all
             [Model_chosen "triangle.obj" no_cancels] in
  let g' := update_viewport accepts_all accepts_all
              (load_model fit_first_rows load_by_name "seam.obj" no_cancels
                 g) in
  mesh (core g') = Some seam /\ surface (ax g') = Some seam /\
  current_hitboxes (core g') = current_hitboxes (core g) /\
  List.length (wireframes (ax g')) = 3%nat.
Proof.
  intros g g'.
  destruct (@viewport_after_load fit_first_rows load_by_name accepts_all no_bounds
              accepts_all [Model_chosen "triangle.obj" no_cancels] "seam.obj"
              no_cancels seam)
    as (H1 & H2 & H3 & H4 & _).
  - discriminate.
  - reflexivity.
  - reflexivity.
  - reflexivity.
  - fold g in H1, H2, H3, H4. fold g' in H1, H2, H3, H4.
    assert (E : clustered_boxes fit_first_rows high_params (vertices seam)
                = None) by (vm_compute; reflexivity).
    rewrite E in H2, H4.
    split; [exact H1|]. split; [exact H3|]. split; [exact H2|].
    rewrite <- (Forall2_length H4). vm_compute. reflexivity.
Defined.

(** X22: the seam triangle has three vertices at two positions. *)
Lemma too_few_positions_witness :
  current_hitboxes
    (generate_hitboxes fit_first_rows no_cancels "high" seam_loaded)
  = current_hitboxes seam_loaded /\
  processing_errors
    (run_trace (generate_hitboxes fit_first_rows no_cancels "high")
       seam_loaded)
  = [ValueError_zero_size].
Proof.
  apply (@too_few_positions_fail fit_first_rows load_seam no_cancels "high"
           seam_loaded seam high_params (vertices seam)).
  - exists [Click_load "seam.obj" no_cancels]. reflexivity.
  - reflexivity.
  - reflexivity.
  - discriminate.
  - reflexivity.
  - reflexivity.
  - vm_compute. lia.
Defined.
